(** * PasswordManagerFull: the server core, embedded and verified

    A shallow embedding of [src/Server/CommunicationProtocol.py],
    [src/Server/Session.py] and [src/Server/Server.py]: the wire codec,
    the session store and the connection pipeline.  Python values are
    modelled by the data they carry:

    - [str] is a sequence of Unicode code points ([list N]);
    - [bytes] and [bytearray] are [list byte];
    - [dict] is an insertion-ordered association list with unique keys;
    - a call that may raise returns a [result];
    - code that mutates the server threads the state explicitly;
    - the framed read of the protocol server, which meets [ValueError]
      and [MemoryError] besides, has a monad of its own ([FramedRead]). *)

From Stdlib Require Import List NArith ZArith Lia Bool Ascii String.
From Stdlib.Strings Require Import Byte.
Import ListNotations.
(* [length] is the length of a list throughout, not of a [string] *)
Import Corelib.Init.Datatypes.

(* ================================================================== *)
(** * The Python runtime the sources rely on *)
(* ================================================================== *)

Module Py.

(** [str]: the code points; [bytes] and [bytearray]: the bytes. *)
Abbreviation str := (list N) (only parsing).
Abbreviation bytes := (list byte) (only parsing).

(** The exceptions the embedded code can raise. *)
Inductive exn : Type :=
| TypeError
| IndexError
| KeyError
| OverflowError
| UnicodeDecodeError
| UnicodeEncodeError
| RuntimeError
| OSError
| AttributeError
| CommunicationProtocolException (byte_arr : bytes) (message : str).

Inductive result (A : Type) : Type :=
| Ok (a : A)
| Raise (e : exn).
Arguments Ok {A} a.
Arguments Raise {A} e.

Definition bind {A B} (r : result A) (k : A -> result B) : result B :=
  match r with
  | Ok a => k a
  | Raise e => Raise e
  end.

(** A string literal of the source, as code points. *)
Definition lit (s : String.string) : str :=
  map N_of_ascii (String.list_ascii_of_string s).
Arguments lit s%_string.

Fixpoint str_eqb (a b : str) : bool :=
  match a, b with
  | [], [] => true
  | x :: a', y :: b' => N.eqb x y && str_eqb a' b'
  | _, _ => false
  end.

Definition byte_of_N (n : N) : byte :=
  match Byte.of_N n with Some b => b | None => x00 end.

(** The empty string. *)
Abbreviation empty_str := (@nil N) (only parsing).

(** [ord(":")], [ord("=")] and [ord("~")]. *)
Definition colon : N := 58.
Definition equals : N := 61.
Definition tilde : N := 126.

(** ** UTF-8, the codec behind [str.encode()] and [bytes.decode()] *)

Definition utf8_encode_char (c : N) : option bytes :=
  (if c <? 0x80 then Some [byte_of_N c]
   else if c <? 0x800 then
     Some [byte_of_N (0xC0 + c / 0x40); byte_of_N (0x80 + c mod 0x40)]
   else if c <? 0x10000 then
     if (0xD800 <=? c) && (c <=? 0xDFFF) then None
     else Some [byte_of_N (0xE0 + c / 0x1000);
                byte_of_N (0x80 + (c / 0x40) mod 0x40);
                byte_of_N (0x80 + c mod 0x40)]
   else if c <? 0x110000 then
     Some [byte_of_N (0xF0 + c / 0x40000);
           byte_of_N (0x80 + (c / 0x1000) mod 0x40);
           byte_of_N (0x80 + (c / 0x40) mod 0x40);
           byte_of_N (0x80 + c mod 0x40)]
   else None)%N.

(** [s.encode()]: [UnicodeEncodeError] on a lone surrogate. *)
Fixpoint encode (s : str) : result bytes :=
  match s with
  | [] => Ok []
  | c :: s' =>
      match utf8_encode_char c with
      | None => Raise UnicodeEncodeError
      | Some bs => bind (encode s') (fun rest => Ok (bs ++ rest))
      end
  end.

Definition is_cont (n : N) : bool := ((0x80 <=? n) && (n <=? 0xBF))%N.
Definition in_range (lo hi n : N) : bool := ((lo <=? n) && (n <=? hi))%N.

(** [b.decode()]: strict UTF-8, [UnicodeDecodeError] on anything that is
    not a shortest-form encoding of a scalar value. *)
Fixpoint decode (b : bytes) : result str :=
  match b with
  | [] => Ok []
  | b0 :: r0 =>
      let n0 := Byte.to_N b0 in
      (if n0 <? 0x80 then bind (decode r0) (fun s => Ok (n0 :: s))
       else if in_range 0xC2 0xDF n0 then
         match r0 with
         | b1 :: r1 =>
             let n1 := Byte.to_N b1 in
             if is_cont n1 then
               bind (decode r1)
                    (fun s => Ok ((n0 - 0xC0) * 0x40 + (n1 - 0x80) :: s))
             else Raise UnicodeDecodeError
         | _ => Raise UnicodeDecodeError
         end
       else if in_range 0xE0 0xEF n0 then
         match r0 with
         | b1 :: b2 :: r2 =>
             let n1 := Byte.to_N b1 in
             let n2 := Byte.to_N b2 in
             let lo := if n0 =? 0xE0 then 0xA0 else 0x80 in
             let hi := if n0 =? 0xED then 0x9F else 0xBF in
             if in_range lo hi n1 && is_cont n2 then
               bind (decode r2)
                    (fun s => Ok ((n0 - 0xE0) * 0x1000 + (n1 - 0x80) * 0x40
                                  + (n2 - 0x80) :: s))
             else Raise UnicodeDecodeError
         | _ => Raise UnicodeDecodeError
         end
       else if in_range 0xF0 0xF4 n0 then
         match r0 with
         | b1 :: b2 :: b3 :: r3 =>
             let n1 := Byte.to_N b1 in
             let n2 := Byte.to_N b2 in
             let n3 := Byte.to_N b3 in
             let lo := if n0 =? 0xF0 then 0x90 else 0x80 in
             let hi := if n0 =? 0xF4 then 0x8F else 0xBF in
             if in_range lo hi n1 && is_cont n2 && is_cont n3 then
               bind (decode r3)
                    (fun s => Ok ((n0 - 0xF0) * 0x40000 + (n1 - 0x80) * 0x1000
                                  + (n2 - 0x80) * 0x40 + (n3 - 0x80) :: s))
             else Raise UnicodeDecodeError
         | _ => Raise UnicodeDecodeError
         end
       else Raise UnicodeDecodeError)%N
  end.

(** ** Sequences: indexing, slicing and slice assignment

    Every index in the sources is a non-negative [int], so indices are
    [nat]; Python clamps the bounds of a slice to the length. *)

(** [l[i]] *)
Definition index {A} (l : list A) (i : nat) : result A :=
  match nth_error l i with
  | Some x => Ok x
  | None => Raise IndexError
  end.

(** [l[i:j]] *)
Definition slice {A} (l : list A) (i j : nat) : list A :=
  firstn (j - i) (skipn i l).

(** [l[i:]] *)
Definition slice_from {A} (l : list A) (i : nat) : list A := skipn i l.

(** [l[i:j] = v] on a [bytearray]: the run is replaced, whatever the
    length of [v]. *)
Definition slice_assign {A} (l : list A) (i j : nat) (v : list A) : list A :=
  firstn i l ++ v ++ skipn (Nat.max i j) l.

(** [l[i:] = v] *)
Definition slice_assign_from {A} (l : list A) (i : nat) (v : list A) : list A :=
  firstn i l ++ v.

(** [bytearray(n)] *)
Definition bytearray (n : nat) : bytes := repeat x00 n.

(** ** Integers and bytes *)

(** [n.to_bytes(length, 'little')] for [n >= 0] *)
Fixpoint int_to_bytes_little (length : nat) (n : N) : result bytes :=
  match length with
  | O => if (n =? 0)%N then Ok [] else Raise OverflowError
  | S k =>
      bind (int_to_bytes_little k (n / 256))
           (fun r => Ok (byte_of_N (n mod 256) :: r))
  end.

(** [int.from_bytes(b, 'little')] *)
Fixpoint int_from_bytes_little (b : bytes) : N :=
  match b with
  | [] => 0
  | x :: r => Byte.to_N x + 256 * int_from_bytes_little r
  end.

(** ** [str.split] on a one-character separator *)

Fixpoint split (sep : N) (s : str) : list str :=
  match s with
  | [] => [[]]
  | c :: r =>
      if (c =? sep)%N then [] :: split sep r
      else match split sep r with
           | h :: t => (c :: h) :: t
           | [] => [[c]]
           end
  end.

(** ** [dict] with [str] keys, in insertion order *)

Abbreviation dict V := (list (list N * V)) (only parsing).

Definition keys {V} (d : dict V) : list str := map fst d.

(** [d.get(k)]: [None] when absent, never raises *)
Fixpoint get {V} (d : dict V) (k : str) : option V :=
  match d with
  | [] => None
  | (k', v) :: r => if str_eqb k k' then Some v else get r k
  end.

(** [d[k]] *)
Definition getitem {V} (d : dict V) (k : str) : result V :=
  match get d k with
  | Some v => Ok v
  | None => Raise KeyError
  end.

(** [k in d] *)
Definition contains {V} (d : dict V) (k : str) : bool :=
  match get d k with Some _ => true | None => false end.

(** [d[k] = v]: an existing key keeps its place *)
Fixpoint setitem {V} (d : dict V) (k : str) (v : V) : dict V :=
  match d with
  | [] => [(k, v)]
  | (k', v') :: r =>
      if str_eqb k k' then (k', v) :: r else (k', v') :: setitem r k v
  end.

(** [d] without the entry of [k] *)
Definition remove {V} (d : dict V) (k : str) : dict V :=
  filter (fun kv => negb (str_eqb k (fst kv))) d.

(** [d.pop(k)] with no default: [KeyError] when absent *)
Definition pop {V} (d : dict V) (k : str) : result (V * dict V) :=
  match get d k with
  | Some v => Ok (v, remove d k)
  | None => Raise KeyError
  end.

(** The objects a session keeps for the method functions, and the
    [super] objects a constructor goes through. *)
Inductive object : Type :=
| NoneObject
| IntObject (z : Z)
| StrObject (s : str)
| BytesObject (b : bytes)
| SuperObject.

(** The unbound slot wrapper [super.__init__], as the source calls it:
    its first argument has to be a [super] object, and [TypeError] is
    raised for anything else. *)
Definition super___init__ (self : object) : result unit :=
  match self with
  | SuperObject => Ok tt
  | _ => Raise TypeError
  end.

End Py.

Import Py.
Arguments lit s%_string.

Declare Scope py_scope.
Delimit Scope py_scope with py.
Notation "x <- c ;; k" := (bind c (fun x => k))
  (at level 61, c at next level, right associativity) : py_scope.
Notation "' p <- c ;; k" := (bind c (fun p => k))
  (at level 61, p pattern, c at next level, right associativity) : py_scope.
Open Scope py_scope.

(* ================================================================== *)
(** * CommunicationProtocol.py *)
(* ================================================================== *)

Module CommunicationProtocolException.

(** [__init__(self, byte_arr, message)] starts with
    [super.__init__(message)]: the type [super] itself, not [super()]. *)
Definition __init__ (byte_arr : bytes) (message : str) : result exn :=
  _ <- super___init__ (StrObject message) ;;
  Ok (CommunicationProtocolException byte_arr message).

End CommunicationProtocolException.

Module CommunicationProtocol.

(** A header value set to something that is not a [str] (the handlers
    store [int] lengths) reaches the wire through an f-string; [headers]
    holds that text. [body] is [None] or a byte sequence. *)
Record t : Type := Build {
  req_res : str;
  headers : dict str;
  body : option bytes
}.

Definition get_header_value (self : t) (header_name : str) : option str :=
  get (headers self) header_name.

Definition set_header_value (self : t) (header_name header_value : str) : t :=
  Build (req_res self) (setitem (headers self) header_name header_value)
        (body self).

Fixpoint get_params_list_loop (hs : dict str) (names : list str)
         (params_list : list str) : result (list str) :=
  match names with
  | [] => Ok params_list
  | header_name :: names' =>
      v <- getitem hs header_name ;;
      get_params_list_loop hs names'
        (params_list ++ [header_name ++ lit "=" ++ v])
  end.

Definition get_params_list (self : t) : result (list str) :=
  get_params_list_loop (headers self) (keys (headers self)) [].

Definition params_length (params_list : list str) : nat :=
  fold_left (fun acc param => acc + (length param + 1)) params_list 0.

(** The loop of [to_bytes] that writes ["{param}:"] at [i]. *)
Fixpoint write_params (params_list : list str) (byte_arr : bytes) (i : nat)
  : result (bytes * nat) :=
  match params_list with
  | [] => Ok (byte_arr, i)
  | param :: rest =>
      e <- encode (param ++ lit ":") ;;
      write_params rest
        (slice_assign byte_arr i (i + length param + 1) e)
        (i + length param + 1)
  end.

Definition to_bytes (self : t) : result bytes :=
  params_list <- get_params_list self ;;
  let header_length := 6 + length (req_res self) + params_length params_list in
  let body_length :=
    match body self with None => 0 | Some b => length b end in
  let byte_arr := bytearray (header_length + body_length) in
  tag <- encode (req_res self) ;;
  let byte_arr := slice_assign byte_arr 0 3 tag in
  sep <- encode (lit ":") ;;
  let byte_arr := slice_assign byte_arr 3 4 sep in
  len <- int_to_bytes_little 4 (N.of_nat header_length) ;;
  let byte_arr := slice_assign byte_arr 4 8 len in
  sep <- encode (lit ":") ;;
  let byte_arr := slice_assign byte_arr 8 9 sep in
  '(byte_arr, i) <- write_params params_list byte_arr 9 ;;
  match body self with
  | None => Ok byte_arr
  | Some b => Ok (slice_assign_from byte_arr i b)
  end.

Fixpoint params_list_to_dict_loop (params_list : list str)
         (param_dict : dict str) : result (dict str) :=
  match params_list with
  | [] => Ok param_dict
  | param :: rest =>
      let split_param := split equals param in
      header_name <- index split_param 0 ;;
      header_value <- index split_param 1 ;;
      params_list_to_dict_loop rest (setitem param_dict header_name header_value)
  end.

Definition params_list_to_dict (params_list : list str) : result (dict str) :=
  params_list_to_dict_loop params_list [].

(** [while i < header_length]: the body runs [header_length - i] times
    unless [byte_arr[i]] raises, so the loop is counted by [n], the
    number of iterations still to run. *)
Fixpoint from_bytes_loop (byte_arr : bytes) (n i : nat)
         (params : list str) (param : str) : result (nat * list str) :=
  match n with
  | O => Ok (i, params)
  | S n' =>
      b <- index byte_arr i ;;
      if (Byte.to_N b =? colon)%N
      then from_bytes_loop byte_arr n' (i + 1) (params ++ [param]) []
      else from_bytes_loop byte_arr n' (i + 1) params (param ++ [Byte.to_N b])
  end.

Definition from_bytes (byte_arr : bytes) : result t :=
  req_res <- decode (slice byte_arr 0 3) ;;
  if negb (str_eqb req_res (lit "req")) && negb (str_eqb req_res (lit "res"))
  then
    e <- CommunicationProtocolException.__init__ byte_arr
           (lit "Message does not start with res or req") ;;
    Raise e
  else
    let header_length := N.to_nat (int_from_bytes_little (slice byte_arr 4 8)) in
    '(i, params) <- from_bytes_loop byte_arr (header_length - 9) 9 [] [] ;;
    hs <- params_list_to_dict params ;;
    Ok (Build req_res hs (Some (slice_from byte_arr i))).

End CommunicationProtocol.

(* ================================================================== *)
(** * Session.py *)
(* ================================================================== *)

Module Session.

(** [datetime] values are counted in microseconds, the resolution of
    [datetime.now()]; [seconds_alive] is kept in that unit, where the
    source converts it to a float number of seconds. *)
Record t : Type := Build {
  data : dict object;
  creation_date : Z
}.

Definition __init__ (now : Z) : t := Build [] now.

Definition seconds_alive (self : t) (now_date : Z) : Z :=
  (now_date - creation_date self)%Z.

End Session.

(* ================================================================== *)
(** * The process state and the monad of the server code *)
(* ================================================================== *)

Module socket.

(** A connected socket: the bytes the peer has sent and that were not
    read yet, the chunks handed to [send], and whether [close] was
    called. *)
Record t : Type := Build {
  unread : bytes;
  written : list bytes;
  closed : bool
}.

End socket.

(** What the server code reads and writes: the session map of the server
    object, the sockets (by descriptor), the clock behind
    [datetime.now()], the random source behind [randint] (the [drawn]-th
    draw is [entropy drawn]) and what was printed. *)
Record World : Type := mkWorld {
  sessions : dict Session.t;
  sockets : nat -> socket.t;
  clock : Z;
  entropy : nat -> nat;
  drawn : nat;
  stdout : list str
}.

Definition set_sessions (w : World) (d : dict Session.t) : World :=
  mkWorld d (sockets w) (clock w) (entropy w) (drawn w) (stdout w).

Definition set_socket (w : World) (fd : nat) (s : socket.t) : World :=
  mkWorld (sessions w)
          (fun fd' => if Nat.eqb fd' fd then s else sockets w fd')
          (clock w) (entropy w) (drawn w) (stdout w).

Definition set_clock (w : World) (now : Z) : World :=
  mkWorld (sessions w) (sockets w) now (entropy w) (drawn w) (stdout w).

Definition set_drawn (w : World) (n : nat) : World :=
  mkWorld (sessions w) (sockets w) (clock w) (entropy w) n (stdout w).

Definition print (w : World) (line : str) : World :=
  mkWorld (sessions w) (sockets w) (clock w) (entropy w) (drawn w)
          (stdout w ++ [line]).

(** A computation on the process state: it returns or raises, and leaves a
    state behind either way; [None] when a loop was still running after
    the fuel it was given. *)
Definition M (A : Type) : Type := World -> option (result A * World).

Definition ret {A} (a : A) : M A := fun w => Some (Ok a, w).
Definition raise {A} (e : exn) : M A := fun w => Some (Raise e, w).
Definition lift {A} (r : result A) : M A := fun w => Some (r, w).

Definition bindM {A B} (m : M A) (k : A -> M B) : M B :=
  fun w =>
    match m w with
    | None => None
    | Some (Raise e, w') => Some (Raise e, w')
    | Some (Ok a, w') => k a w'
    end.

Declare Scope io_scope.
Delimit Scope io_scope with io.
Notation "x <- c ;; k" := (bindM c (fun x => k))
  (at level 61, c at next level, right associativity) : io_scope.
Notation "' p <- c ;; k" := (bindM c (fun p => k))
  (at level 61, p pattern, c at next level, right associativity) : io_scope.

Module sock.

(** [client_socket.recv(bufsize)]: what has arrived, [bufsize] bytes at
    most. *)
Definition recv (fd bufsize : nat) : M bytes :=
  fun w =>
    let s := sockets w fd in
    if socket.closed s then Some (Raise OSError, w)
    else Some (Ok (firstn bufsize (socket.unread s)),
               set_socket w fd
                 (socket.Build (skipn bufsize (socket.unread s))
                               (socket.written s) false)).

(** [client_socket.send(data)] *)
Definition send (fd : nat) (data : bytes) : M unit :=
  fun w =>
    let s := sockets w fd in
    if socket.closed s then Some (Raise OSError, w)
    else Some (Ok tt,
               set_socket w fd
                 (socket.Build (socket.unread s)
                               (socket.written s ++ [data]) false)).

(** [client_socket.close()] *)
Definition close (fd : nat) : M unit :=
  fun w =>
    let s := sockets w fd in
    Some (Ok tt,
          set_socket w fd
            (socket.Build (socket.unread s) (socket.written s) true)).

End sock.

(** The values that travel along the handler pipeline. *)
Inductive value : Type :=
| Bytes (b : bytes)
| Message (m : CommunicationProtocol.t)
| ReqRes (req res : CommunicationProtocol.t).

(** [(host, port)] of the peer *)
Definition address : Type := str * nat.

(* ================================================================== *)
(** * Server.py *)
(* ================================================================== *)

Module Server.

Definition handler : Type := nat -> address -> value -> M value.

(** The server object: the handler list and the two operations a
    subclass may override. *)
Record t : Type := Build {
  handlers : list handler;
  receive_message : nat -> address -> M value;
  close_client : nat -> address -> M unit
}.

Definition default_receive_message (client_socket : nat)
           (client_address : address) : M value :=
  (b <- sock.recv client_socket 1024 ;; ret (Bytes b))%io.

Definition default_close_client (client_socket : nat)
           (client_address : address) : M unit :=
  sock.close client_socket.

Definition __init__ : t :=
  Build [] default_receive_message default_close_client.

Definition add_handler (self : t) (h : handler) : t :=
  Build (handlers self ++ [h]) (receive_message self) (close_client self).

(** [for handler in self.handlers: prev_result = handler(...)] *)
Fixpoint run_handlers (hs : list handler) (client_socket : nat)
         (client_address : address) (prev_result : value) : M value :=
  match hs with
  | [] => ret prev_result
  | h :: hs' =>
      (r <- h client_socket client_address prev_result ;;
       run_handlers hs' client_socket client_address r)%io
  end.

Definition handle_client (self : t) (client_socket : nat)
           (client_address : address) : M unit :=
  (message <- receive_message self client_socket client_address ;;
   prev_result <- run_handlers (handlers self) client_socket client_address
                               message ;;
   close_client self client_socket client_address)%io.

End Server.

Module SessionServer.

Record t : Type := Build {
  session_token_length : Z;
  session_ttl : Z
}.

(** [string.ascii_lowercase + string.ascii_uppercase + string.digits] *)
Definition characters : str :=
  lit "abcdefghijklmnopqrstuvwxyzABCDEFGHIJKLMNOPQRSTUVWXYZ0123456789".

(** [randint(a, b)]: the next draw, brought into [a..b]. *)
Definition randint (a b : nat) : M nat :=
  fun w =>
    Some (Ok (a + entropy w (drawn w) mod (b - a + 1)),
          set_drawn w (S (drawn w))).

(** [for i in range(length): token += characters[randint(...)]] *)
Fixpoint draw_token (n : nat) (token : str) : M str :=
  match n with
  | O => ret token
  | S n' =>
      (r <- randint 0 (length characters - 1) ;;
       c <- lift (index characters r) ;;
       draw_token n' (token ++ [c]))%io
  end.

(** [while token in self.sessions or token is empty: ...]; the loop has no
    bound, [fuel] is the number of rounds it is allowed. *)
Fixpoint generate_session_token_loop (fuel : nat) (length : Z) (token : str)
  : M str :=
  fun w =>
    if contains (sessions w) token || str_eqb token empty_str
    then match fuel with
         | O => None
         | S fuel' =>
             (token' <- draw_token (Z.to_nat length) empty_str ;;
              generate_session_token_loop fuel' length token')%io w
         end
    else Some (Ok token, w).

Definition generate_session_token (fuel : nat) (self : t) (length : Z)
  : M str :=
  generate_session_token_loop fuel length empty_str.

Definition create_session (fuel : nat) (self : t) : M str :=
  (token <- generate_session_token fuel self (session_token_length self) ;;
   fun w =>
     Some (Ok token,
           set_sessions w
             (setitem (sessions w) token (Session.__init__ (clock w)))))%io.

Definition get_session (self : t) (token : str) (w : World)
  : option Session.t :=
  get (sessions w) token.

Definition close_session (self : t) (token : str) : M unit :=
  fun w =>
    match pop (sessions w) token with
    | Ok (_, d) => Some (Ok tt, set_sessions w d)
    | Raise e => Some (Raise e, w)
    end.

(** ** The cleanup thread

    [remove_sessions] runs on a thread of its own while the connection
    threads use the same [sessions] dictionary.  A [schedule] says what
    the other threads and the passing of time do to the process each
    time the cleanup thread can be preempted: between two steps of the
    dictionary iterator, between two removals and during [sleep]. *)
Definition schedule : Type := nat -> World -> World.

(** Where the thread stands: still in its [while True], returned from
    [remove_sessions], or ended by an exception nobody caught. *)
Inductive worker : Type :=
| Looping
| Returned
| Died (e : exn).

Definition microseconds (seconds : Z) : Z := (seconds * 1000000)%Z.

Section cleanup.

Variable env : schedule.
Variable self : t.

(** [for token, session in self.sessions.items()]: the iterator was
    created on a dictionary of [size0] entries and raises
    [RuntimeError] (dictionary changed size during iteration) when it
    finds another size; [k] entries are still to come and [i] is the
    position of the next one, which is there since the size is [size0].
    A change that keeps the size goes unnoticed.  [pc] counts the
    preemption points. *)
Fixpoint scan (size0 k i pc : nat) (remove_tokens : list str) (w : World)
  : result (list str) * World * nat :=
  let w := env pc w in
  if negb (Nat.eqb (length (sessions w)) size0)
  then (Raise RuntimeError, w, S pc)
  else
    match k with
    | O => (Ok remove_tokens, w, S pc)
    | S k' =>
        match nth_error (sessions w) i with
        | None => (Ok remove_tokens, w, S pc)
        | Some (token, session) =>
            let remove_tokens :=
              if (Session.seconds_alive session (clock w)
                  >? microseconds (session_ttl self))%Z
              then remove_tokens ++ [token]
              else remove_tokens in
            scan size0 k' (S i) (S pc) remove_tokens w
        end
    end.

(** [for token in remove_tokens: print(...); self.sessions.pop(token)] *)
Fixpoint remove_expired (remove_tokens : list str) (pc : nat) (w : World)
  : result unit * World * nat :=
  match remove_tokens with
  | [] => (Ok tt, w, pc)
  | token :: rest =>
      let w := env pc w in
      let w := print w (lit "Deleted session with token=" ++ token) in
      match pop (sessions w) token with
      | Raise e => (Raise e, w, S pc)
      | Ok (_, d) => remove_expired rest (S pc) (set_sessions w d)
      end
  end.

(** [time.sleep(seconds)] *)
Definition sleep (seconds : Z) (pc : nat) (w : World) : World * nat :=
  (env pc (set_clock w (clock w + microseconds seconds)%Z), S pc).

(** One round of the [while True] loop; [Looping] when the round ran
    to its end. *)
Definition sweep (pc : nat) (w : World) : worker * World * nat :=
  let size0 := length (sessions w) in
  match scan size0 size0 0 pc [] w with
  | (Raise RuntimeError, w, pc) => (Returned, w, pc)
  | (Raise e, w, pc) => (Died e, w, pc)
  | (Ok remove_tokens, w, pc) =>
      match remove_expired remove_tokens pc w with
      | (Raise e, w, pc) => (Died e, w, pc)
      | (Ok _, w, pc) =>
          let '(w, pc) := sleep 5 pc w in (Looping, w, pc)
      end
  end.

(** The first [n] rounds of [while True]. *)
Fixpoint remove_sessions (n pc : nat) (w : World) : worker * World * nat :=
  match n with
  | O => (Looping, w, pc)
  | S n' =>
      match sweep pc w with
      | (Looping, w, pc) => remove_sessions n' pc w
      | stopped => stopped
      end
  end.

End cleanup.

End SessionServer.

Module CommunicationProtocolServer.

(** A method function receives [req], [res] and the session and fills
    [res] in place; here it returns the two messages as it leaves
    them. *)
Definition method_function : Type :=
  CommunicationProtocol.t -> CommunicationProtocol.t -> option Session.t ->
  M (CommunicationProtocol.t * CommunicationProtocol.t).

Record t : Type := Build {
  base : SessionServer.t;
  method_handlers : dict method_function
}.

Definition __init__ (session_ttl : Z) : t :=
  Build (SessionServer.Build 8 session_ttl) [].

Definition handle_method (self : t) (method : str)
           (method_function : method_function) : t :=
  Build (base self) (setitem (method_handlers self) method method_function).

Definition parse_message (self : t) (client_socket : nat)
           (client_address : address) (message : bytes)
  : M CommunicationProtocol.t :=
  lift (CommunicationProtocol.from_bytes message).

Definition session_generator (fuel : nat) (self : t) (client_socket : nat)
           (client_address : address) (req : CommunicationProtocol.t)
  : M CommunicationProtocol.t :=
  let session_value := CommunicationProtocol.get_header_value req (lit "Session") in
  match session_value with
  | Some v =>
      if str_eqb v (lit "*")
      then
        (session_token <- SessionServer.create_session fuel (base self) ;;
         ret (CommunicationProtocol.set_header_value req (lit "Session")
                session_token))%io
      else ret req
  | None => ret req
  end.

(** [v[0]] for a header value [v], which is [None] when the header is
    missing. *)
Definition first_character (v : option str) : result N :=
  match v with
  | None => Raise TypeError
  | Some s => index s 0
  end.

(** [self.method_handlers[method]] *)
Definition lookup_method (self : t) (method : option str)
  : result method_function :=
  match method with
  | None => Raise KeyError
  | Some name => getitem (method_handlers self) name
  end.

(** The end of [method_handler], from [client_socket.send] on. *)
Definition send_response (self : t) (client_socket : nat)
           (session_token : str)
           (req res : CommunicationProtocol.t)
  : M (CommunicationProtocol.t * CommunicationProtocol.t) :=
  (data <- lift (CommunicationProtocol.to_bytes res) ;;
   _ <- sock.send client_socket data ;;
   c <- lift (first_character
                (CommunicationProtocol.get_header_value req (lit "Session"))) ;;
   if (c =? tilde)%N
   then (_ <- SessionServer.close_session (base self) session_token ;;
         ret (req, res))
   else ret (req, res))%io.

(** [session_token[0]] is read first: past it, [session_token] is a
    string. *)
Definition method_handler (self : t) (client_socket : nat)
           (client_address : address) (req : CommunicationProtocol.t)
  : M (CommunicationProtocol.t * CommunicationProtocol.t) :=
  let res := CommunicationProtocol.Build (lit "res") [] None in
  let session_token := CommunicationProtocol.get_header_value req (lit "Session") in
  (c <- lift (first_character session_token) ;;
   let session_token :=
     match session_token with Some s => s | None => empty_str end in
   let session_token :=
     if (c =? tilde)%N then slice_from session_token 1 else session_token in
   fun w =>
     let session :=
       if negb (str_eqb session_token (lit "-"))
       then SessionServer.get_session (base self) session_token w
       else None in
     let res := CommunicationProtocol.set_header_value res (lit "Session")
                  session_token in
     let method := CommunicationProtocol.get_header_value req (lit "Method") in
     (f <- lift (lookup_method self method) ;;
      '(req, res) <- f req res session ;;
      send_response self client_socket session_token req res) w)%io.

(** The three stages [__init__] appends to [self.handlers]; each takes
    what the stage before it returned.  (The framed read that overrides
    [receive_message] is the subject of [FramedRead] below.) *)
Definition parse_stage (self : t) : Server.handler :=
  fun client_socket client_address prev_result =>
    match prev_result with
    | Bytes message =>
        (m <- parse_message self client_socket client_address message ;;
         ret (Message m))%io
    | _ => raise TypeError
    end.

Definition session_stage (fuel : nat) (self : t) : Server.handler :=
  fun client_socket client_address prev_result =>
    match prev_result with
    | Message req =>
        (m <- session_generator fuel self client_socket client_address req ;;
         ret (Message m))%io
    | _ => raise AttributeError
    end.

Definition method_stage (self : t) : Server.handler :=
  fun client_socket client_address prev_result =>
    match prev_result with
    | Message req =>
        ('(req, res) <- method_handler self client_socket client_address req ;;
         ret (ReqRes req res))%io
    | _ => raise AttributeError
    end.

Definition handlers (fuel : nat) (self : t) : list Server.handler :=
  [parse_stage self; session_stage fuel self; method_stage self].

End CommunicationProtocolServer.

(* ================================================================== *)
(** * Server.py: the framed read of [CommunicationProtocolServer] *)
(* ================================================================== *)

Module FramedRead.

(** [CommunicationProtocolServer.receive_message] meets two exceptions
    the other functions do not: [ValueError], from [recv] on a negative
    size and from [int], and [MemoryError], from the buffer [recv]
    allocates before it reads. *)
Inductive raised : Type :=
| Builtin (e : exn)
| ValueError
| MemoryError.

Inductive outcome (A : Type) : Type :=
| Value (a : A)
| Failure (e : raised).
Arguments Value {A} a.
Arguments Failure {A} e.

(** A computation on the process state that can raise them; [None]
    when a loop was still running after the fuel it was given. *)
Definition F (A : Type) : Type := World -> option (outcome A * World).

Definition retF {A} (a : A) : F A := fun w => Some (Value a, w).
Definition failF {A} (e : raised) : F A := fun w => Some (Failure e, w).

Definition bindF {A B} (m : F A) (k : A -> F B) : F B :=
  fun w =>
    match m w with
    | None => None
    | Some (Failure e, w') => Some (Failure e, w')
    | Some (Value a, w') => k a w'
    end.

Definition of_M {A} (m : M A) : F A :=
  fun w =>
    match m w with
    | None => None
    | Some (Raise e, w') => Some (Failure (Builtin e), w')
    | Some (Ok a, w') => Some (Value a, w')
    end.

Definition of_result {A} (r : result A) : F A := of_M (lift r).

Declare Scope framed_scope.
Delimit Scope framed_scope with framed.
Notation "x <- c ;; k" := (bindF c (fun x => k))
  (at level 61, c at next level, right associativity) : framed_scope.

(** [a == b] on two [bytes] objects *)
Fixpoint bytes_eqb (a b : bytes) : bool :=
  match a, b with
  | [], [] => true
  | x :: a', y :: b' => Byte.eqb x y && bytes_eqb a' b'
  | _, _ => false
  end.

(** [data != s] for a [bytes] object [data] and a [str] [s]: objects of
    the two types are never equal. *)
Definition bytes_ne_str (data : bytes) (s : str) : bool := true.

(** [l.pop(-1)], for the list it leaves *)
Definition pop_last {A} (l : list A) : result (list A) :=
  match l with
  | [] => Raise IndexError
  | _ => Ok (removelast l)
  end.

Definition is_digit (c : N) : bool := ((48 <=? c) && (c <=? 57))%N.

(** [s] without the prefix [p], when it starts with it *)
Fixpoint strip_prefix (p s : str) : option str :=
  match p, s with
  | [], _ => Some s
  | c :: p', d :: s' => if (c =? d)%N then strip_prefix p' s' else None
  | _ :: _, [] => None
  end.

(** [re.compile(r"Content-Length=[0-9]+").match]: the pattern is looked
    for at the start of the string, and anything may follow it. *)
Definition regular_expression_match (s : str) : bool :=
  match strip_prefix (lit "Content-Length=") s with
  | Some (c :: _) => is_digit c
  | _ => false
  end.

(** The largest [Py_ssize_t]. *)
Definition ssize_max : Z := (2 ^ 63 - 1)%Z.

Section receive.

(** The largest buffer the process can allocate, and the builtin [int]
    on a [str], [None] where it raises [ValueError]. *)
Variable heap : Z.
Variable int : str -> option Z.

(** [client_socket.recv(bufsize)] for any [int]: the size is checked
    and the buffer allocated before anything is read. *)
Definition recv (client_socket : nat) (bufsize : Z) : F bytes :=
  if (bufsize >? ssize_max)%Z then failF (Builtin OverflowError)
  else if (bufsize <? 0)%Z then failF ValueError
  else if (bufsize >? heap)%Z then failF MemoryError
  else of_M (sock.recv client_socket (Z.to_nat bufsize)).

(** [while data != "": req_res += data; data = client_socket.recv(1)] *)
Fixpoint read_on (fuel : nat) (client_socket : nat) (req_res data : bytes)
  : F bytes :=
  if bytes_ne_str data empty_str
  then match fuel with
       | O => fun _ => None
       | S fuel' =>
           (data' <- recv client_socket 1 ;;
            read_on fuel' client_socket (req_res ++ data) data')%framed
       end
  else retF req_res.

Definition receive_message (fuel : nat) (client_socket : nat)
           (client_address : address) : F bytes :=
  (req_res <- recv client_socket 3 ;;
   req <- of_result (encode (lit "req")) ;;
   res <- of_result (encode (lit "res")) ;;
   if negb (bytes_eqb req_res req) && negb (bytes_eqb req_res res)
   then
     data <- recv client_socket 1 ;;
     req_res <- read_on fuel client_socket req_res data ;;
     e <- of_result (CommunicationProtocolException.__init__ req_res
                       (lit "Message does not start with res or req")) ;;
     failF (Builtin e)
   else
     six <- recv client_socket 6 ;;
     let header_length_bytes := slice six 1 5 in
     let header_length :=
       Z.of_N (int_from_bytes_little header_length_bytes) in
     headers <- recv client_socket (header_length - 9) ;;
     headers_list <- of_result (decode headers) ;;
     let headers_list := split colon headers_list in
     headers_list <- of_result (pop_last headers_list) ;;
     content_length_header <-
       of_result (index (filter regular_expression_match headers_list) 0) ;;
     content_length <-
       of_result (index (split equals content_length_header) 1) ;;
     match int content_length with
     | None => failF ValueError
     | Some content_length =>
         body <- recv client_socket content_length ;;
         sep <- of_result (encode (lit ":")) ;;
         retF (req_res ++ sep ++ header_length_bytes ++ sep ++ headers
               ++ body)
     end)%framed.

End receive.

End FramedRead.

(* ================================================================== *)
(** * The vocabulary of the properties *)
(* ================================================================== *)

(** The two direction tags. *)
Definition is_direction (s : str) : Prop := s = lit "req" \/ s = lit "res".

(** Code points [encode] accepts: every one but the surrogates. *)
Definition scalar (c : N) : Prop :=
  (c < 0xD800 \/ (0xDFFF < c /\ c < 0x110000))%N.

Definition text (s : str) : Prop := Forall scalar s.

Definition ascii_text (s : str) : Prop := Forall (fun c => (c < 128)%N) s.

Definition no_delimiter (s : str) : Prop := ~ In colon s /\ ~ In equals s.

(** ["name=value"], the entry of [get_params_list] for a header. *)
Definition param_of (kv : str * str) : str := fst kv ++ lit "=" ++ snd kv.

(** [9 + sum (len(name) + len(value) + 2)] over the headers. *)
Definition header_length_of (hs : dict str) : nat :=
  9 + list_sum (map (fun kv => length (fst kv) + length (snd kv) + 2) hs).

Definition fits_uint32 (n : nat) : Prop := (N.of_nat n < 2 ^ 32)%N.

(** The field at offsets 4..7 of a frame. *)
Definition header_length_field (frame : bytes) : N :=
  int_from_bytes_little (slice frame 4 8).

(** A message [to_bytes] can frame: a direction tag, headers that are a
    dictionary of text, and a header section that fits the 32-bit
    length field. *)
Definition well_formed (m : CommunicationProtocol.t) : Prop :=
  is_direction (CommunicationProtocol.req_res m) /\
  NoDup (keys (CommunicationProtocol.headers m)) /\
  Forall (fun kv => text (fst kv) /\ text (snd kv))
         (CommunicationProtocol.headers m) /\
  fits_uint32 (header_length_of (CommunicationProtocol.headers m)).

(** ASCII text without the two delimiters of the wire format. *)
Definition plain (s : str) : Prop := ascii_text s /\ no_delimiter s.

(** [from_bytes (to_bytes m)] gives [m] back. *)
Definition round_trips (m : CommunicationProtocol.t) : Prop :=
  exists frame m',
    CommunicationProtocol.to_bytes m = Ok frame /\
    CommunicationProtocol.from_bytes frame = Ok m' /\
    CommunicationProtocol.req_res m' = CommunicationProtocol.req_res m /\
    CommunicationProtocol.headers m' = CommunicationProtocol.headers m /\
    CommunicationProtocol.body m' = CommunicationProtocol.body m.

(** A request or response whose header names and values hold no [':']
    and no ['='] and whose body is a byte sequence. *)
Definition delimiter_free (m : CommunicationProtocol.t) : Prop :=
  is_direction (CommunicationProtocol.req_res m) /\
  NoDup (keys (CommunicationProtocol.headers m)) /\
  Forall (fun kv => no_delimiter (fst kv) /\ no_delimiter (snd kv))
         (CommunicationProtocol.headers m) /\
  CommunicationProtocol.body m <> None.

Definition bytes_lit (s : String.string) : list byte :=
  map byte_of_ascii (String.list_ascii_of_string s).
Arguments bytes_lit s%_string.

(** [Method=ping], [Session=*], [Content-Length=2] and the body [b"hi"]. *)
Definition ping : CommunicationProtocol.t :=
  CommunicationProtocol.Build (lit "req")
    [(lit "Method", lit "ping"); (lit "Session", lit "*");
     (lit "Content-Length", lit "2")]
    (Some (bytes_lit "hi")).

(** A request with the header [a] set to U+00E9, a one-character string
    that takes two bytes in UTF-8. *)
Definition accent : CommunicationProtocol.t :=
  CommunicationProtocol.Build (lit "req") [(lit "a", [0xE9%N])]
    (Some (bytes_lit "hi")).

(** ** Processes and connections *)

(** A fresh process: no session, the clock at 0, nothing printed, every
    socket open and silent; the [n]-th random draw is [n]. *)
Definition world0 : World :=
  mkWorld [] (fun _ => socket.Build [] [] false) 0%Z (fun n => n) 0 [].

(** The peer of [fd] has sent [data]. *)
Definition arrive (w : World) (fd : nat) (data : list byte) : World :=
  set_socket w fd (socket.Build data [] false).

Definition peer : address := (lit "127.0.0.1", 4242).

(** The state [client_socket.send(frame)] leaves on an open socket. *)
Definition sent (w : World) (fd : nat) (frame : list byte) : World :=
  set_socket w fd
    (socket.Build (socket.unread (sockets w fd))
                  (socket.written (sockets w fd) ++ [frame]) false).

(** The connection [fd] is closed once [handle_client] is over. *)
Definition connection_released (self : Server.t) (fd : nat) (a : address)
           (w : World) : Prop :=
  exists r w',
    Server.handle_client self fd a w = Some (r, w') /\
    socket.closed (sockets w' fd) = true.

(** ** The session store and its users *)

(** The other threads leave the session map alone. *)
Definition quiet (env : SessionServer.schedule) : Prop :=
  forall pc w, sessions (env pc w) = sessions w.

(** What a connection thread, a method function or the passing of time
    does to the process in one go. *)
Inductive op : Type :=
| Create (fuel : nat)
| Close (token : list N)
| Store (token key : list N) (v : object)
| Tick (dt : Z).

Definition run_op (self : SessionServer.t) (o : op) (w : World) : World :=
  match o with
  | Create fuel =>
      match SessionServer.create_session fuel self w with
      | Some (_, w') => w'
      | None => w
      end
  | Close token =>
      match SessionServer.close_session self token w with
      | Some (_, w') => w'
      | None => w
      end
  | Store token key v =>
      match SessionServer.get_session self token w with
      | Some s =>
          set_sessions w
            (setitem (sessions w) token
               (Session.Build (setitem (Session.data s) key v)
                              (Session.creation_date s)))
      | None => w
      end
  | Tick dt => set_clock w (clock w + dt)%Z
  end.

(** The schedule in which the other threads run [sched pc] at the
    preemption point [pc]. *)
Definition interleave (self : SessionServer.t) (sched : nat -> list op)
  : SessionServer.schedule :=
  fun pc w => fold_left (fun w o => run_op self o w) (sched pc) w.

(** The states of a session server: it starts with no session, then the
    connection threads and the cleanup thread run, the latter preempted
    by the former. *)
Inductive reachable (self : SessionServer.t) : World -> Prop :=
| reach_start (w : World) : sessions w = [] -> reachable self w
| reach_op (w : World) (o : op) :
    reachable self w -> reachable self (run_op self o w)
| reach_sweep (w : World) (sched : nat -> list op) (n pc : nat) :
    reachable self w ->
    reachable self
      (snd (fst (SessionServer.remove_sessions (interleave self sched) self
                                               n pc w))).

(** The session map is a dictionary: no two entries share a token. *)
Definition store_ok (w : World) : Prop := NoDup (keys (sessions w)).

(** The characters of a token. *)
Definition alphanumeric (token : list N) : Prop :=
  Forall (fun c => In c SessionServer.characters) token.

(** The response [method_handler] hands to the method function. *)
Definition fresh_response (session_token : list N) : CommunicationProtocol.t :=
  CommunicationProtocol.set_header_value
    (CommunicationProtocol.Build (lit "res") [] None)
    (lit "Session") session_token.

(** ** A small service *)

(** A method function that answers with an empty body and touches
    nothing else. *)
Definition pong : CommunicationProtocolServer.method_function :=
  fun req res session =>
    ret (req,
         CommunicationProtocol.set_header_value
           (CommunicationProtocol.set_header_value
              (CommunicationProtocol.set_header_value res
                 (lit "Content-Length") (lit "0"))
              (lit "Method") (lit "ping"))
           (lit "Content-Type") (lit "ascii")).

Definition ping_server : CommunicationProtocolServer.t :=
  CommunicationProtocolServer.handle_method
    (CommunicationProtocolServer.__init__ 10800) (lit "ping") pong.

(** The server object of the service, with the default receive and
    close operations. *)
Definition ping_service : Server.t :=
  Server.Build (CommunicationProtocolServer.handlers 1 ping_server)
               Server.default_receive_message Server.default_close_client.

(** [ping] requests with other directives. *)
Definition ping_with (directive : list N) : CommunicationProtocol.t :=
  CommunicationProtocol.Build (lit "req")
    [(lit "Method", lit "ping"); (lit "Session", directive);
     (lit "Content-Length", lit "0")]
    (Some []).

Definition ping_without_session : CommunicationProtocol.t :=
  CommunicationProtocol.Build (lit "req")
    [(lit "Method", lit "ping"); (lit "Content-Length", lit "0")]
    (Some []).

(** ** Frames, servers and schedules used below *)

(** The header section of ASCII parameters: each one, then a colon. *)
Definition wire (ps : list str) : bytes :=
  flat_map (fun p => map byte_of_N p ++ [byte_of_N colon]) ps.

Definition store8 : SessionServer.t := SessionServer.Build 8 10800.

(** The process after one [create_session]: the draws 0..7 make the
    token [abcdefgh]. *)
Definition one_session : World := run_op store8 (Create 1) world0.

(** A server whose only handler is the parser of the protocol. *)
Definition parsing_server : Server.t :=
  Server.add_handler Server.__init__
    (CommunicationProtocolServer.parse_stage
       (CommunicationProtocolServer.__init__ 10800)).

(** Another thread opens a session while the first round of the cleanup
    thread is scanning the map. *)
Definition busy : SessionServer.schedule :=
  interleave store8 (fun pc => if Nat.eqb pc 1 then [Create 1] else []).

(** Three hours and a second go by, and a connection thread closes the
    session between the scan that found it expired and its removal. *)
Definition racing : SessionServer.schedule :=
  interleave store8
    (fun pc => if Nat.eqb pc 0 then [Tick 10801000000]
               else if Nat.eqb pc 2 then [Close (lit "abcdefgh")]
               else []).

(** Nobody else runs. *)
Definition idle : SessionServer.schedule := interleave store8 (fun _ => []).

(** ** More vocabulary for the codec *)

(** The bytes a body puts on the wire: none for [None]. *)
Definition body_bytes (body : option (list byte)) : list byte :=
  match body with Some b => b | None => [] end.

(** A frame: the tag, the length field and the header section between
    its colons, then the body. *)
Definition frame_of (tag : list N) (len4 : list byte) (ps : list (list N))
           (b : list byte) : list byte :=
  (map byte_of_N tag ++ [byte_of_N colon] ++ len4 ++ [byte_of_N colon])
  ++ wire ps ++ b.

(** A string up to its first ['=']. *)
Fixpoint before_equals (v : list N) : list N :=
  match v with
  | [] => []
  | c :: r => if (c =? equals)%N then [] else c :: before_equals r
  end.

(** ASCII text without a colon. *)
Definition colon_free (s : list N) : Prop := ascii_text s /\ ~ In colon s.

(** [m] with another body. *)
Definition with_body (m : CommunicationProtocol.t) (b : option (list byte))
  : CommunicationProtocol.t :=
  CommunicationProtocol.Build (CommunicationProtocol.req_res m)
                              (CommunicationProtocol.headers m) b.

(** The headers as [from_bytes] reads them back: every value up to its
    first ['=']. *)
Definition headers_read (hs : list (list N * list N)) : list (list N * list N) :=
  map (fun kv => (fst kv, before_equals (snd kv))) hs.

(** A response without a body whose [Filter] header holds an ['=']. *)
Definition filtered : CommunicationProtocol.t :=
  CommunicationProtocol.Build (lit "res")
    [(lit "Method", lit "find"); (lit "Filter", lit "name=bob")] None.

(** [ping] without a body. *)
Definition ping_no_body : CommunicationProtocol.t := with_body ping None.

(** The first 22 bytes of the frame of [ping], which announces 48. *)
Definition ping_cut_short : list byte :=
  bytes_lit "req:" ++ [x30; x00; x00; x00] ++ bytes_lit ":Method=ping:S".

(** The headers [a=1], [b=2] and [a=3], as a peer may send them. *)
Definition repeated : list (list N * list N) :=
  [(lit "a", lit "1"); (lit "b", lit "2"); (lit "a", lit "3")].

(** ** More vocabulary for the session store *)

(** A session is expired at [now] when it is older than the time to
    live of the server. *)
Definition expired (self : SessionServer.t) (now : Z) (s : Session.t) : bool :=
  (Session.seconds_alive s now
   >? SessionServer.microseconds (SessionServer.session_ttl self))%Z.

Definition expired_entry (self : SessionServer.t) (now : Z)
           (kv : list N * Session.t) : bool :=
  expired self now (snd kv).

Definition live_entry (self : SessionServer.t) (now : Z)
           (kv : list N * Session.t) : bool :=
  negb (expired self now (snd kv)).

(** Nobody but the cleanup thread runs, and no time passes but in its
    [sleep]. *)
Definition still (env : SessionServer.schedule) : Prop :=
  forall pc w, env pc w = w.

(** The line the cleanup thread prints for a token it removes. *)
Definition deleted_line (token : list N) : list N :=
  lit "Deleted session with token=" ++ token.

(** The string the next [n] random draws spell. *)
Definition token_of_draws (w : World) (n : nat) : list N :=
  map (fun j => nth (entropy w (drawn w + j) mod 62)
                    SessionServer.characters 0%N)
      (seq 0 n).

(** Nobody else runs, at all. *)
Definition alone : SessionServer.schedule := fun _ w => w.

(** A store with a session opened at 0 and one opened 10000 s later,
    10801 s after the first was opened. *)
Definition old_and_new : World :=
  mkWorld [(lit "oldtoken", Session.Build [] 0);
           (lit "newtoken", Session.Build [] 10000000000)]
          (fun _ => socket.Build [] [] false) 10801000000%Z (fun n => n) 0 [].

(** ** More vocabulary for the dispatcher *)

(** What [method_handler] hands on: the pair it returns, as the value
    of its stage. *)
Definition as_value (p : CommunicationProtocol.t * CommunicationProtocol.t)
  : M value :=
  ret (ReqRes (fst p) (snd p)).

(** The process with one session, after the peer of socket 0 was
    closed on. *)
Definition hung_up : World :=
  set_socket one_session 0 (socket.Build [] [] true).

(** A method function that fails. *)
Definition failing : CommunicationProtocolServer.method_function :=
  fun req res session => raise OSError.

Definition failing_server : CommunicationProtocolServer.t :=
  CommunicationProtocolServer.handle_method ping_server (lit "fail") failing.

(** ** More vocabulary for the framed read *)

(** The process after [k] bytes were read from the open socket [fd]. *)
Definition took (w : World) (fd k : nat) : World :=
  set_socket w fd
    (socket.Build (skipn k (socket.unread (sockets w fd)))
                  (socket.written (sockets w fd)) false).

(** A buffer size [recv] accepts. *)
Definition allocatable (heap n : Z) : Prop :=
  (0 <= n /\ n <= heap /\ n <= FramedRead.ssize_max)%Z.

(** A decimal number: ASCII digits, one at least, and no more than
    [int] converts. *)
Definition decimal (s : str) : Prop :=
  s <> [] /\ Forall (fun c => FramedRead.is_digit c = true) s /\
  length s <= 4300.

Definition digits_value (s : str) : Z :=
  fold_left (fun acc c => (10 * acc + (Z.of_N c - 48))%Z) s 0%Z.

(** What [int] is relied on for: the value of a decimal number. *)
Definition reads_decimals (int : str -> option Z) : Prop :=
  forall s, decimal s -> int s = Some (digits_value s).

(** A stand-in for [int] that knows decimal numbers only. *)
Definition int_of_digits (s : str) : option Z :=
  match s with
  | [] => None
  | _ => if forallb FramedRead.is_digit s then Some (digits_value s) else None
  end.

(** The header section as text: every parameter, then a colon. *)
Definition header_text (ps : list str) : str :=
  flat_map (fun p => p ++ [colon]) ps.

(** What the pattern of [receive_message] finds in the headers. *)
Definition content_length_params (hs : list (str * str)) : list str :=
  match get hs (lit "Content-Length") with
  | Some (c :: r) =>
      if FramedRead.is_digit c then [param_of (lit "Content-Length", c :: r)]
      else []
  | _ => []
  end.

(** [ping] as a request that keeps its session: the frame of 55 bytes
    below, then whatever the peer sent next. *)
Definition ping_kept : CommunicationProtocol.t :=
  CommunicationProtocol.Build (lit "req")
    [(lit "Method", lit "ping"); (lit "Session", lit "abcdefgh");
     (lit "Content-Length", lit "2")]
    (Some (bytes_lit "hi")).

Definition ping_kept_frame : bytes :=
  bytes_lit "req:" ++ [x37; x00; x00; x00]
  ++ bytes_lit ":Method=ping:Session=abcdefgh:Content-Length=2:hi".

(** A request without a [Content-Length] header, and its frame. *)
Definition ping_unsized : CommunicationProtocol.t :=
  CommunicationProtocol.Build (lit "req")
    [(lit "Method", lit "ping"); (lit "Session", lit "-")]
    (Some (bytes_lit "hi")).

Definition ping_unsized_frame : bytes :=
  bytes_lit "req:" ++ [x1f; x00; x00; x00]
  ++ bytes_lit ":Method=ping:Session=-:hi".

(** A request whose [Content-Length] is [2x], and its frame. *)
Definition ping_misnumbered : CommunicationProtocol.t :=
  CommunicationProtocol.Build (lit "req")
    [(lit "Content-Length", lit "2x")] (Some (bytes_lit "hi")).

Definition ping_misnumbered_frame : bytes :=
  bytes_lit "req:" ++ [x1b; x00; x00; x00]
  ++ bytes_lit ":Content-Length=2x:hi".

(** A process that can allocate a mebibyte at a time. *)
Definition mebibyte : Z := 1048576.

(* ================================================================== *)
(** * Facts about the runtime *)
(* ================================================================== *)

Import CommunicationProtocol.

Section runtime_facts.

Lemma bind_Raise_inv A B (r : result A) (k : A -> result B) (e : exn) :
  bind r k = Raise e ->
  r = Raise e \/ exists x, r = Ok x /\ k x = Raise e.
Proof. destruct r as [x|e']; simpl; [eauto|]. intros [= ->]. now left. Qed.

Lemma bind_Ok_inv A B (r : result A) (k : A -> result B) (y : B) :
  bind r k = Ok y -> exists x, r = Ok x /\ k x = Ok y.
Proof. destruct r as [x|e']; simpl; [eauto|discriminate]. Qed.

Lemma str_eqb_refl (a : str) : str_eqb a a = true.
Proof.
  induction a as [|x a IH]; simpl; [reflexivity|].
  now rewrite N.eqb_refl, IH.
Qed.

Lemma str_eqb_eq (a b : str) : str_eqb a b = true <-> a = b.
Proof.
  split; [|intros ->; apply str_eqb_refl].
  revert b; induction a as [|x a IH]; intros [|y b]; simpl; try discriminate.
  - reflexivity.
  - intros H. apply andb_true_iff in H as [Hx Hr].
    apply N.eqb_eq in Hx. apply IH in Hr. now subst.
Qed.

Lemma str_eqb_neq (a b : str) : str_eqb a b = false <-> a <> b.
Proof.
  split.
  - intros H E. apply str_eqb_eq in E. congruence.
  - intros H. destruct (str_eqb a b) eqn:E; [|reflexivity].
    apply str_eqb_eq in E. contradiction.
Qed.

Lemma to_N_byte_of_N (n : N) : (n < 256)%N -> Byte.to_N (byte_of_N n) = n.
Proof.
  intros H. unfold byte_of_N.
  destruct (Byte.of_N n) as [b|] eqn:E.
  - now apply Byte.to_of_N.
  - apply Byte.of_N_None_iff in E. lia.
Qed.

Lemma byte_of_N_to_N (b : byte) : byte_of_N (Byte.to_N b) = b.
Proof. unfold byte_of_N. now rewrite Byte.of_to_N. Qed.

(** ** Lists cut and patched by position *)

Lemma index_app_here A (pre post : list A) (x : A) :
  index (pre ++ x :: post) (length pre) = Ok x.
Proof.
  unfold index. rewrite nth_error_app2 by lia.
  now rewrite Nat.sub_diag.
Qed.

Lemma firstn_app_exact A (pre post : list A) :
  firstn (length pre) (pre ++ post) = pre.
Proof.
  rewrite firstn_app, Nat.sub_diag, firstn_all. simpl. apply app_nil_r.
Qed.

Lemma skipn_app_exact A (pre post : list A) :
  skipn (length pre) (pre ++ post) = post.
Proof.
  rewrite skipn_app, Nat.sub_diag, skipn_all. reflexivity.
Qed.

(** Overwriting the run [mid] that follows [pre]. *)
Lemma slice_assign_run A (pre mid post v : list A) j :
  j = length pre + length mid ->
  slice_assign (pre ++ mid ++ post) (length pre) j v = pre ++ v ++ post.
Proof.
  intros ->. unfold slice_assign.
  rewrite firstn_app_exact.
  replace (Nat.max (length pre) (length pre + length mid))
    with (length (pre ++ mid)) by (rewrite length_app; lia).
  now rewrite (app_assoc pre mid post), skipn_app_exact.
Qed.

Lemma length_slice_assign_ge A (l v : list A) i j n :
  n <= i -> n <= length l -> n <= length (slice_assign l i j v).
Proof.
  intros Hi Hl. unfold slice_assign.
  rewrite length_app, length_firstn. lia.
Qed.

Lemma firstn_slice_assign A (l v : list A) i j n :
  n <= i -> n <= length l ->
  firstn n (slice_assign l i j v) = firstn n l.
Proof.
  intros Hi Hl. unfold slice_assign.
  rewrite firstn_app, length_firstn.
  replace (n - Nat.min i (length l)) with 0 by lia.
  rewrite firstn_firstn. simpl. rewrite app_nil_r.
  f_equal. lia.
Qed.

Lemma firstn_slice_assign_from A (l v : list A) i n :
  n <= i -> n <= length l ->
  firstn n (slice_assign_from l i v) = firstn n l.
Proof.
  intros Hi Hl. unfold slice_assign_from.
  rewrite firstn_app, length_firstn.
  replace (n - Nat.min i (length l)) with 0 by lia.
  rewrite firstn_firstn. simpl. rewrite app_nil_r.
  f_equal. lia.
Qed.

(** A slice below [n] only depends on the first [n] elements. *)
Lemma slice_firstn A (l : list A) i j n :
  j <= n -> slice (firstn n l) i j = slice l i j.
Proof.
  intros H. unfold slice.
  rewrite skipn_firstn_comm, firstn_firstn.
  f_equal. lia.
Qed.

(** ** Little-endian integers *)

Lemma int_to_bytes_little_spec (len : nat) (n : N) :
  (n < 256 ^ N.of_nat len)%N ->
  exists bs, int_to_bytes_little len n = Ok bs /\ length bs = len /\
             int_from_bytes_little bs = n.
Proof.
  revert n. induction len as [|len IH]; intros n H.
  - simpl in *. assert (n = 0%N) as -> by lia.
    exists []. repeat split.
  - assert (Hdiv : (n / 256 < 256 ^ N.of_nat len)%N).
    { apply N.Div0.div_lt_upper_bound.
      rewrite Nat2N.inj_succ, N.pow_succ_r' in H. exact H. }
    destruct (IH _ Hdiv) as (bs & E & L & V).
    exists (byte_of_N (n mod 256) :: bs).
    cbn [int_to_bytes_little int_from_bytes_little length].
    rewrite E. cbn [bind]. repeat split.
    + now rewrite L.
    + rewrite V, to_N_byte_of_N by (apply N.mod_lt; lia).
      pose proof (N.div_mod n 256). lia.
Qed.

Lemma int_to_bytes_little_overflow (len : nat) (n : N) :
  (256 ^ N.of_nat len <= n)%N ->
  int_to_bytes_little len n = Raise OverflowError.
Proof.
  revert n. induction len as [|len IH]; intros n H.
  - simpl in *. destruct (N.eqb_spec n 0); [lia|reflexivity].
  - cbn [int_to_bytes_little]. rewrite IH; [reflexivity|].
    rewrite Nat2N.inj_succ, N.pow_succ_r' in H.
    apply N.div_le_lower_bound; lia.
Qed.

End runtime_facts.

(* ================================================================== *)
(** * Facts about dictionaries *)
(* ================================================================== *)

Section dict_facts.

Context {V : Type}.
Implicit Types (d : dict V) (k : str) (v : V).

Lemma get_not_key d k : ~ In k (keys d) -> get d k = None.
Proof.
  induction d as [|[k' v'] d IH]; simpl; [reflexivity|].
  intros H. destruct (str_eqb k k') eqn:E.
  - apply str_eqb_eq in E. subst. tauto.
  - apply IH. tauto.
Qed.

Lemma get_key d k : In k (keys d) -> exists v, get d k = Some v.
Proof.
  induction d as [|[k' v'] d IH]; simpl; [tauto|].
  intros H. destruct (str_eqb k k') eqn:E; [eauto|].
  apply str_eqb_neq in E. destruct H as [H|H]; [congruence|auto].
Qed.

Lemma get_None_not_key d k : get d k = None -> ~ In k (keys d).
Proof.
  intros H Hin. apply get_key in Hin as [v Hv]. congruence.
Qed.

Lemma get_app_r d1 d2 k :
  ~ In k (keys d1) -> get (d1 ++ d2) k = get d2 k.
Proof.
  induction d1 as [|[k' v'] d1 IH]; simpl; [reflexivity|].
  intros H. destruct (str_eqb k k') eqn:E.
  - apply str_eqb_eq in E. subst. tauto.
  - apply IH. tauto.
Qed.

Lemma get_head d k v : get ((k, v) :: d) k = Some v.
Proof. simpl. now rewrite str_eqb_refl. Qed.

Lemma setitem_fresh d k v :
  ~ In k (keys d) -> setitem d k v = d ++ [(k, v)].
Proof.
  induction d as [|[k' v'] d IH]; simpl; [reflexivity|].
  intros H. destruct (str_eqb k k') eqn:E.
  - apply str_eqb_eq in E. subst. tauto.
  - rewrite IH; tauto.
Qed.

Lemma keys_setitem_present d k v :
  In k (keys d) -> keys (setitem d k v) = keys d.
Proof.
  induction d as [|[k' v'] d IH]; simpl; [tauto|].
  intros H. destruct (str_eqb k k') eqn:E; simpl; [reflexivity|].
  apply str_eqb_neq in E. f_equal. apply IH.
  destruct H; [congruence|assumption].
Qed.

Lemma get_setitem_same d k v : get (setitem d k v) k = Some v.
Proof.
  induction d as [|[k' v'] d IH]; simpl.
  - now rewrite str_eqb_refl.
  - destruct (str_eqb k k') eqn:E; simpl; now rewrite E.
Qed.

Lemma get_setitem_other d k k' v :
  k' <> k -> get (setitem d k v) k' = get d k'.
Proof.
  intros Hne. induction d as [|[k0 v0] d IH]; simpl.
  - apply str_eqb_neq in Hne. now rewrite Hne.
  - destruct (str_eqb k k0) eqn:E; simpl.
    + apply str_eqb_eq in E. subst k0.
      apply str_eqb_neq in Hne. now rewrite Hne.
    + now rewrite IH.
Qed.

Lemma NoDup_keys_setitem d k v :
  NoDup (keys d) -> NoDup (keys (setitem d k v)).
Proof.
  intros H. destruct (in_dec (list_eq_dec N.eq_dec) k (keys d)) as [Hin|Hout].
  - now rewrite keys_setitem_present.
  - rewrite setitem_fresh by assumption. unfold keys.
    rewrite map_app. simpl.
    apply NoDup_app; [assumption|repeat constructor; simpl; tauto|].
    intros x Hx [Hx'|[]]. simpl in Hx'. subst. contradiction.
Qed.

Lemma keys_remove d k :
  keys (remove d k) = filter (fun k' => negb (str_eqb k k')) (keys d).
Proof.
  unfold remove, keys.
  induction d as [|[k' v'] d IH]; simpl; [reflexivity|].
  destruct (str_eqb k k'); simpl; now rewrite IH.
Qed.

Lemma NoDup_keys_remove d k : NoDup (keys d) -> NoDup (keys (remove d k)).
Proof. intros H. rewrite keys_remove. now apply NoDup_filter. Qed.

Lemma get_remove_same d k : get (remove d k) k = None.
Proof.
  apply get_not_key. rewrite keys_remove. intros H.
  apply filter_In in H as [_ H].
  now rewrite str_eqb_refl in H.
Qed.

Lemma get_remove_other d k k' : k' <> k -> get (remove d k) k' = get d k'.
Proof.
  intros Hne. unfold remove.
  induction d as [|[k0 v0] d IH]; simpl; [reflexivity|].
  destruct (str_eqb k k0) eqn:E; simpl.
  - apply str_eqb_eq in E. subst k0.
    apply str_eqb_neq in Hne. now rewrite Hne.
  - now rewrite IH.
Qed.

Lemma remove_absent d k : get d k = None -> remove d k = d.
Proof.
  unfold remove.
  induction d as [|[k0 v0] d IH]; simpl; [reflexivity|].
  destruct (str_eqb k k0) eqn:E; [discriminate|].
  intros H. simpl. now rewrite IH.
Qed.

Lemma get_In d k v : NoDup (keys d) -> In (k, v) d -> get d k = Some v.
Proof.
  induction d as [|[k0 v0] d IH]; simpl; [tauto|].
  intros Hnd [H|H].
  - injection H as -> ->. now rewrite str_eqb_refl.
  - inversion Hnd as [|? ? Hout Hnd']; subst.
    destruct (str_eqb k k0) eqn:E.
    + apply str_eqb_eq in E. subst k0. exfalso. apply Hout.
      unfold keys. apply in_map_iff. now exists (k, v).
    + now apply IH.
Qed.

End dict_facts.

(* ================================================================== *)
(** * The codec: what [to_bytes] writes *)
(* ================================================================== *)

Section encoding_facts.

Lemma utf8_encode_char_scalar (c : N) :
  scalar c -> exists bs, utf8_encode_char c = Some bs.
Proof.
  intros H. unfold utf8_encode_char, scalar in *.
  destruct (N.ltb_spec c 0x80); [eauto|].
  destruct (N.ltb_spec c 0x800); [eauto|].
  destruct (N.ltb_spec c 0x10000).
  - destruct (N.leb_spec 0xD800 c); simpl; [|eauto].
    destruct (N.leb_spec c 0xDFFF); simpl; [lia|eauto].
  - destruct (N.ltb_spec c 0x110000); [eauto|lia].
Qed.

Lemma encode_text (s : str) : text s -> exists bs, encode s = Ok bs.
Proof.
  induction 1 as [|c s Hc _ [bs IH]]; simpl; [eauto|].
  destruct (utf8_encode_char_scalar c Hc) as [b ->].
  rewrite IH. simpl. eauto.
Qed.

Lemma encode_ascii (s : str) :
  ascii_text s -> encode s = Ok (map byte_of_N s).
Proof.
  induction 1 as [|c s Hc _ IH]; simpl; [reflexivity|].
  unfold utf8_encode_char.
  destruct (N.ltb_spec c 0x80); [|lia].
  now rewrite IH.
Qed.

Lemma text_app (a b : str) : text a -> text b -> text (a ++ b).
Proof. intros. now apply Forall_app. Qed.

Lemma ascii_is_text (s : str) : ascii_text s -> text s.
Proof.
  apply Forall_impl. intros c H. left. lia.
Qed.

Lemma text_lit_colon : text (lit ":").
Proof. repeat constructor. Qed.

Lemma text_lit_equals : text (lit "=").
Proof. repeat constructor. Qed.

Lemma text_param_of (kv : str * str) :
  text (fst kv) -> text (snd kv) -> text (param_of kv).
Proof.
  intros. unfold param_of.
  apply text_app; [assumption|].
  apply text_app; [apply text_lit_equals|assumption].
Qed.

(** ** [get_params_list] on a dictionary *)

Lemma get_params_list_loop_spec (hs rest : dict str) (acc : list str) :
  NoDup (keys hs) -> incl rest hs ->
  get_params_list_loop hs (keys rest) acc = Ok (acc ++ map param_of rest).
Proof.
  intros Hnd. revert acc.
  induction rest as [|[k v] rest IH]; intros acc Hincl; simpl.
  - now rewrite app_nil_r.
  - unfold getitem. rewrite (get_In hs k v Hnd) by (apply Hincl; now left).
    simpl. rewrite IH by (intros x Hx; apply Hincl; now right).
    now rewrite <- app_assoc.
Qed.

Lemma get_params_list_spec (m : t) :
  NoDup (keys (headers m)) ->
  get_params_list m = Ok (map param_of (headers m)).
Proof.
  intros H. unfold get_params_list.
  now rewrite get_params_list_loop_spec by (assumption || apply incl_refl).
Qed.

(** ** [params_length] *)

Lemma fold_left_params_length (ps : list str) (acc : nat) :
  fold_left (fun acc param => acc + (length param + 1)) ps acc
  = acc + params_length ps.
Proof.
  unfold params_length. revert acc.
  induction ps as [|p ps IH]; intros acc; simpl; [lia|].
  rewrite (IH (acc + _)), (IH (length p + 1)). lia.
Qed.

Lemma params_length_cons (p : str) (ps : list str) :
  params_length (p :: ps) = length p + 1 + params_length ps.
Proof.
  unfold params_length at 1. simpl. apply fold_left_params_length.
Qed.

Lemma length_param_of (kv : str * str) :
  length (param_of kv) = length (fst kv) + length (snd kv) + 1.
Proof.
  unfold param_of. rewrite !length_app. simpl. lia.
Qed.

Lemma header_length_of_params (hs : dict str) :
  6 + 3 + params_length (map param_of hs) = header_length_of hs.
Proof.
  unfold header_length_of.
  induction hs as [|kv hs IH]; [reflexivity|].
  change (map param_of (kv :: hs)) with (param_of kv :: map param_of hs).
  rewrite params_length_cons, length_param_of.
  rewrite map_cons. unfold list_sum in *. simpl fold_right. lia.
Qed.

(** ** The loop that writes the parameters *)

(** Whatever the parameters are, the loop leaves the bytes below its
    starting point alone. *)
Lemma write_params_prefix (n : nat) (ps : list str) (byte_arr : bytes) (i : nat) :
  Forall text ps -> n <= i -> n <= length byte_arr ->
  exists byte_arr' i',
    write_params ps byte_arr i = Ok (byte_arr', i') /\
    firstn n byte_arr' = firstn n byte_arr /\
    n <= length byte_arr' /\ n <= i'.
Proof.
  intros Hps. revert byte_arr i.
  induction Hps as [|p ps Hp _ IH]; intros byte_arr i Hi Hlen;
    cbn [write_params].
  - eauto 6.
  - destruct (encode_text _ (text_app _ _ Hp text_lit_colon)) as [e ->].
    cbn [bind].
    destruct (IH (slice_assign byte_arr i (i + length p + 1) e)
                 (i + length p + 1)) as (arr' & i' & E & F & L & I).
    + lia.
    + now apply length_slice_assign_ge.
    + exists arr', i'. split; [assumption|]. split; [|split; assumption].
      rewrite F. now apply firstn_slice_assign.
Qed.

Lemma length_wire (ps : list str) : length (wire ps) = params_length ps.
Proof.
  induction ps as [|p ps IH]; [reflexivity|].
  rewrite params_length_cons. simpl.
  rewrite !length_app, length_map, IH. simpl. lia.
Qed.

Lemma write_params_ascii (ps : list str) (pre post : bytes) :
  Forall ascii_text ps ->
  write_params ps (pre ++ bytearray (params_length ps) ++ post) (length pre)
  = Ok (pre ++ wire ps ++ post, length pre + params_length ps).
Proof.
  intros Hps. revert pre.
  induction Hps as [|p ps Hp _ IH]; intros pre.
  - unfold params_length, wire, bytearray. simpl. now rewrite Nat.add_0_r.
  - cbn [write_params].
    assert (Hc : ascii_text (p ++ lit ":")).
    { apply Forall_app. split; [assumption|]. repeat constructor. }
    rewrite (encode_ascii _ Hc). cbn [bind].
    rewrite params_length_cons. unfold bytearray in *.
    rewrite repeat_app, <- app_assoc.
    rewrite slice_assign_run
      by (rewrite repeat_length; lia).
    specialize (IH (pre ++ map byte_of_N (p ++ lit ":"))).
    rewrite <- app_assoc in IH.
    replace (length pre + length p + 1)
      with (length (pre ++ map byte_of_N (p ++ lit ":")))
      by (rewrite !length_app, length_map, length_app; simpl; lia).
    rewrite IH. f_equal. f_equal.
    + cbn [wire flat_map]. rewrite map_app, <- !app_assoc. reflexivity.
    + rewrite !length_app, length_map, length_app. simpl. lia.
Qed.

End encoding_facts.

(* ================================================================== *)
(** * The codec: the frame header *)
(* ================================================================== *)

Section frame_facts.

Lemma direction_length (s : str) : is_direction s -> length s = 3.
Proof. intros [-> | ->]; reflexivity. Qed.

Lemma direction_ascii (s : str) : is_direction s -> ascii_text s.
Proof. intros [-> | ->]; repeat constructor. Qed.

(** The array after the four fixed assignments of [to_bytes]. *)
Lemma frame_start (tag len4 : bytes) (n : nat) :
  length tag = 3 -> length len4 = 4 ->
  slice_assign
    (slice_assign
       (slice_assign
          (slice_assign (bytearray (9 + n)) 0 3 tag)
          3 4 [byte_of_N colon])
       4 8 len4)
    8 9 [byte_of_N colon]
  = (tag ++ [byte_of_N colon] ++ len4 ++ [byte_of_N colon]) ++ bytearray n.
Proof.
  intros Htag Hlen.
  destruct tag as [|t0 [|t1 [|t2 [|]]]]; try discriminate.
  destruct len4 as [|l0 [|l1 [|l2 [|l3 [|]]]]]; try discriminate.
  reflexivity.
Qed.

Lemma header_length_field_start (tag len4 rest : bytes) :
  length tag = 3 -> length len4 = 4 ->
  header_length_field
    ((tag ++ [byte_of_N colon] ++ len4 ++ [byte_of_N colon]) ++ rest)
  = int_from_bytes_little len4.
Proof.
  intros Htag Hlen. unfold header_length_field, slice.
  destruct tag as [|t0 [|t1 [|t2 [|]]]]; try discriminate.
  destruct len4 as [|l0 [|l1 [|l2 [|l3 [|]]]]]; try discriminate.
  reflexivity.
Qed.

End frame_facts.

Section header_length.

Lemma header_length_field_firstn (frame frame' : bytes) :
  firstn 9 frame = firstn 9 frame' ->
  header_length_field frame = header_length_field frame'.
Proof.
  intros H. unfold header_length_field.
  rewrite <- (slice_firstn _ frame 4 8 9) by lia.
  rewrite <- (slice_firstn _ frame' 4 8 9) by lia.
  now rewrite H.
Qed.

Lemma text_params (hs : dict str) :
  Forall (fun kv => text (fst kv) /\ text (snd kv)) hs ->
  Forall text (map param_of hs).
Proof.
  intros H. apply Forall_map. revert H. apply Forall_impl.
  intros kv [Hk Hv]. now apply text_param_of.
Qed.

(** C7. For every well-formed message, [to_bytes] returns a frame whose
    little-endian field at offsets 4..7 is 9 plus the sum, over the
    headers, of len(name) + len(value) + 2. *)
Theorem header_length_invariant (m : CommunicationProtocol.t) :
  well_formed m ->
  exists frame,
    to_bytes m = Ok frame /\
    header_length_field frame = N.of_nat (header_length_of (headers m)).
Proof.
  intros (Hdir & Hnd & Htext & Hfit).
  unfold to_bytes.
  rewrite (get_params_list_spec m Hnd). cbn [bind].
  rewrite (direction_length _ Hdir), header_length_of_params.
  rewrite (encode_ascii _ (direction_ascii _ Hdir)). cbn [bind].
  change (encode (lit ":")) with (Ok [byte_of_N colon]). cbn [bind].
  destruct (int_to_bytes_little_spec 4 (N.of_nat (header_length_of (headers m))))
    as (len4 & -> & Hlen & Hval); [exact Hfit|]. cbn [bind].
  set (body_length := match body m with Some b => length b | None => 0 end).
  replace (header_length_of (headers m) + body_length)
    with (9 + (header_length_of (headers m) - 9 + body_length))
    by (unfold header_length_of; lia).
  rewrite frame_start
    by (rewrite ?length_map; auto using direction_length).
  set (start := map byte_of_N (req_res m) ++ [byte_of_N colon] ++ len4
                ++ [byte_of_N colon]).
  assert (Hstart : length start = 9).
  { unfold start. rewrite !length_app, length_map, (direction_length _ Hdir), Hlen.
    reflexivity. }
  destruct (write_params_prefix 9 (map param_of (headers m))
              (start ++ bytearray (header_length_of (headers m) - 9 + body_length))
              9 (text_params _ Htext))
    as (arr & i & -> & Hpre & Harr & Hi).
  { lia. }
  { rewrite length_app. lia. }
  cbn [bind].
  assert (Hfield : header_length_field arr
                   = N.of_nat (header_length_of (headers m))).
  { rewrite (header_length_field_firstn _ _ Hpre).
    unfold start.
    rewrite header_length_field_start
      by (rewrite ?length_map; auto using direction_length).
    exact Hval. }
  destruct (body m) as [b|].
  - eexists. split; [reflexivity|].
    rewrite <- Hfield. apply header_length_field_firstn.
    now apply firstn_slice_assign_from.
  - eexists. split; [reflexivity|exact Hfield].
Qed.

End header_length.

(* ================================================================== *)
(** * The codec: what [from_bytes] reads back *)
(* ================================================================== *)

Section decoding_facts.

Lemma split_no_sep (sep : N) (s : str) : ~ In sep s -> split sep s = [s].
Proof.
  induction s as [|c s IH]; simpl; [reflexivity|].
  intros H. destruct (N.eqb_spec c sep) as [->|_]; [tauto|].
  rewrite IH by tauto. reflexivity.
Qed.

Lemma split_at_sep (sep : N) (k v : str) :
  ~ In sep k -> split sep (k ++ sep :: v) = k :: split sep v.
Proof.
  induction k as [|c k IH]; simpl; intros H.
  - now rewrite N.eqb_refl.
  - destruct (N.eqb_spec c sep) as [->|_]; [tauto|].
    rewrite IH by tauto. reflexivity.
Qed.

Lemma split_param_of (kv : str * str) :
  ~ In equals (fst kv) -> ~ In equals (snd kv) ->
  split equals (param_of kv) = [fst kv; snd kv].
Proof.
  intros Hk Hv. unfold param_of.
  change (lit "=" ++ snd kv) with (equals :: snd kv).
  now rewrite split_at_sep, split_no_sep.
Qed.

Lemma params_list_to_dict_loop_spec (hs acc : dict str) :
  Forall (fun kv => ~ In equals (fst kv) /\ ~ In equals (snd kv)) hs ->
  NoDup (keys (acc ++ hs)) ->
  params_list_to_dict_loop (map param_of hs) acc = Ok (acc ++ hs).
Proof.
  intros Hhs. revert acc.
  induction Hhs as [|[k v] hs [Hk Hv] _ IH]; intros acc Hnd.
  - simpl. now rewrite app_nil_r.
  - cbn [map params_list_to_dict_loop].
    rewrite (split_param_of (k, v) Hk Hv). cbn [bind index nth_error fst snd].
    rewrite setitem_fresh.
    + rewrite IH; rewrite <- app_assoc; [reflexivity|exact Hnd].
    + unfold keys in Hnd. rewrite map_app in Hnd.
      apply NoDup_remove_2 in Hnd. intros Hin. apply Hnd.
      apply in_or_app. now left.
Qed.

Lemma params_list_to_dict_spec (hs : dict str) :
  Forall (fun kv => ~ In equals (fst kv) /\ ~ In equals (snd kv)) hs ->
  NoDup (keys hs) ->
  params_list_to_dict (map param_of hs) = Ok hs.
Proof.
  intros. unfold params_list_to_dict.
  now rewrite params_list_to_dict_loop_spec.
Qed.

(** One parameter and its colon, read by the loop. *)
Lemma from_bytes_loop_param (p cur : str) (pre post : bytes) (n : nat)
      (params : list str) :
  ascii_text p -> ~ In colon p ->
  from_bytes_loop (pre ++ map byte_of_N p ++ byte_of_N colon :: post)
                  (length p + 1 + n) (length pre) params cur
  = from_bytes_loop (pre ++ map byte_of_N p ++ byte_of_N colon :: post)
                    n (length pre + length p + 1) (params ++ [cur ++ p]) [].
Proof.
  intros Hp. revert cur pre.
  induction Hp as [|c p Hc _ IH]; intros cur pre Hnc.
  - cbn [length map app Nat.add from_bytes_loop].
    rewrite index_app_here. cbn [bind].
    rewrite to_N_byte_of_N by (unfold colon; lia).
    rewrite N.eqb_refl, app_nil_r, Nat.add_0_r. reflexivity.
  - cbn [length map app Nat.add from_bytes_loop].
    rewrite index_app_here. cbn [bind].
    rewrite to_N_byte_of_N by lia.
    destruct (N.eqb_spec c colon) as [->|_]; [exfalso; apply Hnc; now left|].
    specialize (IH (cur ++ [c]) (pre ++ [byte_of_N c])).
    rewrite <- !app_assoc in IH. cbn [app] in IH.
    rewrite length_app in IH. cbn [length] in IH.
    rewrite IH by (intros H; apply Hnc; now right).
    f_equal. lia.
Qed.

Lemma from_bytes_loop_wire (ps : list str) (pre post : bytes)
      (params : list str) :
  Forall (fun p => ascii_text p /\ ~ In colon p) ps ->
  from_bytes_loop (pre ++ wire ps ++ post) (params_length ps) (length pre)
                  params []
  = Ok (length pre + params_length ps, params ++ ps).
Proof.
  intros Hps. revert pre params.
  induction Hps as [|p ps [Hp Hnc] _ IH]; intros pre params.
  - cbn. now rewrite Nat.add_0_r, app_nil_r.
  - rewrite params_length_cons. cbn [wire flat_map].
    fold (wire ps). rewrite <- !app_assoc. cbn [app].
    rewrite from_bytes_loop_param by assumption. cbn [app].
    specialize (IH (pre ++ map byte_of_N p ++ [byte_of_N colon]) (params ++ [p])).
    rewrite <- !app_assoc in IH. cbn [app] in IH.
    rewrite !length_app, length_map in IH. cbn [length] in IH.
    rewrite Nat.add_assoc in IH. rewrite IH.
    f_equal. f_equal; lia.
Qed.

Lemma decode_tag (s : str) (rest : bytes) :
  is_direction s -> decode (slice (map byte_of_N s ++ rest) 0 3) = Ok s.
Proof. intros [-> | ->]; reflexivity. Qed.

End decoding_facts.

Section codec_round_trip.

Lemma plain_params (hs : dict str) :
  Forall (fun kv => plain (fst kv) /\ plain (snd kv)) hs ->
  Forall (fun p => ascii_text p /\ ~ In colon p) (map param_of hs).
Proof.
  intros H. apply Forall_map. revert H. apply Forall_impl.
  intros [k v] [[Hk [Hkc _]] [Hv [Hvc _]]]. cbn [fst snd] in *.
  unfold param_of. cbn [fst snd]. split.
  - apply Forall_app. split; [assumption|].
    apply Forall_app. split; [repeat constructor|assumption].
  - intros Hin. apply in_app_or in Hin as [Hin|Hin]; [tauto|].
    apply in_app_or in Hin as [Hin|Hin]; [|tauto].
    destruct Hin as [Hin|[]]. discriminate Hin.
Qed.

(** The frame of a message of plain ASCII headers, byte for byte. *)
Lemma to_bytes_plain (m : CommunicationProtocol.t) (b : bytes) :
  is_direction (req_res m) ->
  NoDup (keys (headers m)) ->
  Forall (fun kv => plain (fst kv) /\ plain (snd kv)) (headers m) ->
  fits_uint32 (header_length_of (headers m)) ->
  body m = Some b ->
  exists len4,
    length len4 = 4 /\
    int_from_bytes_little len4 = N.of_nat (header_length_of (headers m)) /\
    to_bytes m
    = Ok ((map byte_of_N (req_res m) ++ [byte_of_N colon] ++ len4
           ++ [byte_of_N colon])
          ++ wire (map param_of (headers m)) ++ b).
Proof.
  intros Hdir Hnd Hplain Hfit Hbody.
  pose proof (plain_params _ Hplain) as Hps.
  assert (Hascii : Forall ascii_text (map param_of (headers m))).
  { revert Hps. apply Forall_impl. tauto. }
  unfold to_bytes.
  rewrite (get_params_list_spec m Hnd). cbn [bind].
  rewrite (direction_length _ Hdir), header_length_of_params.
  rewrite (encode_ascii _ (direction_ascii _ Hdir)). cbn [bind].
  change (encode (lit ":")) with (Ok [byte_of_N colon]). cbn [bind].
  destruct (int_to_bytes_little_spec 4 (N.of_nat (header_length_of (headers m))))
    as (len4 & -> & Hlen & Hval); [exact Hfit|]. cbn [bind].
  exists len4. split; [exact Hlen|]. split; [exact Hval|].
  rewrite Hbody.
  pose proof (header_length_of_params (headers m)) as HL.
  set (PL := params_length (map param_of (headers m))) in *.
  replace (header_length_of (headers m) + length b)
    with (9 + (PL + length b)) by lia.
  rewrite frame_start
    by (rewrite ?length_map; auto using direction_length).
  set (start := map byte_of_N (req_res m) ++ [byte_of_N colon] ++ len4
                ++ [byte_of_N colon]).
  assert (Hstart : length start = 9).
  { unfold start. rewrite !length_app, length_map, (direction_length _ Hdir), Hlen.
    reflexivity. }
  unfold bytearray at 1. rewrite repeat_app.
  fold (bytearray PL). fold (bytearray (length b)).
  rewrite <- Hstart.
  unfold PL. rewrite (write_params_ascii _ start (bytearray (length b)) Hascii).
  cbn [bind]. f_equal. unfold slice_assign_from.
  rewrite <- length_wire, <- length_app, app_assoc, firstn_app_exact.
  symmetry. apply app_assoc.
Qed.

(** C1, as the code has it. For every request or response whose header
    names and values are ASCII strings without [':'] and ['='], whose
    header section fits the 32-bit length field and whose body is a byte
    sequence, [from_bytes (to_bytes m)] has the direction, the headers
    and the body of [m]. *)
Theorem round_trip (m : CommunicationProtocol.t) (b : bytes) :
  is_direction (req_res m) ->
  NoDup (keys (headers m)) ->
  Forall (fun kv => plain (fst kv) /\ plain (snd kv)) (headers m) ->
  fits_uint32 (header_length_of (headers m)) ->
  body m = Some b ->
  round_trips m.
Proof.
  intros Hdir Hnd Hplain Hfit Hbody.
  destruct (to_bytes_plain m b Hdir Hnd Hplain Hfit Hbody)
    as (len4 & Hlen & Hval & Hframe).
  pose proof (header_length_of_params (headers m)) as HL.
  set (start := map byte_of_N (req_res m) ++ [byte_of_N colon] ++ len4
                ++ [byte_of_N colon]) in *.
  assert (Hstart : length start = 9).
  { unfold start. rewrite !length_app, length_map, (direction_length _ Hdir), Hlen.
    reflexivity. }
  eexists. exists (Build (req_res m) (headers m) (Some b)).
  split; [exact Hframe|].
  split; [|cbn [req_res headers body]; rewrite Hbody; repeat split].
  unfold from_bytes.
  unfold start at 1. rewrite <- app_assoc.
  rewrite (decode_tag _ _ Hdir). cbn [bind].
  replace (negb (str_eqb (req_res m) (lit "req"))
           && negb (str_eqb (req_res m) (lit "res"))) with false
    by (destruct Hdir as [-> | ->]; reflexivity).
  assert (Hfield : header_length_field
                     (start ++ wire (map param_of (headers m)) ++ b)
                   = N.of_nat (header_length_of (headers m))).
  { unfold start. rewrite header_length_field_start
      by (rewrite ?length_map; auto using direction_length).
    exact Hval. }
  unfold header_length_field in Hfield. rewrite Hfield, Nat2N.id.
  replace (header_length_of (headers m) - 9)
    with (params_length (map param_of (headers m))) by lia.
  rewrite <- Hstart.
  rewrite (from_bytes_loop_wire _ start b [] (plain_params _ Hplain)).
  cbn [bind app].
  rewrite params_list_to_dict_spec; [|revert Hplain; apply Forall_impl|assumption].
  - cbn [bind]. do 2 f_equal. unfold slice_from.
    rewrite <- length_wire, <- length_app, app_assoc.
    now rewrite skipn_app_exact.
  - intros kv [[_ [_ Hk]] [_ [_ Hv]]]. tauto.
Qed.

(** A header section too long for the four bytes of the length field
    makes [to_bytes] raise. *)
Lemma to_bytes_overflow (m : CommunicationProtocol.t) :
  is_direction (req_res m) ->
  NoDup (keys (headers m)) ->
  ~ fits_uint32 (header_length_of (headers m)) ->
  to_bytes m = Raise OverflowError.
Proof.
  intros Hdir Hnd Hbig. unfold to_bytes.
  rewrite (get_params_list_spec m Hnd). cbn [bind].
  rewrite (direction_length _ Hdir), header_length_of_params.
  rewrite (encode_ascii _ (direction_ascii _ Hdir)). cbn [bind].
  change (encode (lit ":")) with (Ok [byte_of_N colon]). cbn [bind].
  rewrite int_to_bytes_little_overflow; [reflexivity|].
  unfold fits_uint32 in Hbig. change (256 ^ N.of_nat 4)%N with (2 ^ 32)%N.
  lia.
Qed.

End codec_round_trip.

Section codec_instances.

(** C1 as stated fails: [accent] has no delimiter in its header, yet its
    frame is read back without the header.  [to_bytes] reserves one byte
    per character and [from_bytes] reads one character per byte, whereas
    [encode] gives U+00E9 two bytes; the colon that ends the parameter is
    overwritten by the body. *)
Lemma round_trip_counterexample : delimiter_free accent /\ ~ round_trips accent.
Proof.
  split.
  - split; [now left|]. split; [repeat constructor; simpl; tauto|].
    split; [|discriminate].
    repeat constructor; cbn; intuition discriminate.
  - intros (frame & m' & Hto & Hfrom & _ & Hheaders & _).
    vm_compute in Hto. injection Hto as <-.
    vm_compute in Hfrom. injection Hfrom as <-.
    discriminate Hheaders.
Qed.

Lemma round_trip_witness :
  (is_direction (req_res ping) /\
   NoDup (keys (headers ping)) /\
   Forall (fun kv => plain (fst kv) /\ plain (snd kv)) (headers ping) /\
   fits_uint32 (header_length_of (headers ping)) /\
   body ping = Some (bytes_lit "hi")) /\
  round_trips ping.
Proof.
  assert (Hdir : is_direction (req_res ping)) by (now left).
  assert (Hnd : NoDup (keys (headers ping))).
  { repeat constructor; simpl; intuition discriminate. }
  assert (Hplain : Forall (fun kv => plain (fst kv) /\ plain (snd kv))
                          (headers ping)).
  { repeat constructor; cbn; intuition discriminate. }
  assert (Hfit : fits_uint32 (header_length_of (headers ping))) by reflexivity.
  split; [repeat split; assumption|].
  exact (round_trip ping (bytes_lit "hi") Hdir Hnd Hplain Hfit eq_refl).
Defined.

Lemma header_length_invariant_witness :
  well_formed ping /\
  exists frame,
    to_bytes ping = Ok frame /\
    header_length_field frame = N.of_nat (header_length_of (headers ping)).
Proof.
  assert (H : well_formed ping).
  { split; [now left|]. split.
    - repeat constructor; simpl; intuition discriminate.
    - split; [|reflexivity].
      repeat constructor; cbn; lia. }
  split; [exact H|]. exact (header_length_invariant ping H).
Defined.

(** C2. [from_bytes] is documented to raise
    [CommunicationProtocolException] on bytes that do not start with
    [req] or [res], and it does not: on [b"xyz"] it goes to its [raise],
    and building the exception raises [TypeError] out of
    [super.__init__(message)]; no [CommunicationProtocolException]
    leaves [from_bytes]. *)
Theorem from_bytes_bad_tag_raises_TypeError :
  from_bytes (bytes_lit "xyz") = Raise TypeError.
Proof. reflexivity. Qed.

(** The frames of [ping] and of [accent], and what [from_bytes] makes of
    bytes that are not UTF-8. *)
Example to_bytes_ping :
  to_bytes ping
  = Ok (bytes_lit "req:" ++ [x30; x00; x00; x00]
        ++ bytes_lit ":Method=ping:Session=*:Content-Length=2:hi").
Proof. reflexivity. Qed.

Example to_bytes_accent :
  to_bytes accent
  = Ok (bytes_lit "req:" ++ [x0d; x00; x00; x00] ++ bytes_lit ":a="
        ++ [xc3; xa9] ++ bytes_lit "hi").
Proof. reflexivity. Qed.

Example from_bytes_not_utf8 :
  from_bytes [xff; xfe; x00] = Raise UnicodeDecodeError.
Proof. reflexivity. Qed.

End codec_instances.

(** ** What [from_bytes] raises on a bad tag *)

Section framing_errors.

(** [decode] raises nothing but [UnicodeDecodeError]. *)
Lemma decode_raises_bounded (n : nat) (b : bytes) (e : exn) :
  length b <= n -> decode b = Raise e -> e = UnicodeDecodeError.
Proof.
  revert b. induction n as [|n IH]; intros b Hlen.
  - destruct b; [discriminate|simpl in Hlen; lia].
  - destruct b as [|b0 r0]; [discriminate|].
    cbn [decode]. cbv zeta.
    repeat match goal with
    | |- (if ?c then _ else _) = _ -> _ => destruct c
    | |- match ?l with [] => _ | _ :: _ => _ end = _ -> _ => destruct l
    | |- Raise _ = Raise _ -> _ => intros [= <-]; reflexivity
    | |- bind (decode ?r) _ = Raise _ -> _ =>
        let H := fresh in
        intros H; apply bind_Raise_inv in H as [H|(x & _ & H)];
        [apply (IH r); [simpl in Hlen |- *; lia|exact H]|discriminate H]
    end.
Qed.



Lemma in_range_true (lo hi n : N) :
  in_range lo hi n = true -> (lo <= n /\ n <= hi)%N.
Proof.
  unfold in_range. intros H. apply andb_true_iff in H as [H1 H2].
  apply N.leb_le in H1, H2. now split.
Qed.

(** An ASCII string comes from its own bytes only. *)
Lemma decode_ascii_inv_bounded (n : nat) (b : bytes) (s : str) :
  length b <= n -> decode b = Ok s -> ascii_text s -> b = map byte_of_N s.
Proof.
  revert b s. induction n as [|n IH]; intros b s Hlen.
  - destruct b; [|simpl in Hlen; lia]. now intros [= <-].
  - destruct b as [|b0 r0]; [now intros [= <-]|].
    cbn [decode]. cbv zeta.
    destruct (Byte.to_N b0 <? 0x80)%N eqn:E0.
    { intros H Hs. apply bind_Ok_inv in H as (s' & Hd & [= <-]).
      inversion Hs; subst. cbn [map].
      rewrite byte_of_N_to_N. f_equal.
      apply IH; [simpl in Hlen; lia|assumption|assumption]. }
    destruct (in_range 0xC2 0xDF (Byte.to_N b0)) eqn:E1.
    { apply in_range_true in E1.
      destruct r0 as [|b1 r1]; [discriminate|].
      destruct (is_cont (Byte.to_N b1)) eqn:C1; [|discriminate].
      apply in_range_true in C1.
      intros H Hs. apply bind_Ok_inv in H as (s' & _ & [= <-]).
      inversion Hs as [|? ? Hc _]; subst. lia. }
    destruct (in_range 0xE0 0xEF (Byte.to_N b0)) eqn:E2.
    { apply in_range_true in E2.
      destruct r0 as [|b1 [|b2 r2]]; try discriminate.
      destruct (in_range _ _ (Byte.to_N b1)) eqn:C1; [|discriminate].
      destruct (is_cont (Byte.to_N b2)) eqn:C2; [|discriminate].
      apply in_range_true in C1, C2. cbn [andb].
      intros H Hs. apply bind_Ok_inv in H as (s' & _ & [= <-]).
      inversion Hs as [|? ? Hc _]; subst.
      destruct (N.eqb_spec (Byte.to_N b0) 0xE0) as [E|E];
        [rewrite E in *|]; lia. }
    destruct (in_range 0xF0 0xF4 (Byte.to_N b0)) eqn:E3; [|discriminate].
    apply in_range_true in E3.
    destruct r0 as [|b1 [|b2 [|b3 r3]]]; try discriminate.
    destruct (in_range _ _ (Byte.to_N b1)) eqn:C1; [|discriminate].
    destruct (is_cont (Byte.to_N b2)) eqn:C2; [|discriminate].
    destruct (is_cont (Byte.to_N b3)) eqn:C3; [|discriminate].
    apply in_range_true in C1, C2, C3. cbn [andb].
    intros H Hs. apply bind_Ok_inv in H as (s' & _ & [= <-]).
    inversion Hs as [|? ? Hc _]; subst.
    destruct (N.eqb_spec (Byte.to_N b0) 0xF0) as [E|E];
      [rewrite E in *|]; lia.
Qed.

(** On bytes that do not start with [req] or [res], [from_bytes] raises
    [TypeError], or [UnicodeDecodeError] when the three bytes are not
    UTF-8: never the exception of the protocol. *)
Lemma from_bytes_bad_tag (byte_arr : bytes) :
  slice byte_arr 0 3 <> bytes_lit "req" ->
  slice byte_arr 0 3 <> bytes_lit "res" ->
  from_bytes byte_arr = Raise TypeError \/
  from_bytes byte_arr = Raise UnicodeDecodeError.
Proof.
  intros Hreq Hres. unfold from_bytes.
  destruct (decode (slice byte_arr 0 3)) as [s|e] eqn:Hd; cbn [bind].
  - destruct (str_eqb s (lit "req")) eqn:E1.
    { apply str_eqb_eq in E1. subst s. exfalso. apply Hreq.
      apply (decode_ascii_inv_bounded (length (slice byte_arr 0 3)) _ _
               (le_n _) Hd).
      repeat constructor. }
    destruct (str_eqb s (lit "res")) eqn:E2.
    { apply str_eqb_eq in E2. subst s. exfalso. apply Hres.
      apply (decode_ascii_inv_bounded (length (slice byte_arr 0 3)) _ _
               (le_n _) Hd).
      repeat constructor. }
    now left.
  - right. f_equal.
    exact (decode_raises_bounded (length (slice byte_arr 0 3)) _ e (le_n _) Hd).
Qed.

End framing_errors.

(* ================================================================== *)
(** * The connection pipeline *)
(* ================================================================== *)

Section pipeline.

(** When the receive step raises, [handle_client] ends there. *)
Lemma handle_client_receive_raises (self : Server.t) (fd : nat) (a : address)
      (w w1 : World) (e : exn) :
  Server.receive_message self fd a w = Some (Raise e, w1) ->
  Server.handle_client self fd a w = Some (Raise e, w1).
Proof. intros H. unfold Server.handle_client, bindM. now rewrite H. Qed.

(** When a handler raises, [handle_client] ends there. *)
Lemma handle_client_handler_raises (self : Server.t) (fd : nat) (a : address)
      (w w1 w2 : World) (message : value) (e : exn) :
  Server.receive_message self fd a w = Some (Ok message, w1) ->
  Server.run_handlers (Server.handlers self) fd a message w1
  = Some (Raise e, w2) ->
  Server.handle_client self fd a w = Some (Raise e, w2).
Proof.
  intros H1 H2. unfold Server.handle_client, bindM.
  rewrite H1. now rewrite H2.
Qed.

(** C3, as the code has it. When the receive step and every handler of
    the pipeline return, [handle_client] ends with [close_client], run
    on the state the last handler left; with the default [close_client]
    the socket is closed when [handle_client] returns. *)
Theorem handle_client_closes_on_return (self : Server.t) (fd : nat)
        (a : address) (w w1 w2 : World) (message last : value) :
  Server.receive_message self fd a w = Some (Ok message, w1) ->
  Server.run_handlers (Server.handlers self) fd a message w1
  = Some (Ok last, w2) ->
  Server.handle_client self fd a w = Server.close_client self fd a w2 /\
  (Server.close_client self = Server.default_close_client ->
   connection_released self fd a w).
Proof.
  intros H1 H2.
  assert (E : Server.handle_client self fd a w
              = Server.close_client self fd a w2).
  { unfold Server.handle_client, bindM.
    rewrite H1. now rewrite H2. }
  split; [exact E|].
  intros Hdefault. unfold connection_released.
  rewrite E, Hdefault. unfold Server.default_close_client, sock.close.
  do 2 eexists. split; [reflexivity|].
  cbn. now rewrite Nat.eqb_refl.
Qed.

End pipeline.

Section pipeline_instances.

(** C3 as stated fails: the peer sends [b"xyz"], the handler raises, and
    [handle_client] is over with the socket still open. *)
Lemma handle_client_counterexample :
  ~ connection_released parsing_server 0 peer (arrive world0 0 (bytes_lit "xyz")).
Proof.
  intros (r & w' & H & Hclosed).
  vm_compute in H. injection H as <- <-.
  discriminate Hclosed.
Qed.

Lemma handle_client_closes_on_return_witness :
  connection_released parsing_server 0 peer
    (arrive world0 0 (bytes_lit "req:" ++ [x09; x00; x00; x00] ++ bytes_lit ":")).
Proof.
  refine (proj2 (handle_client_closes_on_return parsing_server 0 peer
                   _ _ _ _ _ _ _) eq_refl);
    vm_compute; reflexivity.
Defined.

End pipeline_instances.

(* ================================================================== *)
(** * The session store: closing a session *)
(* ================================================================== *)

Section closing.

Variable self : SessionServer.t.

Lemma close_session_present (token : str) (w : World) (s : Session.t) :
  SessionServer.get_session self token w = Some s ->
  SessionServer.close_session self token w
  = Some (Ok tt, set_sessions w (remove (sessions w) token)).
Proof.
  unfold SessionServer.get_session, SessionServer.close_session, pop.
  now intros ->.
Qed.

Lemma close_session_absent (token : str) (w : World) :
  SessionServer.get_session self token w = None ->
  SessionServer.close_session self token w = Some (Raise KeyError, w).
Proof.
  unfold SessionServer.get_session, SessionServer.close_session, pop.
  now intros ->.
Qed.

(** Whatever [close_session] does, the token is not in the store
    afterwards. *)
Lemma close_session_forgets (token : str) (w w' : World) (r : result unit) :
  SessionServer.close_session self token w = Some (r, w') ->
  SessionServer.get_session self token w' = None.
Proof.
  destruct (SessionServer.get_session self token w) as [s|] eqn:E.
  - rewrite (close_session_present _ _ _ E). intros H. injection H as <- <-.
    apply get_remove_same.
  - rewrite (close_session_absent _ _ E). intros H. injection H as <- <-.
    exact E.
Qed.

(** C4, as the code has it. [close_session] removes the entry of a token
    that is in the store and leaves the other entries as they are; on a
    token that is not in the store it raises [KeyError] and leaves the
    store unchanged, so the second of two calls for a token raises. *)
Theorem close_session_removes_or_raises (token : str) (w : World) :
  (forall s, SessionServer.get_session self token w = Some s ->
     exists w',
       SessionServer.close_session self token w = Some (Ok tt, w') /\
       SessionServer.get_session self token w' = None /\
       (forall t, t <> token ->
          SessionServer.get_session self t w'
          = SessionServer.get_session self t w) /\
       SessionServer.close_session self token w' = Some (Raise KeyError, w')) /\
  (SessionServer.get_session self token w = None ->
   SessionServer.close_session self token w = Some (Raise KeyError, w)).
Proof.
  split; [|apply close_session_absent].
  intros s Hs. eexists. split; [exact (close_session_present _ _ _ Hs)|].
  assert (Hgone : SessionServer.get_session self token
                    (set_sessions w (remove (sessions w) token)) = None)
    by apply get_remove_same.
  split; [exact Hgone|]. split.
  - intros t Ht. now apply get_remove_other.
  - now apply close_session_absent.
Qed.

End closing.

Section closing_instances.

(** C4 as stated fails: closing a token that is not in the store raises
    [KeyError], and so does closing [abcdefgh] a second time. *)
Lemma close_session_counterexample :
  SessionServer.close_session store8 (lit "K7") world0
  = Some (Raise KeyError, world0) /\
  exists w',
    SessionServer.close_session store8 (lit "abcdefgh") one_session
    = Some (Ok tt, w') /\
    SessionServer.close_session store8 (lit "abcdefgh") w'
    = Some (Raise KeyError, w').
Proof.
  split; [reflexivity|].
  eexists. split; vm_compute; reflexivity.
Qed.

Lemma close_session_removes_or_raises_witness :
  (exists s, SessionServer.get_session store8 (lit "abcdefgh") one_session
             = Some s) /\
  exists w',
    SessionServer.close_session store8 (lit "abcdefgh") one_session
    = Some (Ok tt, w') /\
    SessionServer.get_session store8 (lit "abcdefgh") w' = None.
Proof.
  split; [eexists; vm_compute; reflexivity|].
  destruct (proj1 (close_session_removes_or_raises store8 (lit "abcdefgh")
                     one_session)
                  (Session.__init__ 0) eq_refl)
    as (w' & H1 & H2 & _).
  exists w'. split; assumption.
Defined.

End closing_instances.

(* ================================================================== *)
(** * The dispatcher: session directives *)
(* ================================================================== *)

Section directives.

Variable self : CommunicationProtocolServer.t.
Variables (fd : nat) (a : address).

(** C10. For a request whose [Session] header is anything but ["*"]
    (missing included), [session_generator] returns the request as it is
    and leaves the process, its session map in particular, as it was. *)
Theorem session_generator_leaves_other_directives (fuel : nat)
        (req : CommunicationProtocol.t) (w : World) :
  get_header_value req (lit "Session") <> Some (lit "*") ->
  CommunicationProtocolServer.session_generator fuel self fd a req w
  = Some (Ok req, w).
Proof.
  intros H. unfold CommunicationProtocolServer.session_generator.
  destruct (get_header_value req (lit "Session")) as [v|]; [|reflexivity].
  destruct (str_eqb v (lit "*")) eqn:E; [|reflexivity].
  apply str_eqb_eq in E. subst. contradiction.
Qed.

(** C9. For a request with no [Session] header, or with an empty one,
    [method_handler] raises on [session_token[0]] ([TypeError] on
    [None], [IndexError] on the empty string) and leaves the process as
    it was:
    whatever the registry holds, no method function has run and nothing
    was sent. *)
Theorem method_handler_needs_directive (req : CommunicationProtocol.t)
        (w : World) :
  (get_header_value req (lit "Session") = None ->
   CommunicationProtocolServer.method_handler self fd a req w
   = Some (Raise TypeError, w)) /\
  (get_header_value req (lit "Session") = Some empty_str ->
   CommunicationProtocolServer.method_handler self fd a req w
   = Some (Raise IndexError, w)).
Proof.
  unfold CommunicationProtocolServer.method_handler.
  split; intros ->; reflexivity.
Qed.

End directives.

(* ================================================================== *)
(** * The session store: tokens *)
(* ================================================================== *)

Section tokens.

Variable self : SessionServer.t.

Lemma length_characters : length SessionServer.characters = 62.
Proof. reflexivity. Qed.

Lemma randint_spec (lo hi : nat) (w : World) :
  exists r,
    SessionServer.randint lo hi w = Some (Ok r, set_drawn w (S (drawn w))) /\
    lo <= r /\ r <= lo + (hi - lo).
Proof.
  unfold SessionServer.randint. eexists. split; [reflexivity|].
  pose proof (Nat.mod_upper_bound (entropy w (drawn w)) (hi - lo + 1)).
  lia.
Qed.

Lemma draw_token_spec (n : nat) (token : str) (w : World) :
  exists token' w',
    SessionServer.draw_token n token w = Some (Ok token', w') /\
    sessions w' = sessions w /\
    length token' = length token + n /\
    (alphanumeric token -> alphanumeric token').
Proof.
  revert token w. induction n as [|n IH]; intros token w.
  - exists token, w. cbn. repeat split; auto.
  - cbn [SessionServer.draw_token]. unfold bindM at 1.
    destruct (randint_spec 0 (length SessionServer.characters - 1) w)
      as (r & -> & _ & Hr).
    rewrite length_characters in Hr.
    unfold bindM at 1, lift, index.
    destruct (nth_error SessionServer.characters r) as [c|] eqn:Hc.
    + destruct (IH (token ++ [c]) (set_drawn w (S (drawn w))))
        as (token' & w' & -> & Hs & Hl & Ha).
      exists token', w'. split; [reflexivity|]. split; [exact Hs|]. split.
      * rewrite Hl, length_app. simpl. lia.
      * intros Htoken. apply Ha. apply Forall_app. split; [assumption|].
        constructor; [|constructor]. eapply nth_error_In. exact Hc.
    + apply nth_error_None in Hc. rewrite length_characters in Hc. lia.
Qed.

(** What the loop of [generate_session_token] returns, when it
    returns. *)
Lemma generate_session_token_loop_spec (fuel : nat) (len : Z) (token : str)
      (w w' : World) (r : result (list N)) :
  token = [] \/ (length token = Z.to_nat len /\ alphanumeric token) ->
  SessionServer.generate_session_token_loop fuel len token w = Some (r, w') ->
  exists tok,
    r = Ok tok /\ sessions w' = sessions w /\
    tok <> [] /\ get (sessions w) tok = None /\
    length tok = Z.to_nat len /\ alphanumeric tok.
Proof.
  revert token w. induction fuel as [|fuel IH]; intros token w Htoken;
    cbn [SessionServer.generate_session_token_loop];
    destruct (contains (sessions w) token || str_eqb token empty_str) eqn:Hc;
    try discriminate.
  - intros H. injection H as <- <-.
    apply orb_false_iff in Hc as [Hin Hne].
    apply str_eqb_neq in Hne.
    destruct Htoken as [->|[Hl Ha]]; [contradiction|].
    exists token. repeat split; auto.
    unfold contains in Hin. now destruct (get (sessions w) token).
  - unfold bindM.
    destruct (draw_token_spec (Z.to_nat len) empty_str w)
      as (token' & w1 & -> & Hs & Hl & Ha).
    intros H. apply IH in H.
    + destruct H as (tok & -> & Hs' & Hne & Hget & Htl & Hta).
      exists tok. rewrite Hs in *. repeat split; auto.
    + right. split; [exact Hl|]. apply Ha. constructor.
  - intros H. injection H as <- <-.
    apply orb_false_iff in Hc as [Hin Hne].
    apply str_eqb_neq in Hne.
    destruct Htoken as [->|[Hl Ha]]; [contradiction|].
    exists token. repeat split; auto.
    unfold contains in Hin. now destruct (get (sessions w) token).
Qed.

(** What [create_session] returns, when it returns. *)
Lemma create_session_spec (fuel : nat) (w w' : World) (r : result (list N)) :
  SessionServer.create_session fuel self w = Some (r, w') ->
  exists token s,
    r = Ok token /\
    sessions w' = sessions w ++ [(token, s)] /\
    token <> [] /\ get (sessions w) token = None /\
    length token = Z.to_nat (SessionServer.session_token_length self) /\
    alphanumeric token.
Proof.
  unfold SessionServer.create_session, SessionServer.generate_session_token.
  unfold bindM.
  destruct (SessionServer.generate_session_token_loop fuel
              (SessionServer.session_token_length self) empty_str w)
    as [[r1 w1]|] eqn:E; [|discriminate].
  apply generate_session_token_loop_spec in E; [|now left].
  destruct E as (tok & -> & Hs & Hne & Hget & Hl & Ha).
  intros H. injection H as <- <-.
  exists tok, (Session.__init__ (clock w1)).
  cbn [sessions set_sessions]. rewrite Hs.
  rewrite setitem_fresh by (now apply get_None_not_key).
  repeat split; auto.
Qed.

(** With a length that is not positive every draw is the empty string,
    and the loop goes on for ever. *)
Lemma generate_session_token_diverges (fuel : nat) (len : Z) (w : World) :
  (len <= 0)%Z ->
  SessionServer.generate_session_token fuel self len w = None.
Proof.
  intros Hlen. unfold SessionServer.generate_session_token.
  assert (H : forall fuel w,
             SessionServer.generate_session_token_loop fuel len empty_str w
             = None).
  { clear fuel w. induction fuel as [|fuel IH]; intros w;
      cbn [SessionServer.generate_session_token_loop];
      change (str_eqb empty_str empty_str) with true; rewrite orb_true_r;
      [reflexivity|].
    replace (Z.to_nat len) with 0 by lia.
    cbn [SessionServer.draw_token]. unfold bindM, ret. apply IH. }
  apply H.
Qed.

(** With a positive length and an empty store, the first draw is the
    token. *)
Lemma create_session_returns (w : World) :
  (0 < SessionServer.session_token_length self)%Z ->
  sessions w = [] ->
  exists token w', SessionServer.create_session 1 self w = Some (Ok token, w').
Proof.
  intros Hlen Hempty.
  unfold SessionServer.create_session, SessionServer.generate_session_token.
  cbn [SessionServer.generate_session_token_loop].
  unfold bindM at 1. cbv beta.
  change (str_eqb empty_str empty_str) with true. rewrite orb_true_r.
  unfold bindM at 1.
  destruct (draw_token_spec
              (Z.to_nat (SessionServer.session_token_length self)) empty_str w)
    as (token' & w1 & -> & Hs & Hl & _).
  rewrite Hs, Hempty.
  destruct token' as [|c token'].
  - simpl in Hl. lia.
  - cbn. eauto.
Qed.

End tokens.

(* ================================================================== *)
(** * The session store: the cleanup thread *)
(* ================================================================== *)

Section cleanup_facts.

Variable self : SessionServer.t.

Lemma store_ok_append (w : World) (token : str) (s : Session.t) (d : dict Session.t) :
  store_ok w -> get (sessions w) token = None ->
  d = sessions w ++ [(token, s)] -> NoDup (keys d).
Proof.
  intros Hok Hget ->.
  rewrite <- (setitem_fresh (sessions w) token s (get_None_not_key _ _ Hget)).
  now apply NoDup_keys_setitem.
Qed.

Lemma run_op_ok (o : op) (w : World) : store_ok w -> store_ok (run_op self o w).
Proof.
  intros Hok. destruct o as [fuel|token|token key v|dt]; cbn [run_op].
  - destruct (SessionServer.create_session fuel self w) as [[r w']|] eqn:E;
      [|exact Hok].
    apply create_session_spec in E as (tok & s & _ & Hs & _ & Hget & _).
    exact (store_ok_append _ _ _ _ Hok Hget Hs).
  - destruct (SessionServer.get_session self token w) as [s|] eqn:E.
    + rewrite (close_session_present self _ _ _ E).
      now apply NoDup_keys_remove.
    + now rewrite (close_session_absent self _ _ E).
  - destruct (SessionServer.get_session self token w) as [s|]; [|exact Hok].
    now apply NoDup_keys_setitem.
  - exact Hok.
Qed.

Lemma interleave_ok (sched : nat -> list op) (pc : nat) (w : World) :
  store_ok w -> store_ok (interleave self sched pc w).
Proof.
  unfold interleave. revert w.
  induction (sched pc) as [|o os IH]; intros w Hok; [exact Hok|].
  simpl. apply IH. now apply run_op_ok.
Qed.

Section any_schedule.

Variable env : SessionServer.schedule.
Hypothesis env_ok : forall pc w, store_ok w -> store_ok (env pc w).

Lemma scan_ok (size0 k i pc : nat) (acc : list str) (w : World) :
  store_ok w ->
  store_ok (snd (fst (SessionServer.scan env self size0 k i pc acc w))).
Proof.
  revert i pc acc w. induction k as [|k IH]; intros i pc acc w Hok;
    cbn [SessionServer.scan];
    destruct (negb (length (sessions (env pc w)) =? size0));
    try (now apply env_ok).
  destruct (nth_error (sessions (env pc w)) i) as [[token session]|];
    [|now apply env_ok].
  apply IH. now apply env_ok.
Qed.

Lemma remove_expired_ok (toks : list str) (pc : nat) (w : World) :
  store_ok w ->
  store_ok (snd (fst (SessionServer.remove_expired env toks pc w))).
Proof.
  revert pc w. induction toks as [|token toks IH]; intros pc w Hok;
    cbn [SessionServer.remove_expired]; [exact Hok|].
  unfold pop. cbn [sessions print].
  destruct (get (sessions (env pc w)) token) as [s|].
  - apply IH. unfold store_ok. cbn [sessions set_sessions].
    apply NoDup_keys_remove. now apply env_ok.
  - cbn. now apply env_ok.
Qed.

Lemma sweep_ok (pc : nat) (w : World) :
  store_ok w -> store_ok (snd (fst (SessionServer.sweep env self pc w))).
Proof.
  intros Hok. unfold SessionServer.sweep.
  pose proof (scan_ok (length (sessions w)) (length (sessions w)) 0 pc [] w Hok)
    as Hscan.
  destruct (SessionServer.scan env self (length (sessions w))
              (length (sessions w)) 0 pc [] w) as [[r w1] pc1].
  cbn [fst snd] in Hscan.
  destruct r as [toks|e].
  - pose proof (remove_expired_ok toks pc1 w1 Hscan) as Hrem.
    destruct (SessionServer.remove_expired env toks pc1 w1) as [[r2 w2] pc2].
    cbn [fst snd] in Hrem.
    destruct r2 as [u|e]; [|exact Hrem].
    unfold SessionServer.sleep. cbn [fst snd]. now apply env_ok.
  - destruct e; exact Hscan.
Qed.

Lemma remove_sessions_ok (n pc : nat) (w : World) :
  store_ok w ->
  store_ok (snd (fst (SessionServer.remove_sessions env self n pc w))).
Proof.
  revert pc w. induction n as [|n IH]; intros pc w Hok;
    cbn [SessionServer.remove_sessions]; [exact Hok|].
  pose proof (sweep_ok pc w Hok) as Hsweep.
  destruct (SessionServer.sweep env self pc w) as [[o w1] pc1].
  cbn [fst snd] in Hsweep.
  destruct o; [now apply IH|exact Hsweep|exact Hsweep].
Qed.

End any_schedule.

(** Every state of the session server holds a dictionary. *)
Lemma reachable_ok (w : World) : reachable self w -> store_ok w.
Proof.
  induction 1 as [w Hempty|w o _ IH|w sched n pc _ IH].
  - unfold store_ok. rewrite Hempty. constructor.
  - now apply run_op_ok.
  - apply remove_sessions_ok; [|exact IH].
    intros pc' w'. apply interleave_ok.
Qed.

(** C6. In every state of the session server no two sessions share a
    token, and every token [create_session] returns is a non-empty
    string of the configured length, made of letters and digits only,
    that was not the token of a session when it was made and is the
    token of one afterwards. *)
Theorem session_tokens_unique (w : World) :
  reachable self w ->
  NoDup (keys (sessions w)) /\
  forall fuel token w',
    SessionServer.create_session fuel self w = Some (Ok token, w') ->
    token <> empty_str /\
    length token = Z.to_nat (SessionServer.session_token_length self) /\
    alphanumeric token /\
    SessionServer.get_session self token w = None /\
    (exists s, SessionServer.get_session self token w' = Some s) /\
    NoDup (keys (sessions w')).
Proof.
  intros Hreach. pose proof (reachable_ok w Hreach) as Hok.
  split; [exact Hok|].
  intros fuel token w' Hcreate.
  pose proof (reach_op self w (Create fuel) Hreach) as Hreach'.
  cbn [run_op] in Hreach'. rewrite Hcreate in Hreach'.
  apply create_session_spec in Hcreate
    as (tok & s & Heq & Hs & Hne & Hget & Hlen & Hal).
  injection Heq as <-.
  repeat split; auto.
  - exists s. unfold SessionServer.get_session. rewrite Hs.
    rewrite get_app_r by (now apply get_None_not_key).
    apply get_head.
  - exact (reachable_ok _ Hreach').
Qed.

End cleanup_facts.

Section undisturbed_cleanup.

Variable self : SessionServer.t.
Variable env : SessionServer.schedule.
Hypothesis env_quiet : quiet env.

Lemma skipn_nth_error A (l : list A) (i : nat) (x : A) :
  nth_error l i = Some x -> skipn i l = x :: skipn (S i) l.
Proof.
  revert i. induction l as [|y l IH]; intros [|i]; simpl; try discriminate.
  - now intros [= ->].
  - intros H. now rewrite (IH i H).
Qed.

(** Undisturbed, the scan ends without an error, on tokens of the store,
    each collected once. *)
Lemma scan_quiet (size0 k i pc : nat) (acc : list str) (w : World) :
  length (sessions w) = size0 -> i + k = size0 ->
  NoDup (acc ++ skipn i (keys (sessions w))) ->
  exists toks w' pc',
    SessionServer.scan env self size0 k i pc acc w = (Ok toks, w', pc') /\
    sessions w' = sessions w /\
    NoDup toks /\
    incl toks (acc ++ skipn i (keys (sessions w))).
Proof.
  revert i pc acc w. induction k as [|k IH]; intros i pc acc w Hsize Hik Hnd;
    cbn [SessionServer.scan]; rewrite (env_quiet pc w), Hsize, Nat.eqb_refl;
    cbn [negb].
  - exists acc, (env pc w), (S pc). split; [reflexivity|].
    split; [apply env_quiet|]. split.
    + now apply NoDup_app_remove_r in Hnd.
    + now apply incl_appl.
  - destruct (nth_error (sessions w) i) as [[token session]|] eqn:Hnth.
    + assert (Hkeys : skipn i (keys (sessions w))
                      = token :: skipn (S i) (keys (sessions w))).
      { apply skipn_nth_error. unfold keys.
        now rewrite nth_error_map, Hnth. }
      rewrite Hkeys in *.
      set (acc' := if (Session.seconds_alive session (clock (env pc w))
                       >? SessionServer.microseconds
                            (SessionServer.session_ttl self))%Z
                   then acc ++ [token] else acc).
      destruct (IH (S i) (S pc) acc' (env pc w)) as (toks & w' & pc' & E & Hs & Hn & Hi).
      * now rewrite env_quiet.
      * lia.
      * rewrite env_quiet. unfold acc'.
        destruct (_ >? _)%Z.
        -- now rewrite <- app_assoc.
        -- now apply NoDup_remove_1 in Hnd.
      * exists toks, w', pc'. split; [exact E|].
        rewrite env_quiet in Hs, Hi. split; [exact Hs|]. split; [exact Hn|].
        intros t Ht. apply Hi in Ht. unfold acc' in Ht.
        apply in_app_or in Ht as [Ht|Ht].
        -- destruct (_ >? _)%Z.
           ++ apply in_app_or in Ht as [Ht|[<-|[]]];
                apply in_or_app; [now left|right; now left].
           ++ apply in_or_app. now left.
        -- apply in_or_app. right. now right.
    + apply nth_error_None in Hnth. lia.
Qed.

(** Undisturbed, every collected token is removed. *)
Lemma remove_expired_quiet (toks : list str) (pc : nat) (w : World) :
  NoDup toks -> incl toks (keys (sessions w)) ->
  exists w' pc',
    SessionServer.remove_expired env toks pc w = (Ok tt, w', pc').
Proof.
  revert pc w. induction toks as [|token toks IH]; intros pc w Hnd Hincl;
    cbn [SessionServer.remove_expired]; [eauto|].
  unfold pop. cbn [sessions print]. rewrite env_quiet.
  destruct (get_key (sessions w) token (Hincl token (or_introl eq_refl)))
    as [s ->].
  apply IH.
  - now inversion Hnd.
  - intros t Ht. cbn [sessions set_sessions].
    rewrite keys_remove. apply filter_In. split.
    + apply Hincl. now right.
    + apply negb_true_iff, str_eqb_neq. intros <-.
      inversion Hnd. contradiction.
Qed.

Lemma sweep_quiet (pc : nat) (w : World) :
  store_ok w ->
  exists w' pc', SessionServer.sweep env self pc w
                 = (SessionServer.Looping, w', pc').
Proof.
  intros Hok. unfold SessionServer.sweep.
  destruct (scan_quiet (length (sessions w)) (length (sessions w)) 0 pc [] w
              eq_refl eq_refl Hok)
    as (toks & w1 & pc1 & -> & Hs & Hnd & Hincl).
  cbn [app skipn] in Hincl. rewrite <- Hs in Hincl.
  destruct (remove_expired_quiet toks pc1 w1 Hnd Hincl) as (w2 & pc2 & ->).
  unfold SessionServer.sleep. eauto.
Qed.

Lemma remove_sessions_quiet (n pc : nat) (w : World) :
  store_ok w ->
  fst (fst (SessionServer.remove_sessions env self n pc w))
  = SessionServer.Looping.
Proof.
  revert pc w. induction n as [|n IH]; intros pc w Hok;
    cbn [SessionServer.remove_sessions]; [reflexivity|].
  pose proof (sweep_ok self env
                (fun pc w H => eq_ind_r (fun d => NoDup (keys d)) H
                                        (env_quiet pc w))
                pc w Hok) as Hok'.
  destruct (sweep_quiet pc w Hok) as (w' & pc' & E).
  rewrite E in *. now apply IH.
Qed.

End undisturbed_cleanup.

Section cleanup_claim.

(** C5, as the code has it. As long as no other thread changes the
    session map, every round of [remove_sessions] runs to its end and
    the thread is still in its loop after any number of rounds; when the
    scan of a round finds that the map changed size, the thread returns
    from [remove_sessions] and there is no later round. *)
Theorem remove_sessions_loops_until_disturbed
        (self : SessionServer.t) (env : SessionServer.schedule)
        (n pc : nat) (w : World) :
  (quiet env -> store_ok w ->
   fst (fst (SessionServer.remove_sessions env self n pc w))
   = SessionServer.Looping) /\
  (fst (fst (SessionServer.scan env self (length (sessions w))
                                (length (sessions w)) 0 pc [] w))
   = Raise RuntimeError ->
   fst (fst (SessionServer.remove_sessions env self (S n) pc w))
   = SessionServer.Returned).
Proof.
  split.
  - intros Hq Hok. now apply remove_sessions_quiet.
  - cbn [SessionServer.remove_sessions]. unfold SessionServer.sweep.
    destruct (SessionServer.scan env self (length (sessions w))
                (length (sessions w)) 0 pc [] w) as [[r w1] pc1].
    cbn [fst]. now intros ->.
Qed.

End cleanup_claim.

Section store_instances.

(** C5 as stated fails: under [busy] the scan raises [RuntimeError] in
    the first round and the thread has returned, whatever the number of
    rounds it was to run; under [racing] it dies of a [KeyError]. *)
Lemma remove_sessions_counterexample :
  fst (fst (SessionServer.remove_sessions busy store8 3 0 one_session))
  = SessionServer.Returned /\
  fst (fst (SessionServer.remove_sessions racing store8 3 0 one_session))
  = SessionServer.Died KeyError.
Proof. split; vm_compute; reflexivity. Qed.

Lemma one_session_ok : store_ok one_session.
Proof.
  unfold store_ok. vm_compute. repeat constructor. simpl. tauto.
Defined.

Lemma remove_sessions_loops_until_disturbed_witness :
  (quiet idle /\ store_ok one_session /\
   fst (fst (SessionServer.remove_sessions idle store8 5 0 one_session))
   = SessionServer.Looping) /\
  fst (fst (SessionServer.remove_sessions busy store8 1 0 one_session))
  = SessionServer.Returned.
Proof.
  assert (Hq : quiet idle) by (intros pc w; reflexivity).
  split.
  - split; [exact Hq|]. split; [exact one_session_ok|].
    exact (proj1 (remove_sessions_loops_until_disturbed store8 idle 5 0
                    one_session) Hq one_session_ok).
  - apply (proj2 (remove_sessions_loops_until_disturbed store8 busy 0 0
                    one_session)).
    vm_compute. reflexivity.
Defined.

Lemma session_tokens_unique_witness :
  reachable store8 one_session /\
  NoDup (keys (sessions one_session)) /\
  exists w',
    SessionServer.create_session 1 store8 one_session
    = Some (Ok (lit "ijklmnop"), w') /\
    length (lit "ijklmnop") = 8 /\
    alphanumeric (lit "ijklmnop") /\
    SessionServer.get_session store8 (lit "ijklmnop") one_session = None /\
    NoDup (keys (sessions w')).
Proof.
  assert (Hreach : reachable store8 one_session).
  { apply (reach_op store8 world0 (Create 1)). now apply reach_start. }
  destruct (session_tokens_unique store8 one_session Hreach) as [Hnd Hnew].
  split; [exact Hreach|]. split; [exact Hnd|].
  pose (w' := match SessionServer.create_session 1 store8 one_session with
              | Some (_, w') => w'
              | None => world0
              end).
  assert (E : SessionServer.create_session 1 store8 one_session
              = Some (Ok (lit "ijklmnop"), w')) by (vm_compute; reflexivity).
  destruct (Hnew 1 (lit "ijklmnop") w' E) as (_ & Hlen & Hal & Hget & _ & Hnd').
  exists w'. split; [exact E|]. split; [exact Hlen|]. split; [exact Hal|].
  split; [exact Hget|exact Hnd'].
Defined.

End store_instances.

(* ================================================================== *)
(** * The dispatcher: from the directive to the response *)
(* ================================================================== *)

Section dispatch.

Variable self : CommunicationProtocolServer.t.
Variables (fd : nat) (a : address).

Lemma characters_no_directive :
  Forall (fun c => c <> tilde /\ c <> 45%N) SessionServer.characters.
Proof. repeat constructor; discriminate. Qed.

(** A token is no directive: it does not start with ['~'] and is not
    ["-"]. *)
Lemma token_no_directive (token : str) :
  token <> [] -> alphanumeric token ->
  exists c rest, token = c :: rest /\ c <> tilde /\ str_eqb token (lit "-") = false.
Proof.
  intros Hne Hal. destruct token as [|c rest]; [contradiction|].
  inversion Hal as [|? ? Hc _]; subst.
  pose proof (proj1 (Forall_forall _ _) characters_no_directive c Hc) as [H1 H2].
  exists c, rest. repeat split; auto.
  cbn. destruct (N.eqb_spec c 45); [contradiction|reflexivity].
Qed.

Lemma get_header_value_fresh_response (token : str) :
  get_header_value (fresh_response token) (lit "Session") = Some token.
Proof. reflexivity. Qed.

(** [send_response] on an open socket, for a response that can be
    framed. *)
Lemma send_response_spec (token : str) (req res : CommunicationProtocol.t)
      (w : World) (frame : bytes) (c : N) (rest : str) :
  to_bytes res = Ok frame ->
  socket.closed (sockets w fd) = false ->
  get_header_value req (lit "Session") = Some (c :: rest) ->
  CommunicationProtocolServer.send_response self fd token req res w
  = if (c =? tilde)%N
    then bindM (SessionServer.close_session
                  (CommunicationProtocolServer.base self) token)
               (fun _ => ret (req, res)) (sent w fd frame)
    else Some (Ok (req, res), sent w fd frame).
Proof.
  intros Hframe Hopen Hsession.
  unfold CommunicationProtocolServer.send_response.
  unfold bindM at 1, lift. rewrite Hframe.
  unfold bindM at 1, sock.send. rewrite Hopen.
  unfold bindM at 1, lift. rewrite Hsession.
  cbn [CommunicationProtocolServer.first_character index nth_error].
  fold (sent w fd frame). unfold tilde.
  destruct (c =? 126)%N; reflexivity.
Qed.

(** [method_handler] up to the call of the method function. *)
Lemma method_handler_dispatch (req : CommunicationProtocol.t) (w : World)
      (c : N) (rest : str) (f : CommunicationProtocolServer.method_function) :
  get_header_value req (lit "Session") = Some (c :: rest) ->
  CommunicationProtocolServer.lookup_method self
    (get_header_value req (lit "Method")) = Ok f ->
  let session_token := if (c =? tilde)%N then rest else c :: rest in
  let session :=
    if negb (str_eqb session_token (lit "-"))
    then SessionServer.get_session (CommunicationProtocolServer.base self)
                                   session_token w
    else None in
  CommunicationProtocolServer.method_handler self fd a req w
  = bindM (f req (fresh_response session_token) session)
          (fun '(req', res') =>
             CommunicationProtocolServer.send_response self fd session_token
                                                       req' res') w.
Proof.
  intros Hsession Hmethod.
  unfold CommunicationProtocolServer.method_handler.
  rewrite Hsession, Hmethod.
  cbn [CommunicationProtocolServer.first_character index nth_error lift].
  unfold bindM at 1, lift. cbv beta iota.
  unfold bindM at 1. cbv beta iota. unfold tilde.
  destruct (c =? 126)%N; reflexivity.
Qed.

End dispatch.

Section directive_semantics.

Variable self : CommunicationProtocolServer.t.
Variables (fd : nat) (a : address).

Lemma session_generator_star (fuel : nat) (req req1 : CommunicationProtocol.t)
      (w w1 : World) :
  get_header_value req (lit "Session") = Some (lit "*") ->
  CommunicationProtocolServer.session_generator fuel self fd a req w
  = Some (Ok req1, w1) ->
  exists token s,
    req1 = set_header_value req (lit "Session") token /\
    sessions w1 = sessions w ++ [(token, s)] /\
    token <> [] /\ get (sessions w) token = None /\ alphanumeric token.
Proof.
  intros Hstar. unfold CommunicationProtocolServer.session_generator.
  rewrite Hstar. change (str_eqb (lit "*") (lit "*")) with true. cbv iota.
  unfold bindM.
  destruct (SessionServer.create_session fuel
              (CommunicationProtocolServer.base self) w)
    as [[r w']|] eqn:E; [|discriminate].
  apply create_session_spec in E
    as (token & s & -> & Hs & Hne & Hget & _ & Hal).
  unfold ret. intros H. injection H as <- <-.
  exists token, s. repeat split; auto.
Qed.

(** C8. For a request whose method is registered, and as long as the
    method function returns, leaves the [Session] header of the request
    alone, fills a response that can be framed and the socket is open:
    - on ["*"], the session generator makes a token that no session had
      and a session for it, the method function gets a response whose
      [Session] header is that token, and the frame of the response is
      sent;
    - on ["~" + token], the frame is sent, then [close_session] runs on
      the token, and no session is found for it afterwards;
    - on ["-"], the method function gets [None] for the session. *)
Theorem session_directive_semantics (req : CommunicationProtocol.t) (w : World)
        (f : CommunicationProtocolServer.method_function) :
  CommunicationProtocolServer.lookup_method self
    (get_header_value req (lit "Method")) = Ok f ->
  (get_header_value req (lit "Session") = Some (lit "*") ->
   forall fuel req1 w1,
     CommunicationProtocolServer.session_generator fuel self fd a req w
     = Some (Ok req1, w1) ->
     exists token s,
       SessionServer.get_session (CommunicationProtocolServer.base self) token w
       = None /\
       SessionServer.get_session (CommunicationProtocolServer.base self) token w1
       = Some s /\
       get_header_value req1 (lit "Session") = Some token /\
       get_header_value (fresh_response token) (lit "Session") = Some token /\
       forall req2 res2 w2 frame,
         f req1 (fresh_response token) (Some s) w1 = Some (Ok (req2, res2), w2) ->
         get_header_value req2 (lit "Session") = Some token ->
         to_bytes res2 = Ok frame ->
         socket.closed (sockets w2 fd) = false ->
         CommunicationProtocolServer.method_handler self fd a req1 w1
         = Some (Ok (req2, res2), sent w2 fd frame)) /\
  (forall token,
     get_header_value req (lit "Session") = Some (tilde :: token) ->
     forall req2 res2 w2 frame,
       f req (fresh_response token)
         (if negb (str_eqb token (lit "-"))
          then SessionServer.get_session
                 (CommunicationProtocolServer.base self) token w
          else None) w
       = Some (Ok (req2, res2), w2) ->
       get_header_value req2 (lit "Session") = Some (tilde :: token) ->
       to_bytes res2 = Ok frame ->
       socket.closed (sockets w2 fd) = false ->
       CommunicationProtocolServer.method_handler self fd a req w
       = bindM (SessionServer.close_session
                  (CommunicationProtocolServer.base self) token)
               (fun _ => ret (req2, res2)) (sent w2 fd frame) /\
       exists r w3,
         CommunicationProtocolServer.method_handler self fd a req w
         = Some (r, w3) /\
         SessionServer.get_session (CommunicationProtocolServer.base self)
                                   token w3 = None /\
         socket.written (sockets w3 fd)
         = socket.written (sockets w2 fd) ++ [frame]) /\
  (get_header_value req (lit "Session") = Some (lit "-") ->
   CommunicationProtocolServer.method_handler self fd a req w
   = bindM (f req (fresh_response (lit "-")) None)
           (fun '(req', res') =>
              CommunicationProtocolServer.send_response self fd (lit "-")
                                                        req' res') w).
Proof.
  intros Hmethod. split; [|split].
  - intros Hstar fuel req1 w1 Hgen.
    destruct (session_generator_star fuel req req1 w w1 Hstar Hgen)
      as (token & s & -> & Hs & Hne & Hget & Hal).
    exists token, s.
    assert (Hnew : SessionServer.get_session
                     (CommunicationProtocolServer.base self) token w1 = Some s).
    { unfold SessionServer.get_session. rewrite Hs.
      rewrite get_app_r by (now apply get_None_not_key). apply get_head. }
    assert (Hhdr : get_header_value
                     (set_header_value req (lit "Session") token)
                     (lit "Session") = Some token)
      by apply get_setitem_same.
    split; [exact Hget|]. split; [exact Hnew|]. split; [exact Hhdr|].
    split; [reflexivity|].
    intros req2 res2 w2 frame Hf Hkeep Hframe Hopen.
    destruct (token_no_directive token Hne Hal) as (c & rest & -> & Hc & Hdash).
    rewrite (method_handler_dispatch self fd a _ w1 c rest f Hhdr).
    + apply N.eqb_neq in Hc. rewrite Hc, Hdash. cbn [negb].
      rewrite Hnew. unfold bindM at 1. rewrite Hf.
      rewrite (send_response_spec self fd _ req2 res2 w2 frame c rest
                 Hframe Hopen Hkeep).
      now rewrite Hc.
    + unfold get_header_value, set_header_value. cbn [headers].
      rewrite get_setitem_other by discriminate. exact Hmethod.
  - intros token Htilde req2 res2 w2 frame Hf Hkeep Hframe Hopen.
    assert (E : CommunicationProtocolServer.method_handler self fd a req w
                = bindM (SessionServer.close_session
                           (CommunicationProtocolServer.base self) token)
                        (fun _ => ret (req2, res2)) (sent w2 fd frame)).
    { rewrite (method_handler_dispatch self fd a req w tilde token f
                 Htilde Hmethod).
      rewrite N.eqb_refl. unfold bindM at 1. rewrite Hf.
      rewrite (send_response_spec self fd _ req2 res2 w2 frame tilde token
                 Hframe Hopen Hkeep).
      now rewrite N.eqb_refl. }
    split; [exact E|]. rewrite E. unfold bindM, ret.
    destruct (SessionServer.close_session
                (CommunicationProtocolServer.base self) token
                (sent w2 fd frame)) as [[r w3]|] eqn:Hclose.
    + pose proof (close_session_forgets _ _ _ _ _ Hclose) as Hgone.
      assert (Hsock : sockets w3 = sockets (sent w2 fd frame)).
      { unfold SessionServer.close_session in Hclose.
        destruct (pop (sessions (sent w2 fd frame)) token) as [[v d]|e];
          injection Hclose as <- <-; reflexivity. }
      assert (Hwritten : socket.written (sockets w3 fd)
                         = socket.written (sockets w2 fd) ++ [frame]).
      { rewrite Hsock. cbn. now rewrite Nat.eqb_refl. }
      destruct r as [u|e]; do 2 eexists; (split; [reflexivity|]);
        split; assumption.
    + unfold SessionServer.close_session in Hclose.
      destruct (pop (sessions (sent w2 fd frame)) token) as [[v d]|e];
        discriminate Hclose.
  - intros Hdash.
    rewrite (method_handler_dispatch self fd a req w 45%N [] f Hdash Hmethod).
    reflexivity.
Qed.

End directive_semantics.

Section dispatcher_instances.

Lemma session_generator_leaves_other_directives_witness :
  get_header_value (ping_with (lit "-")) (lit "Session") <> Some (lit "*") /\
  CommunicationProtocolServer.session_generator 1 ping_server 0 peer
    (ping_with (lit "-")) one_session
  = Some (Ok (ping_with (lit "-")), one_session).
Proof.
  assert (H : get_header_value (ping_with (lit "-")) (lit "Session")
              <> Some (lit "*")) by discriminate.
  split; [exact H|].
  exact (session_generator_leaves_other_directives ping_server 0 peer 1
           (ping_with (lit "-")) one_session H).
Defined.

Lemma method_handler_needs_directive_witness :
  CommunicationProtocolServer.method_handler ping_server 0 peer
    ping_without_session world0
  = Some (Raise TypeError, world0) /\
  CommunicationProtocolServer.method_handler ping_server 0 peer
    (ping_with empty_str) world0
  = Some (Raise IndexError, world0).
Proof.
  split.
  - exact (proj1 (method_handler_needs_directive ping_server 0 peer
                    ping_without_session world0) eq_refl).
  - exact (proj2 (method_handler_needs_directive ping_server 0 peer
                    (ping_with empty_str) world0) eq_refl).
Defined.

Lemma session_directive_semantics_witness :
  (exists token req1 w1 w2,
     CommunicationProtocolServer.session_generator 1 ping_server 0 peer
       ping world0 = Some (Ok req1, w1) /\
     SessionServer.get_session store8 token world0 = None /\
     get_header_value req1 (lit "Session") = Some token /\
     (exists res2, CommunicationProtocolServer.method_handler
                     ping_server 0 peer req1 w1 = Some (Ok (req1, res2), w2) /\
                   get_header_value res2 (lit "Session") = Some token)) /\
  (exists r w3,
     CommunicationProtocolServer.method_handler ping_server 0 peer
       (ping_with (lit "~abcdefgh")) one_session = Some (r, w3) /\
     SessionServer.get_session store8 (lit "abcdefgh") w3 = None) /\
  CommunicationProtocolServer.method_handler ping_server 0 peer
    (ping_with (lit "-")) world0
  = bindM (pong (ping_with (lit "-")) (fresh_response (lit "-")) None)
          (fun '(req', res') =>
             CommunicationProtocolServer.send_response ping_server 0 (lit "-")
                                                       req' res') world0.
Proof.
  split; [|split].
  - pose (out := CommunicationProtocolServer.session_generator 1 ping_server
                   0 peer ping world0).
    pose (req1 := match out with Some (Ok m, _) => m | _ => ping end).
    pose (w1 := match out with Some (_, w) => w | None => world0 end).
    assert (Hgen : CommunicationProtocolServer.session_generator 1
                     ping_server 0 peer ping world0 = Some (Ok req1, w1))
      by (vm_compute; reflexivity).
    destruct (proj1 (session_directive_semantics ping_server 0 peer ping
                       world0 pong eq_refl) eq_refl 1 req1 w1 Hgen)
      as (token & s & Hold & Hnew & Hhdr & _ & Hrun).
    assert (Htoken : token = lit "abcdefgh")
      by (vm_compute in Hhdr; now injection Hhdr).
    subst token.
    assert (Hs : s = Session.__init__ 0)
      by (vm_compute in Hnew; now injection Hnew).
    subst s.
    exists (lit "abcdefgh"), req1, w1. eexists.
    split; [exact Hgen|]. split; [exact Hold|]. split; [exact Hhdr|].
    eexists. split.
    + eapply Hrun;
        [vm_compute; reflexivity|reflexivity|vm_compute; reflexivity
        |reflexivity].
    + reflexivity.
  - pose proof (proj1 (proj2 (session_directive_semantics ping_server 0 peer
                                (ping_with (lit "~abcdefgh")) one_session pong
                                eq_refl))
                      (lit "abcdefgh") eq_refl) as Hclose.
    edestruct Hclose as (_ & r & w3 & E & Hgone & _).
    + vm_compute; reflexivity.
    + vm_compute; reflexivity.
    + vm_compute; reflexivity.
    + vm_compute; reflexivity.
    + exists r, w3. split; assumption.
  - exact (proj2 (proj2 (session_directive_semantics ping_server 0 peer
                           (ping_with (lit "-")) world0 pong eq_refl))
                 eq_refl).
Defined.

(** A whole exchange: the request asks for a session, the response
    names it, and the connection is closed. *)
Example ping_exchange :
  exists w',
    Server.handle_client ping_service 0 peer
      (arrive world0 0
         (bytes_lit "req:" ++ [x30; x00; x00; x00]
          ++ bytes_lit ":Method=ping:Session=*:Content-Length=0:"))
    = Some (Ok tt, w') /\
    socket.written (sockets w' 0)
    = [bytes_lit "res:" ++ [x4a; x00; x00; x00]
       ++ bytes_lit ":Session=abcdefgh:Content-Length=0:Method=ping:Content-Type=ascii:"] /\
    socket.closed (sockets w' 0) = true /\
    keys (sessions w') = [lit "abcdefgh"].
Proof. eexists. split; [vm_compute; reflexivity|]. repeat split. Qed.

(** A method nobody registered: the look-up raises [KeyError], nothing
    is sent and the socket stays open. *)
Example unknown_method_exchange :
  exists w',
    Server.handle_client ping_service 0 peer
      (arrive world0 0
         (bytes_lit "req:" ++ [x30; x00; x00; x00]
          ++ bytes_lit ":Method=nope:Session=-:Content-Length=0:"))
    = Some (Raise KeyError, w') /\
    socket.written (sockets w' 0) = [] /\
    socket.closed (sockets w' 0) = false.
Proof. eexists. split; [vm_compute; reflexivity|]. repeat split. Qed.

End dispatcher_instances.

(* ================================================================== *)
(** * More about the codec *)
(* ================================================================== *)

Section codec_frames.

(** The frame of a message of ASCII headers, with or without a body. *)
Lemma to_bytes_ascii (m : CommunicationProtocol.t) :
  is_direction (req_res m) ->
  NoDup (keys (headers m)) ->
  Forall (fun kv => ascii_text (fst kv) /\ ascii_text (snd kv)) (headers m) ->
  fits_uint32 (header_length_of (headers m)) ->
  exists len4,
    int_to_bytes_little 4 (N.of_nat (header_length_of (headers m))) = Ok len4 /\
    length len4 = 4 /\
    int_from_bytes_little len4 = N.of_nat (header_length_of (headers m)) /\
    to_bytes m
    = Ok (frame_of (req_res m) len4 (map param_of (headers m))
                   (body_bytes (body m))).
Proof.
  intros Hdir Hnd Hasc Hfit.
  assert (Hascii : Forall ascii_text (map param_of (headers m))).
  { apply Forall_map. revert Hasc. apply Forall_impl.
    intros kv [Hk Hv]. unfold param_of.
    apply Forall_app. split; [assumption|].
    apply Forall_app. split; [repeat constructor|assumption]. }
  unfold to_bytes.
  rewrite (get_params_list_spec m Hnd). cbn [bind].
  rewrite (direction_length _ Hdir), header_length_of_params.
  rewrite (encode_ascii _ (direction_ascii _ Hdir)). cbn [bind].
  change (encode (lit ":")) with (Ok [byte_of_N colon]). cbn [bind].
  destruct (int_to_bytes_little_spec 4 (N.of_nat (header_length_of (headers m))))
    as (len4 & E4 & Hlen & Hval); [exact Hfit|]. rewrite E4. cbn [bind].
  exists len4. split; [reflexivity|]. split; [exact Hlen|]. split; [exact Hval|].
  pose proof (header_length_of_params (headers m)) as HL.
  set (PL := params_length (map param_of (headers m))) in *.
  set (BL := match body m with Some b => length b | None => 0 end).
  replace (header_length_of (headers m) + BL) with (9 + (PL + BL)) by lia.
  rewrite frame_start
    by (rewrite ?length_map; auto using direction_length).
  unfold frame_of.
  set (start := map byte_of_N (req_res m) ++ [byte_of_N colon] ++ len4
                ++ [byte_of_N colon]).
  assert (Hstart : length start = 9).
  { unfold start. rewrite !length_app, length_map, (direction_length _ Hdir), Hlen.
    reflexivity. }
  unfold bytearray at 1. rewrite repeat_app.
  fold (bytearray PL). fold (bytearray BL).
  rewrite <- Hstart.
  unfold PL. rewrite (write_params_ascii _ start (bytearray BL) Hascii).
  cbn [bind]. unfold BL.
  destruct (body m) as [b|]; cbn [body_bytes]; [|reflexivity].
  f_equal. unfold slice_assign_from.
  rewrite <- length_wire, <- length_app, app_assoc, firstn_app_exact.
  symmetry. apply app_assoc.
Qed.

Lemma length_frame_of (tag : str) (len4 : bytes) (ps : list str) (b : bytes) :
  length tag = 3 -> length len4 = 4 ->
  length (frame_of tag len4 ps b) = 9 + params_length ps + length b.
Proof.
  intros Htag Hlen. unfold frame_of.
  rewrite !length_app, length_map, length_wire, Htag, Hlen. simpl. lia.
Qed.

(** The loop of [from_bytes] raises nothing but [IndexError]. *)
Lemma from_bytes_loop_raises (byte_arr : bytes) (n i : nat)
      (params : list str) (param : str) (e : exn) :
  from_bytes_loop byte_arr n i params param = Raise e -> e = IndexError.
Proof.
  revert i params param. induction n as [|n IH]; intros i params param;
    cbn [from_bytes_loop]; [discriminate|].
  unfold index. destruct (nth_error byte_arr i) as [b|]; cbn [bind].
  - destruct (Byte.to_N b =? colon)%N; apply IH.
  - now intros [= <-].
Qed.

Lemma params_list_to_dict_loop_raises (ps : list str) (acc : dict str)
      (e : exn) :
  params_list_to_dict_loop ps acc = Raise e -> e = IndexError.
Proof.
  revert acc. induction ps as [|p ps IH]; intros acc;
    cbn [params_list_to_dict_loop]; [discriminate|].
  unfold index.
  destruct (nth_error (split equals p) 0) as [k|]; cbn [bind];
    [|now intros [= <-]].
  destruct (nth_error (split equals p) 1) as [v|]; cbn [bind];
    [apply IH|now intros [= <-]].
Qed.

(** [from_bytes] on a frame whose header section is made of parameters
    without a colon: the parameters go to [params_list_to_dict] and the
    rest is the body. *)
Lemma from_bytes_frame (tag : str) (len4 : bytes) (ps : list str) (b : bytes) :
  is_direction tag -> length len4 = 4 ->
  int_from_bytes_little len4 = N.of_nat (9 + params_length ps) ->
  Forall colon_free ps ->
  from_bytes (frame_of tag len4 ps b)
  = (hs <- params_list_to_dict ps ;; Ok (Build tag hs (Some b))).
Proof.
  intros Hdir Hlen Hval Hps. unfold from_bytes, frame_of.
  set (start := map byte_of_N tag ++ [byte_of_N colon] ++ len4
                ++ [byte_of_N colon]).
  assert (Hstart : length start = 9).
  { unfold start. rewrite !length_app, length_map, (direction_length _ Hdir), Hlen.
    reflexivity. }
  assert (Htag : decode (slice (start ++ wire ps ++ b) 0 3) = Ok tag).
  { unfold start. rewrite <- app_assoc. apply decode_tag. exact Hdir. }
  rewrite Htag. cbn [bind].
  replace (negb (str_eqb tag (lit "req")) && negb (str_eqb tag (lit "res")))
    with false by (destruct Hdir as [-> | ->]; reflexivity).
  assert (Hfield : header_length_field (start ++ wire ps ++ b)
                   = N.of_nat (9 + params_length ps)).
  { unfold start. rewrite header_length_field_start
      by (rewrite ?length_map; auto using direction_length).
    exact Hval. }
  unfold header_length_field in Hfield. rewrite Hfield, Nat2N.id.
  replace (9 + params_length ps - 9) with (params_length ps) by lia.
  rewrite <- Hstart.
  rewrite (from_bytes_loop_wire ps start b [] Hps).
  cbn [bind app].
  destruct (params_list_to_dict ps) as [hs|e]; cbn [bind]; [|reflexivity].
  do 2 f_equal. unfold slice_from.
  rewrite <- length_wire, <- length_app, app_assoc.
  now rewrite skipn_app_exact.
Qed.

End codec_frames.

Section codec_edges.

Lemma split_head (sep : N) (s : str) : exists t, split sep s <> [] /\ split sep s = hd [] (split sep s) :: t.
Proof.
  destruct s as [|c r]; simpl.
  - exists []. split; [discriminate|reflexivity].
  - destruct (c =? sep)%N.
    + eexists. split; [discriminate|reflexivity].
    + destruct (split sep r); eexists; (split; [discriminate|reflexivity]).
Qed.

Lemma hd_split_equals (v : str) : hd [] (split equals v) = before_equals v.
Proof.
  induction v as [|c r IH]; simpl; [reflexivity|].
  destruct (c =? equals)%N; [reflexivity|].
  destruct (split equals r) as [|h t]; simpl in *; now rewrite <- IH.
Qed.

Lemma before_equals_plain (v : str) : ~ In equals v -> before_equals v = v.
Proof.
  induction v as [|c r IH]; simpl; [reflexivity|].
  intros H. destruct (N.eqb_spec c equals) as [->|_]; [tauto|].
  rewrite IH by tauto. reflexivity.
Qed.

(** The two items [params_list_to_dict] takes from ["name=value"]. *)
Lemma split_param_of_any (kv : str * str) :
  ~ In equals (fst kv) ->
  exists t, split equals (param_of kv) = fst kv :: before_equals (snd kv) :: t.
Proof.
  intros Hk. unfold param_of.
  change (lit "=" ++ snd kv) with (equals :: snd kv).
  rewrite split_at_sep by assumption.
  destruct (split_head equals (snd kv)) as (t & _ & ->).
  rewrite hd_split_equals. now exists t.
Qed.

Lemma get_app (V : Type) (d1 d2 : dict V) (k : str) :
  get (d1 ++ d2) k = match get d1 k with Some v => Some v | None => get d2 k end.
Proof.
  induction d1 as [|[k' v'] d1 IH]; simpl; [reflexivity|].
  destruct (str_eqb k k'); [reflexivity|exact IH].
Qed.

(** Parameters of the form ["name=value"] are stored one after the
    other, the value cut at its first ['=']. *)
Lemma params_list_to_dict_loop_fold (hs acc : dict str) :
  Forall (fun kv => ~ In equals (fst kv)) hs ->
  params_list_to_dict_loop (map param_of hs) acc
  = Ok (fold_left (fun d kv => setitem d (fst kv) (before_equals (snd kv)))
                  hs acc).
Proof.
  intros Hhs. revert acc.
  induction Hhs as [|kv hs Hk _ IH]; intros acc; [reflexivity|].
  cbn [map params_list_to_dict_loop fold_left].
  destruct (split_param_of_any kv Hk) as [t ->].
  cbn [bind index nth_error]. apply IH.
Qed.

Lemma fold_setitem_fresh (hs acc : dict str) :
  NoDup (keys acc ++ keys hs) ->
  fold_left (fun d kv => setitem d (fst kv) (before_equals (snd kv))) hs acc
  = acc ++ map (fun kv => (fst kv, before_equals (snd kv))) hs.
Proof.
  revert acc. induction hs as [|[k v] hs IH]; intros acc Hnd.
  - simpl. now rewrite app_nil_r.
  - cbn [fold_left map fst snd].
    rewrite setitem_fresh.
    + rewrite IH.
      * now rewrite <- app_assoc.
      * unfold keys in *. rewrite map_app. cbn [map fst].
        rewrite <- app_assoc. exact Hnd.
    + cbn [keys map fst] in Hnd. apply NoDup_remove_2 in Hnd.
      intros Hin. apply Hnd. apply in_or_app. now left.
Qed.

Lemma get_fold_setitem (hs acc : dict str) (k : str) :
  get (fold_left (fun d kv => setitem d (fst kv) (before_equals (snd kv)))
                 hs acc) k
  = match get (rev (map (fun kv => (fst kv, before_equals (snd kv))) hs)) k with
    | Some v => Some v
    | None => get acc k
    end.
Proof.
  revert acc. induction hs as [|[k' v'] hs IH]; intros acc; [reflexivity|].
  cbn [fold_left map rev fst snd]. rewrite IH, get_app.
  destruct (get (rev (map _ hs)) k) as [v|]; [reflexivity|].
  cbn [get]. destruct (str_eqb k k') eqn:E.
  - apply str_eqb_eq in E. subst. apply get_setitem_same.
  - apply str_eqb_neq in E. now apply get_setitem_other.
Qed.

Lemma NoDup_keys_fold_setitem (hs acc : dict str) :
  NoDup (keys acc) ->
  NoDup (keys (fold_left
                 (fun d kv => setitem d (fst kv) (before_equals (snd kv)))
                 hs acc)).
Proof.
  revert acc. induction hs as [|kv hs IH]; intros acc H; [exact H|].
  cbn [fold_left]. apply IH. now apply NoDup_keys_setitem.
Qed.

Lemma colon_free_params (hs : dict str) :
  Forall (fun kv => colon_free (fst kv) /\ colon_free (snd kv)) hs ->
  Forall colon_free (map param_of hs).
Proof.
  intros H. apply Forall_map. revert H. apply Forall_impl.
  intros [k v] [[Hk Hkc] [Hv Hvc]]. cbn [fst snd] in *.
  unfold param_of, colon_free. cbn [fst snd]. split.
  - apply Forall_app. split; [assumption|].
    apply Forall_app. split; [repeat constructor|assumption].
  - intros Hin. apply in_app_or in Hin as [Hin|Hin]; [tauto|].
    apply in_app_or in Hin as [Hin|Hin]; [|tauto].
    destruct Hin as [Hin|[]]. discriminate Hin.
Qed.

(** A parameter without ['='] stops [params_list_to_dict]. *)
Lemma params_list_to_dict_loop_no_equals (ps : list str) (acc : dict str) :
  Exists (fun p => ~ In equals p) ps ->
  params_list_to_dict_loop ps acc = Raise IndexError.
Proof.
  intros Hex. revert acc.
  induction Hex as [p ps Hp|p ps _ IH]; intros acc;
    cbn [params_list_to_dict_loop].
  - rewrite (split_no_sep equals p Hp). reflexivity.
  - destruct (index (split equals p) 0) as [k|e] eqn:E0; cbn [bind].
    + destruct (index (split equals p) 1) as [v|e] eqn:E1; cbn [bind];
        [apply IH|].
      unfold index in E1. destruct (nth_error (split equals p) 1);
        [discriminate|now injection E1 as <-].
    + unfold index in E0. destruct (nth_error (split equals p) 0);
        [discriminate|now injection E0 as <-].
Qed.

(** Reading past the end of the bytes. *)
Lemma from_bytes_loop_overrun (byte_arr : bytes) (n i : nat)
      (params : list str) (param : str) :
  0 < n -> length byte_arr < i + n ->
  from_bytes_loop byte_arr n i params param = Raise IndexError.
Proof.
  revert i params param. induction n as [|n IH]; intros i params param Hn Hlen;
    [lia|].
  cbn [from_bytes_loop]. unfold index.
  destruct (nth_error byte_arr i) as [b|] eqn:E; cbn [bind]; [|reflexivity].
  assert (i < length byte_arr) by (apply nth_error_Some; congruence).
  destruct (Byte.to_N b =? colon)%N; apply IH; lia.
Qed.

Lemma decode_tag_bytes (byte_arr : bytes) (tag : str) :
  is_direction tag -> slice byte_arr 0 3 = map byte_of_N tag ->
  decode (slice byte_arr 0 3) = Ok tag.
Proof. intros [-> | ->] ->; reflexivity. Qed.

End codec_edges.

Section codec_properties.

(** X1. Setting a header and reading it back: [get_header_value] gives
    the value [set_header_value] stored, the other headers, the
    direction and the body are as before, and the header names stay
    distinct. *)
Theorem set_header_value_then_get (m : CommunicationProtocol.t)
        (name value : str) :
  get_header_value (set_header_value m name value) name = Some value /\
  (forall other, other <> name ->
     get_header_value (set_header_value m name value) other
     = get_header_value m other) /\
  (NoDup (keys (headers m)) ->
   NoDup (keys (headers (set_header_value m name value)))) /\
  (In name (keys (headers m)) ->
   keys (headers (set_header_value m name value)) = keys (headers m)) /\
  req_res (set_header_value m name value) = req_res m /\
  body (set_header_value m name value) = body m.
Proof.
  unfold get_header_value, set_header_value. cbn [headers req_res body].
  split; [apply get_setitem_same|].
  split; [intros other Hne; now apply get_setitem_other|].
  split; [apply NoDup_keys_setitem|].
  split; [apply keys_setitem_present|].
  split; reflexivity.
Qed.

(** X2. The layout of a frame. For a request or response with ASCII
    headers that fit the length field, [to_bytes] returns a frame of
    [header_length] bytes followed by the body: its length is
    [header_length + len(body)], it starts with the tag, has a colon at
    offsets 3 and 8, and the body (nothing for [None]) is what starts at
    offset [header_length]. *)
Theorem to_bytes_layout (m : CommunicationProtocol.t) :
  is_direction (req_res m) ->
  NoDup (keys (headers m)) ->
  Forall (fun kv => ascii_text (fst kv) /\ ascii_text (snd kv)) (headers m) ->
  fits_uint32 (header_length_of (headers m)) ->
  exists frame,
    to_bytes m = Ok frame /\
    length frame = header_length_of (headers m) + length (body_bytes (body m)) /\
    slice frame 0 3 = map byte_of_N (req_res m) /\
    index frame 3 = Ok (byte_of_N colon) /\
    index frame 8 = Ok (byte_of_N colon) /\
    slice_from frame (header_length_of (headers m)) = body_bytes (body m).
Proof.
  intros Hdir Hnd Hasc Hfit.
  destruct (to_bytes_ascii m Hdir Hnd Hasc Hfit) as (len4 & _ & Hlen & _ & ->).
  pose proof (header_length_of_params (headers m)) as HL.
  pose proof (direction_length _ Hdir) as Htag.
  eexists. split; [reflexivity|].
  split.
  { rewrite length_frame_of by assumption. lia. }
  assert (Hshape : exists t0 t1 t2 l0 l1 l2 l3,
             map byte_of_N (req_res m) = [t0; t1; t2] /\
             len4 = [l0; l1; l2; l3]).
  { destruct Hdir as [-> | ->];
      destruct len4 as [|l0 [|l1 [|l2 [|l3 [|]]]]]; try discriminate;
      repeat eexists. }
  destruct Hshape as (t0 & t1 & t2 & l0 & l1 & l2 & l3 & Et & El).
  unfold frame_of. rewrite Et, El.
  split; [reflexivity|]. split; [reflexivity|]. split; [reflexivity|].
  unfold slice_from.
  replace (header_length_of (headers m))
    with (length (([t0; t1; t2] ++ [byte_of_N colon] ++ [l0; l1; l2; l3]
                   ++ [byte_of_N colon])
                  ++ wire (map param_of (headers m))))
    by (rewrite length_app, length_wire; simpl; lia).
  rewrite <- app_assoc, (app_assoc _ (wire _)).
  apply skipn_app_exact.
Qed.

(** X3. What comes back from a frame. For a request or response whose
    header names are ASCII without [':'] and ['='] and whose values are
    ASCII without [':'], [from_bytes (to_bytes m)] has the direction of
    [m], its headers in the same order with every value cut at its first
    ['='], and its body, an absent body coming back as the empty byte
    sequence. *)
Theorem round_trip_cuts_values (m : CommunicationProtocol.t) :
  is_direction (req_res m) ->
  NoDup (keys (headers m)) ->
  Forall (fun kv => plain (fst kv) /\ colon_free (snd kv)) (headers m) ->
  fits_uint32 (header_length_of (headers m)) ->
  exists frame,
    to_bytes m = Ok frame /\
    from_bytes frame
    = Ok (Build (req_res m) (headers_read (headers m))
                (Some (body_bytes (body m)))).
Proof.
  intros Hdir Hnd Hhs Hfit.
  assert (Hasc : Forall (fun kv => ascii_text (fst kv) /\ ascii_text (snd kv))
                        (headers m)).
  { revert Hhs. apply Forall_impl. intros kv [[Hk _] [Hv _]]. now split. }
  assert (Hcf : Forall (fun kv => colon_free (fst kv) /\ colon_free (snd kv))
                       (headers m)).
  { revert Hhs. apply Forall_impl. intros kv [[Hk [Hc _]] Hv].
    split; [now split|exact Hv]. }
  assert (Hne : Forall (fun kv => ~ In equals (fst kv)) (headers m)).
  { revert Hhs. apply Forall_impl. intros kv [[_ [_ Hk]] _]. exact Hk. }
  destruct (to_bytes_ascii m Hdir Hnd Hasc Hfit)
    as (len4 & _ & Hlen & Hval & ->).
  eexists. split; [reflexivity|].
  rewrite from_bytes_frame;
    [|assumption|assumption
     |rewrite Hval; f_equal; pose proof (header_length_of_params (headers m)); lia
     |now apply colon_free_params].
  unfold params_list_to_dict.
  rewrite (params_list_to_dict_loop_fold _ _ Hne).
  rewrite fold_setitem_fresh by exact Hnd.
  reflexivity.
Qed.

(** X4. An absent body is framed like an empty one: with ASCII headers
    that fit the length field, [to_bytes] returns the same frame for the
    body [None] and for the body [b""]. *)
Theorem to_bytes_without_body (m : CommunicationProtocol.t) :
  is_direction (req_res m) ->
  NoDup (keys (headers m)) ->
  Forall (fun kv => ascii_text (fst kv) /\ ascii_text (snd kv)) (headers m) ->
  fits_uint32 (header_length_of (headers m)) ->
  exists frame,
    to_bytes (with_body m None) = Ok frame /\
    to_bytes (with_body m (Some [])) = Ok frame.
Proof.
  intros Hdir Hnd Hasc Hfit.
  destruct (to_bytes_ascii (with_body m None) Hdir Hnd Hasc Hfit)
    as (len4 & E4 & _ & _ & E1).
  destruct (to_bytes_ascii (with_body m (Some [])) Hdir Hnd Hasc Hfit)
    as (len4' & E4' & _ & _ & E2).
  cbn [with_body headers req_res body body_bytes] in *.
  rewrite E4 in E4'. injection E4' as <-.
  eexists. split; [exact E1|exact E2].
Qed.

(** X5. [from_bytes] raises [TypeError], [UnicodeDecodeError] or
    [IndexError] and nothing else: no input makes it raise the
    [CommunicationProtocolException] its docstring announces. *)
Theorem from_bytes_raises_only (byte_arr : bytes) (e : exn) :
  from_bytes byte_arr = Raise e ->
  e = TypeError \/ e = UnicodeDecodeError \/ e = IndexError.
Proof.
  unfold from_bytes. intros H.
  apply bind_Raise_inv in H as [H|(tag & _ & H)].
  - right. left.
    exact (decode_raises_bounded _ _ e (le_n _) H).
  - destruct (negb (str_eqb tag (lit "req")) && negb (str_eqb tag (lit "res"))).
    + left. cbn in H. now injection H as <-.
    + apply bind_Raise_inv in H as [H|([i params] & _ & H)].
      * right. right. exact (from_bytes_loop_raises _ _ _ _ _ _ H).
      * apply bind_Raise_inv in H as [H|(hs & _ & H)]; [|discriminate H].
        right. right. exact (params_list_to_dict_loop_raises _ _ _ H).
Qed.

(** X6. A truncated frame. When the bytes start with [req] or [res] and
    the length field announces a header section that ends beyond the
    last byte, [from_bytes] raises [IndexError]. *)
Theorem from_bytes_truncated (byte_arr : bytes) (tag : str) :
  is_direction tag ->
  slice byte_arr 0 3 = map byte_of_N tag ->
  9 < N.to_nat (header_length_field byte_arr) ->
  length byte_arr < N.to_nat (header_length_field byte_arr) ->
  from_bytes byte_arr = Raise IndexError.
Proof.
  intros Hdir Htag Hnine Hshort. unfold from_bytes.
  rewrite (decode_tag_bytes byte_arr tag Hdir Htag). cbn [bind].
  replace (negb (str_eqb tag (lit "req")) && negb (str_eqb tag (lit "res")))
    with false by (destruct Hdir as [-> | ->]; reflexivity).
  unfold header_length_field in *.
  rewrite from_bytes_loop_overrun; [reflexivity|lia|lia].
Qed.

(** X7. A length field of 9 or less announces no header: when the bytes
    start with [req] or [res], [from_bytes] returns a message without
    headers whose body is what follows the ninth byte, the empty byte
    sequence if there are no more than nine. *)
Theorem from_bytes_without_headers (byte_arr : bytes) (tag : str) :
  is_direction tag ->
  slice byte_arr 0 3 = map byte_of_N tag ->
  N.to_nat (header_length_field byte_arr) <= 9 ->
  from_bytes byte_arr = Ok (Build tag [] (Some (skipn 9 byte_arr))).
Proof.
  intros Hdir Htag Hnine. unfold from_bytes.
  rewrite (decode_tag_bytes byte_arr tag Hdir Htag). cbn [bind].
  replace (negb (str_eqb tag (lit "req")) && negb (str_eqb tag (lit "res")))
    with false by (destruct Hdir as [-> | ->]; reflexivity).
  unfold header_length_field in *.
  replace (N.to_nat (int_from_bytes_little (slice byte_arr 4 8)) - 9) with 0
    by lia.
  reflexivity.
Qed.

(** X8. A header without ['=']. When the header section of a frame is
    made of colon-free ASCII parameters one of which holds no ['='],
    [from_bytes] raises [IndexError]. *)
Theorem from_bytes_parameter_without_equals (tag : str) (len4 : bytes)
        (ps : list str) (b : bytes) :
  is_direction tag -> length len4 = 4 ->
  int_from_bytes_little len4 = N.of_nat (9 + params_length ps) ->
  Forall colon_free ps ->
  Exists (fun p => ~ In equals p) ps ->
  from_bytes (frame_of tag len4 ps b) = Raise IndexError.
Proof.
  intros Hdir Hlen Hval Hps Hex.
  rewrite from_bytes_frame by assumption.
  unfold params_list_to_dict.
  now rewrite params_list_to_dict_loop_no_equals.
Qed.

(** X9. A header sent twice. When the header section of a frame is made
    of parameters ["name=value"] (names plain, values without a colon),
    names repeated or not, [from_bytes] returns headers with distinct
    names in which every name has the value of its last parameter, cut
    at its first ['=']. *)
Theorem from_bytes_last_value_wins (tag : str) (len4 : bytes)
        (hs : dict str) (b : bytes) :
  is_direction tag -> length len4 = 4 ->
  int_from_bytes_little len4
  = N.of_nat (9 + params_length (map param_of hs)) ->
  Forall (fun kv => plain (fst kv) /\ colon_free (snd kv)) hs ->
  exists m,
    from_bytes (frame_of tag len4 (map param_of hs) b) = Ok m /\
    req_res m = tag /\ body m = Some b /\
    NoDup (keys (headers m)) /\
    forall name,
      get_header_value m name = get (rev (headers_read hs)) name.
Proof.
  intros Hdir Hlen Hval Hhs.
  assert (Hcf : Forall (fun kv => colon_free (fst kv) /\ colon_free (snd kv)) hs).
  { revert Hhs. apply Forall_impl. intros kv [[Hk [Hc _]] Hv].
    split; [now split|exact Hv]. }
  assert (Hne : Forall (fun kv => ~ In equals (fst kv)) hs).
  { revert Hhs. apply Forall_impl. intros kv [[_ [_ Hk]] _]. exact Hk. }
  rewrite from_bytes_frame; [|assumption|assumption|assumption
                             |now apply colon_free_params].
  unfold params_list_to_dict.
  rewrite (params_list_to_dict_loop_fold _ _ Hne). cbn [bind].
  eexists. split; [reflexivity|]. cbn [req_res body headers].
  split; [reflexivity|]. split; [reflexivity|]. split.
  - apply NoDup_keys_fold_setitem. constructor.
  - intros name. unfold get_header_value. cbn [headers].
    rewrite get_fold_setitem. unfold headers_read.
    now destruct (get (rev _) name).
Qed.

Lemma encode_raises (s : str) (e : exn) :
  encode s = Raise e -> e = UnicodeEncodeError.
Proof.
  induction s as [|c s IH]; simpl; [discriminate|].
  destruct (utf8_encode_char c); [|now intros [= <-]].
  intros H. apply bind_Raise_inv in H as [H|(x & _ & H)];
    [now apply IH|discriminate H].
Qed.

Lemma write_params_raises (ps : list str) (byte_arr : bytes) (i : nat)
      (e : exn) :
  write_params ps byte_arr i = Raise e -> e = UnicodeEncodeError.
Proof.
  revert byte_arr i. induction ps as [|p ps IH]; intros byte_arr i;
    cbn [write_params]; [discriminate|].
  intros H. apply bind_Raise_inv in H as [H|(x & _ & H)].
  - exact (encode_raises _ _ H).
  - exact (IH _ _ H).
Qed.

Lemma int_to_bytes_little_raises (len : nat) (n : N) (e : exn) :
  int_to_bytes_little len n = Raise e -> e = OverflowError.
Proof.
  revert n. induction len as [|len IH]; intros n; cbn [int_to_bytes_little].
  - destruct (n =? 0)%N; [discriminate|now intros [= <-]].
  - intros H. apply bind_Raise_inv in H as [H|(x & _ & H)];
      [exact (IH _ H)|discriminate H].
Qed.

(** A well-formed message has a frame. *)
Lemma to_bytes_returns (m : CommunicationProtocol.t) :
  well_formed m -> exists frame, to_bytes m = Ok frame.
Proof.
  intros (Hdir & Hnd & Htext & Hfit). unfold to_bytes.
  rewrite (get_params_list_spec m Hnd). cbn [bind].
  rewrite (direction_length _ Hdir), header_length_of_params.
  rewrite (encode_ascii _ (direction_ascii _ Hdir)). cbn [bind].
  change (encode (lit ":")) with (Ok [byte_of_N colon]). cbn [bind].
  destruct (int_to_bytes_little_spec 4 (N.of_nat (header_length_of (headers m))))
    as (len4 & -> & Hlen & _); [exact Hfit|]. cbn [bind].
  match goal with
  | |- context [write_params ?ps ?arr ?i] =>
      destruct (write_params_prefix 0 ps arr i (text_params _ Htext)
                  (Nat.le_0_l _) (Nat.le_0_l _))
        as (arr' & i' & -> & _)
  end.
  cbn [bind]. destruct (body m); eauto.
Qed.

(** X10. The length field bounds the header section. For a request or
    response whose headers are text, [to_bytes] raises [OverflowError]
    exactly when [9 + sum (len(name) + len(value) + 2)] does not fit in
    32 bits. *)
Theorem to_bytes_overflow_iff (m : CommunicationProtocol.t) :
  is_direction (req_res m) ->
  NoDup (keys (headers m)) ->
  Forall (fun kv => text (fst kv) /\ text (snd kv)) (headers m) ->
  to_bytes m = Raise OverflowError
  <-> ~ fits_uint32 (header_length_of (headers m)).
Proof.
  intros Hdir Hnd Htext. split.
  - intros Hraise Hfit.
    destruct (to_bytes_returns m (conj Hdir (conj Hnd (conj Htext Hfit))))
      as [frame E].
    congruence.
  - now apply to_bytes_overflow.
Qed.

(** X11. Whatever the message, as long as its header names are distinct,
    [to_bytes] raises [OverflowError] or [UnicodeEncodeError] and
    nothing else. *)
Theorem to_bytes_raises_only (m : CommunicationProtocol.t) (e : exn) :
  NoDup (keys (headers m)) ->
  to_bytes m = Raise e ->
  e = OverflowError \/ e = UnicodeEncodeError.
Proof.
  intros Hnd. unfold to_bytes.
  rewrite (get_params_list_spec m Hnd). cbn [bind].
  intros H.
  apply bind_Raise_inv in H as [H|(tag & _ & H)];
    [right; exact (encode_raises _ _ H)|].
  apply bind_Raise_inv in H as [H|(sep & _ & H)];
    [right; exact (encode_raises _ _ H)|].
  apply bind_Raise_inv in H as [H|(len4 & _ & H)];
    [left; exact (int_to_bytes_little_raises _ _ _ H)|].
  apply bind_Raise_inv in H as [H|(sep' & _ & H)];
    [right; exact (encode_raises _ _ H)|].
  apply bind_Raise_inv in H as [H|([arr i] & _ & H)];
    [right; exact (write_params_raises _ _ _ _ H)|].
  destruct (body m); discriminate H.
Qed.

End codec_properties.

Section codec_witnesses.

Ltac concrete :=
  repeat constructor; cbn; try lia; try discriminate; intuition discriminate.

Lemma to_bytes_layout_witness :
  exists frame,
    to_bytes filtered = Ok frame /\
    length frame = header_length_of (headers filtered) + 0 /\
    slice frame 0 3 = map byte_of_N (lit "res") /\
    index frame 3 = Ok (byte_of_N colon) /\
    index frame 8 = Ok (byte_of_N colon) /\
    slice_from frame (header_length_of (headers filtered)) = [].
Proof.
  apply (to_bytes_layout filtered);
    [now right|concrete|concrete|reflexivity].
Defined.

Lemma round_trip_cuts_values_witness :
  exists frame,
    to_bytes filtered = Ok frame /\
    from_bytes frame
    = Ok (Build (lit "res")
                [(lit "Method", lit "find"); (lit "Filter", lit "name")]
                (Some [])).
Proof.
  apply (round_trip_cuts_values filtered);
    [now right|concrete|concrete|reflexivity].
Defined.

Lemma to_bytes_without_body_witness :
  exists frame,
    to_bytes ping_no_body = Ok frame /\
    to_bytes (with_body ping (Some [])) = Ok frame.
Proof.
  apply (to_bytes_without_body ping);
    [now left|concrete|concrete|reflexivity].
Defined.

Lemma from_bytes_raises_only_witness :
  from_bytes (bytes_lit "xyz") = Raise TypeError /\
  (TypeError = TypeError \/ TypeError = UnicodeDecodeError
   \/ TypeError = IndexError).
Proof.
  split; [reflexivity|].
  apply (from_bytes_raises_only (bytes_lit "xyz")). reflexivity.
Defined.

Lemma from_bytes_truncated_witness :
  from_bytes ping_cut_short = Raise IndexError.
Proof.
  apply (from_bytes_truncated ping_cut_short (lit "req"));
    [now left|reflexivity|vm_compute; lia|vm_compute; lia].
Defined.

Lemma from_bytes_without_headers_witness :
  from_bytes (bytes_lit "res") = Ok (Build (lit "res") [] (Some [])).
Proof.
  apply (from_bytes_without_headers (bytes_lit "res") (lit "res"));
    [now right|reflexivity|vm_compute; lia].
Defined.

Lemma from_bytes_parameter_without_equals_witness :
  from_bytes (frame_of (lit "req") [x0d; x00; x00; x00] [lit "abc"]
                       (bytes_lit "hi"))
  = Raise IndexError.
Proof.
  apply from_bytes_parameter_without_equals;
    [now left|reflexivity|reflexivity|concrete|].
  constructor. cbn. intuition discriminate.
Defined.

Lemma from_bytes_last_value_wins_witness :
  exists m,
    from_bytes (frame_of (lit "req") [x15; x00; x00; x00]
                         (map param_of repeated) [])
    = Ok m /\
    req_res m = lit "req" /\ body m = Some [] /\
    NoDup (keys (headers m)) /\
    forall name,
      get_header_value m name = get (rev (headers_read repeated)) name.
Proof.
  apply (from_bytes_last_value_wins (lit "req") [x15; x00; x00; x00] repeated []);
    [now left|reflexivity|reflexivity|concrete].
Defined.

Lemma to_bytes_overflow_iff_witness :
  to_bytes ping = Raise OverflowError
  <-> ~ fits_uint32 (header_length_of (headers ping)).
Proof.
  apply (to_bytes_overflow_iff ping); [now left|concrete|concrete].
Defined.

Lemma to_bytes_raises_only_witness :
  to_bytes (Build (lit "req") [(lit "a", [0xD800%N])] None)
  = Raise UnicodeEncodeError /\
  (UnicodeEncodeError = OverflowError
   \/ UnicodeEncodeError = UnicodeEncodeError).
Proof.
  split; [reflexivity|].
  apply (to_bytes_raises_only
           (Build (lit "req") [(lit "a", [0xD800%N])] None));
    [concrete|reflexivity].
Defined.

(** With a header that is not ASCII the two frames differ: the colon
    that [None] leaves in place is cut off by the empty body. *)
Example to_bytes_accent_without_body :
  to_bytes (with_body accent None)
  = Ok (bytes_lit "req:" ++ [x0d; x00; x00; x00] ++ bytes_lit ":a="
        ++ [xc3; xa9] ++ bytes_lit ":") /\
  to_bytes (with_body accent (Some []))
  = Ok (bytes_lit "req:" ++ [x0d; x00; x00; x00] ++ bytes_lit ":a="
        ++ [xc3; xa9]).
Proof. split; reflexivity. Qed.

End codec_witnesses.

(* ================================================================== *)
(** * More about the pipeline *)
(* ================================================================== *)

Section pipeline_order.

Variables (fd : nat) (a : address).

(** The handlers of a list run one after the other. *)
Lemma run_handlers_app (hs1 hs2 : list Server.handler) (v : value) (w : World) :
  Server.run_handlers (hs1 ++ hs2) fd a v w
  = bindM (Server.run_handlers hs1 fd a v)
          (fun r => Server.run_handlers hs2 fd a r) w.
Proof.
  revert v w. induction hs1 as [|h hs1 IH]; intros v w; [reflexivity|].
  cbn [app Server.run_handlers]. unfold bindM in *.
  destruct (h fd a v w) as [[[r|e] w1]|]; try reflexivity.
  apply IH.
Qed.

(** X12. Handlers run in the order they were added, each on the result
    of the one before: after [add_handler self h], [handle_client]
    receives, runs the handlers [self] had, then [h] on what they
    returned, then [close_client]. *)
Theorem add_handler_runs_last (self : Server.t) (h : Server.handler)
        (w : World) :
  Server.handle_client (Server.add_handler self h) fd a w
  = bindM (Server.receive_message self fd a)
      (fun message =>
         bindM (Server.run_handlers (Server.handlers self) fd a message)
           (fun r => bindM (h fd a r)
                       (fun _ => Server.close_client self fd a))) w.
Proof.
  unfold Server.handle_client, Server.add_handler.
  cbn [Server.handlers Server.receive_message Server.close_client].
  unfold bindM.
  destruct (Server.receive_message self fd a w) as [[[message|e] w1]|];
    try reflexivity.
  rewrite run_handlers_app. unfold bindM.
  destruct (Server.run_handlers (Server.handlers self) fd a message w1)
    as [[[r|e] w2]|]; try reflexivity.
  cbn [Server.run_handlers]. unfold bindM, ret.
  destruct (h fd a r w2) as [[[r'|e] w3]|]; reflexivity.
Qed.

(** X13. The first handler that raises ends the connection handling:
    when the handlers before it return and it raises, [handle_client]
    raises its exception in the state it left, whatever handlers come
    after it and whatever [close_client] is; none of them runs. *)
Theorem handle_client_stops_at_first_raise
        (hs1 hs2 : list Server.handler) (h : Server.handler)
        (receive : nat -> address -> M value)
        (close : nat -> address -> M unit)
        (w w1 w2 w3 : World) (message r : value) (e : exn) :
  receive fd a w = Some (Ok message, w1) ->
  Server.run_handlers hs1 fd a message w1 = Some (Ok r, w2) ->
  h fd a r w2 = Some (Raise e, w3) ->
  Server.handle_client (Server.Build (hs1 ++ h :: hs2) receive close) fd a w
  = Some (Raise e, w3).
Proof.
  intros Hreceive Hbefore Hraise.
  unfold Server.handle_client.
  cbn [Server.handlers Server.receive_message Server.close_client].
  unfold bindM. rewrite Hreceive, run_handlers_app.
  unfold bindM. rewrite Hbefore.
  cbn [Server.run_handlers]. unfold bindM. rewrite Hraise. reflexivity.
Qed.

End pipeline_order.

Section pipeline_witnesses.

Lemma handle_client_stops_at_first_raise_witness :
  exists w3,
    Server.handle_client ping_service 0 peer
      (arrive world0 0 (bytes_lit "xyz"))
    = Some (Raise TypeError, w3) /\
    socket.closed (sockets w3 0) = false.
Proof.
  eexists. split.
  - eapply (handle_client_stops_at_first_raise 0 peer []
             [CommunicationProtocolServer.session_stage 1 ping_server;
              CommunicationProtocolServer.method_stage ping_server]
             (CommunicationProtocolServer.parse_stage ping_server)
             Server.default_receive_message Server.default_close_client
             (arrive world0 0 (bytes_lit "xyz")));
      [vm_compute; reflexivity|reflexivity|vm_compute; reflexivity].
  - reflexivity.
Defined.

End pipeline_witnesses.

(* ================================================================== *)
(** * More about the session store *)
(* ================================================================== *)

Section store_frames.

Variable self : SessionServer.t.

Lemma set_drawn_same (w : World) : set_drawn w (drawn w) = w.
Proof. now destruct w. Qed.

Lemma token_of_draws_S (w : World) (n : nat) :
  token_of_draws w (S n)
  = nth (entropy w (drawn w) mod 62) SessionServer.characters 0%N
    :: token_of_draws (set_drawn w (S (drawn w))) n.
Proof.
  unfold token_of_draws. cbn [seq map]. rewrite Nat.add_0_r. f_equal.
  rewrite <- seq_shift, map_map. apply map_ext. intros j.
  cbn [drawn set_drawn entropy]. now rewrite Nat.add_succ_r.
Qed.

Lemma length_token_of_draws (w : World) (n : nat) :
  length (token_of_draws w n) = n.
Proof. unfold token_of_draws. now rewrite length_map, length_seq. Qed.

(** The draws of a token, one character of [characters] for each. *)
Lemma draw_token_exact (n : nat) (token : str) (w : World) :
  SessionServer.draw_token n token w
  = Some (Ok (token ++ token_of_draws w n), set_drawn w (drawn w + n)).
Proof.
  revert token w. induction n as [|n IH]; intros token w.
  - cbn [SessionServer.draw_token]. unfold ret, token_of_draws. cbn [seq map].
    now rewrite app_nil_r, Nat.add_0_r, set_drawn_same.
  - cbn [SessionServer.draw_token]. unfold bindM, SessionServer.randint.
    rewrite length_characters. cbn [Nat.sub Nat.add].
    unfold lift, index.
    rewrite (nth_error_nth' SessionServer.characters 0%N)
      by (rewrite length_characters; apply Nat.mod_upper_bound; discriminate).
    rewrite IH, token_of_draws_S, <- app_assoc.
    cbn [app drawn set_drawn]. unfold set_drawn at 2.
    cbn [sessions sockets clock entropy stdout].
    now rewrite Nat.add_succ_r.
Qed.

(** [generate_session_token] only draws. *)
Lemma generate_session_token_loop_frame (fuel : nat) (len : Z) (token : str)
      (w w' : World) (r : result (list N)) :
  SessionServer.generate_session_token_loop fuel len token w = Some (r, w') ->
  exists k, w' = set_drawn w k.
Proof.
  revert token w. induction fuel as [|fuel IH]; intros token w;
    cbn [SessionServer.generate_session_token_loop];
    destruct (contains (sessions w) token || str_eqb token empty_str);
    try discriminate;
    try (intros H; injection H as <- <-; exists (drawn w);
         symmetry; apply set_drawn_same).
  unfold bindM. rewrite draw_token_exact. intros H.
  apply IH in H as [k ->]. now exists k.
Qed.

(** The state [create_session] leaves: a new entry at the end of the
    map, made at the time of the call, and some draws used. *)
Lemma create_session_exact (fuel : nat) (w w' : World) (r : result (list N)) :
  SessionServer.create_session fuel self w = Some (r, w') ->
  exists token k,
    r = Ok token /\
    get (sessions w) token = None /\
    w' = set_sessions (set_drawn w k)
           (sessions w ++ [(token, Session.__init__ (clock w))]).
Proof.
  unfold SessionServer.create_session, SessionServer.generate_session_token.
  unfold bindM.
  destruct (SessionServer.generate_session_token_loop fuel
              (SessionServer.session_token_length self) empty_str w)
    as [[r1 w1]|] eqn:E; [|discriminate].
  destruct (generate_session_token_loop_frame _ _ _ _ _ _ E) as [k ->].
  apply generate_session_token_loop_spec in E; [|now left].
  destruct E as (tok & -> & _ & _ & Hget & _).
  intros H. injection H as <- <-.
  exists tok, k. split; [reflexivity|]. split; [exact Hget|].
  cbn [sessions set_drawn clock].
  now rewrite setitem_fresh by (now apply get_None_not_key).
Qed.

Lemma remove_app (V : Type) (d1 d2 : dict V) (k : str) :
  remove (d1 ++ d2) k = remove d1 k ++ remove d2 k.
Proof. apply filter_app. Qed.

End store_frames.

Section store_properties.

Variable self : SessionServer.t.

(** X14. A session [create_session] opens is found under the token it
    returned, with no data and the time of the call as its creation
    date; the token is added at the end of the map, every other token
    finds what it found before, and the clock, the sockets and the
    output are left alone. *)
Theorem create_session_then_get (fuel : nat) (w w' : World) (token : str) :
  SessionServer.create_session fuel self w = Some (Ok token, w') ->
  SessionServer.get_session self token w' = Some (Session.Build [] (clock w)) /\
  (forall t, t <> token ->
     SessionServer.get_session self t w' = SessionServer.get_session self t w) /\
  keys (sessions w') = keys (sessions w) ++ [token] /\
  clock w' = clock w /\ sockets w' = sockets w /\ stdout w' = stdout w.
Proof.
  intros H. apply create_session_exact in H as (tok & k & E & Hget & ->).
  injection E as <-. unfold SessionServer.get_session.
  cbn [sessions set_sessions set_drawn clock sockets stdout].
  split; [|split; [|split; [|repeat split]]].
  - rewrite get_app_r by (now apply get_None_not_key). apply get_head.
  - intros t Ht. rewrite get_app. destruct (get (sessions w) t); [reflexivity|].
    cbn [get]. apply str_eqb_neq in Ht. now rewrite Ht.
  - unfold keys. now rewrite map_app.
Qed.

(** X15. Closing the session [create_session] has just opened returns
    and leaves the session map as it was before the session was
    opened. *)
Theorem create_then_close_session (fuel : nat) (w w' : World) (token : str) :
  SessionServer.create_session fuel self w = Some (Ok token, w') ->
  exists w'',
    SessionServer.close_session self token w' = Some (Ok tt, w'') /\
    sessions w'' = sessions w.
Proof.
  intros H. apply create_session_exact in H as (tok & k & E & Hget & ->).
  injection E as <-. eexists. split.
  - apply (close_session_present self token _ (Session.__init__ (clock w))).
    unfold SessionServer.get_session. cbn [sessions set_sessions].
    rewrite get_app_r by (now apply get_None_not_key). apply get_head.
  - cbn [sessions set_sessions]. rewrite remove_app.
    rewrite (remove_absent _ _ Hget). unfold remove. cbn [filter fst].
    rewrite str_eqb_refl. cbn [negb]. apply app_nil_r.
Qed.

(** X16. How a token is made: with a positive token length, when the
    string the next draws spell is not the token of a session,
    [create_session] returns it after one round of its loop; its
    [j]-th character is [characters[d mod 62]] for the [j]-th draw [d],
    and exactly as many draws as the token is long are used. *)
Theorem create_session_first_draw (fuel : nat) (w : World) :
  let n := Z.to_nat (SessionServer.session_token_length self) in
  (0 < SessionServer.session_token_length self)%Z ->
  SessionServer.get_session self (token_of_draws w n) w = None ->
  SessionServer.create_session (S fuel) self w
  = Some (Ok (token_of_draws w n),
          set_sessions (set_drawn w (drawn w + n))
            (sessions w ++ [(token_of_draws w n, Session.__init__ (clock w))])).
Proof.
  intros n Hlen Hget. unfold SessionServer.get_session in Hget.
  unfold SessionServer.create_session, SessionServer.generate_session_token.
  cbn [SessionServer.generate_session_token_loop].
  unfold bindM at 1. cbv beta.
  change (str_eqb empty_str empty_str) with true. rewrite orb_true_r.
  unfold bindM at 1. rewrite draw_token_exact. cbn [app]. fold n.
  assert (Hfresh : contains (sessions (set_drawn w (drawn w + n)))
                            (token_of_draws w n)
                   || str_eqb (token_of_draws w n) empty_str = false).
  { cbn [sessions set_drawn]. unfold contains. rewrite Hget. cbn [orb].
    apply str_eqb_neq. intros E.
    pose proof (length_token_of_draws w n) as Hl. rewrite E in Hl.
    cbn in Hl. lia. }
  destruct fuel as [|fuel]; cbn [SessionServer.generate_session_token_loop];
    rewrite Hfresh; cbn [sessions set_drawn clock];
    now rewrite setitem_fresh by (now apply get_None_not_key).
Qed.

End store_properties.

Section store_witnesses.

Lemma create_session_then_get_witness :
  exists w',
    SessionServer.create_session 1 store8 world0
    = Some (Ok (lit "abcdefgh"), w') /\
    SessionServer.get_session store8 (lit "abcdefgh") w'
    = Some (Session.Build [] 0).
Proof.
  eexists. split; [vm_compute; reflexivity|].
  refine (proj1 (create_session_then_get store8 1 world0 _ (lit "abcdefgh") _)).
  vm_compute. reflexivity.
Defined.

Lemma create_then_close_session_witness :
  exists w' w'',
    SessionServer.create_session 1 store8 world0
    = Some (Ok (lit "abcdefgh"), w') /\
    SessionServer.close_session store8 (lit "abcdefgh") w' = Some (Ok tt, w'') /\
    sessions w'' = [].
Proof.
  eexists.
  assert (H : SessionServer.create_session 1 store8 world0
              = Some (Ok (lit "abcdefgh"), one_session))
    by (vm_compute; reflexivity).
  destruct (create_then_close_session store8 1 world0 one_session
              (lit "abcdefgh") H) as (w'' & Hclose & Hs).
  exists w''. split; [exact H|]. split; [exact Hclose|exact Hs].
Defined.

Lemma create_session_first_draw_witness :
  token_of_draws one_session 8 = lit "ijklmnop" /\
  exists w',
    SessionServer.create_session 1 store8 one_session
    = Some (Ok (lit "ijklmnop"), w') /\
    drawn w' = 16.
Proof.
  split; [vm_compute; reflexivity|].
  eexists. split.
  - apply (create_session_first_draw store8 0 one_session);
      [reflexivity|vm_compute; reflexivity].
  - reflexivity.
Defined.

End store_witnesses.

(* ================================================================== *)
(** * More about the cleanup thread *)
(* ================================================================== *)

Section lone_cleanup_facts.

Variable self : SessionServer.t.
Variable env : SessionServer.schedule.
Hypothesis env_still : still env.

Lemma filter_filter_and A (f g : A -> bool) (l : list A) :
  filter f (filter g l) = filter (fun x => g x && f x) l.
Proof.
  induction l as [|x l IH]; [reflexivity|]. cbn [filter].
  destruct (g x); cbn [filter andb]; [|exact IH].
  destruct (f x); now rewrite IH.
Qed.

(** Removing tokens one after the other filters the map. *)
Lemma fold_remove (V : Type) (toks : list str) (d : dict V) :
  fold_left (fun d t => remove d t) toks d
  = filter (fun kv => negb (existsb (str_eqb (fst kv)) toks)) d.
Proof.
  revert d. induction toks as [|t toks IH]; intros d; cbn [fold_left existsb].
  - symmetry. apply forallb_filter_id. now apply forallb_forall.
  - rewrite IH. unfold remove. rewrite filter_filter_and.
    apply filter_ext. intros [k v]. cbn [fst].
    rewrite negb_orb. f_equal. f_equal.
    destruct (str_eqb t k) eqn:E.
    + apply str_eqb_eq in E as ->. symmetry. apply str_eqb_refl.
    + symmetry. apply str_eqb_neq. apply str_eqb_neq in E. congruence.
Qed.

(** In a dictionary, the keys of the entries a test selects select the
    same entries. *)
Lemma filter_by_selected_keys (V : Type) (f : str * V -> bool) (d : dict V) :
  NoDup (keys d) ->
  filter (fun kv => negb (existsb (str_eqb (fst kv)) (keys (filter f d)))) d
  = filter (fun kv => negb (f kv)) d.
Proof.
  intros Hnd. apply filter_ext_in. intros [k v] Hin. f_equal. cbn [fst].
  destruct (f (k, v)) eqn:Ef.
  - apply existsb_exists. exists k. split; [|apply str_eqb_refl].
    unfold keys. apply in_map_iff. exists (k, v). split; [reflexivity|].
    apply filter_In. now split.
  - destruct (existsb (str_eqb k) (keys (filter f d))) eqn:Ex; [|reflexivity].
    apply existsb_exists in Ex as (k' & Hk' & E).
    apply str_eqb_eq in E as <-.
    unfold keys in Hk'. apply in_map_iff in Hk' as ([k' v'] & Hfst & Hin').
    cbn [fst] in Hfst. subst k'.
    apply filter_In in Hin' as [Hin' Ef'].
    pose proof (get_In d k v Hnd Hin) as G1.
    pose proof (get_In d k v' Hnd Hin') as G2.
    rewrite G1 in G2. injection G2 as <-. congruence.
Qed.

Lemma NoDup_keys_filter (V : Type) (f : str * V -> bool) (d : dict V) :
  NoDup (keys d) -> NoDup (keys (filter f d)).
Proof.
  unfold keys. induction d as [|kv d IH]; cbn [map filter]; [trivial|].
  intros Hnd. inversion Hnd as [|? ? Hnotin Hnd']; subst.
  destruct (f kv); [|now apply IH].
  cbn [map]. constructor; [|now apply IH].
  intros Hin. apply Hnotin. apply in_map_iff in Hin as (kv' & E & Hin).
  apply in_map_iff. exists kv'. split; [exact E|].
  now apply filter_In in Hin as [Hin _].
Qed.

Lemma incl_keys_filter (V : Type) (f : str * V -> bool) (d : dict V) :
  incl (keys (filter f d)) (keys d).
Proof.
  intros k Hin. unfold keys in *. apply in_map_iff in Hin as (kv & E & Hin).
  apply in_map_iff. exists kv. split; [exact E|].
  now apply filter_In in Hin as [Hin _].
Qed.

(** What a test keeps of a dictionary, seen through [get]. *)
Lemma get_filter_dict (V : Type) (f : str * V -> bool) (d : dict V) (k : str) :
  NoDup (keys d) ->
  get (filter f d) k
  = match get d k with
    | Some v => if f (k, v) then Some v else None
    | None => None
    end.
Proof.
  induction d as [|[k' v'] d IH]; [reflexivity|].
  intros Hnd. unfold keys in Hnd. cbn [map fst] in Hnd.
  inversion Hnd as [|? ? Hnotin Hnd']; subst.
  cbn [filter get]. destruct (str_eqb k k') eqn:E.
  - apply str_eqb_eq in E as <-.
    destruct (f (k, v')) eqn:Ef.
    + cbn [get]. now rewrite str_eqb_refl.
    + apply get_not_key. intros Hin. apply Hnotin.
      now apply incl_keys_filter in Hin.
  - destruct (f (k', v')) eqn:Ef.
    + cbn [get]. rewrite E. now apply IH.
    + now apply IH.
Qed.

(** Alone, the scan collects the tokens of the expired sessions, in the
    order of the map. *)
Lemma scan_still (size0 k i pc : nat) (acc : list str) (w : World) :
  length (sessions w) = size0 -> i + k = size0 ->
  exists pc',
    SessionServer.scan env self size0 k i pc acc w
    = (Ok (acc ++ keys (filter (expired_entry self (clock w))
                               (skipn i (sessions w)))), w, pc').
Proof.
  revert i pc acc. induction k as [|k IH]; intros i pc acc Hsize Hik;
    cbn [SessionServer.scan]; rewrite (env_still pc w), Hsize, Nat.eqb_refl;
    cbn [negb].
  - exists (S pc). rewrite skipn_all2 by lia. cbn [filter keys map].
    now rewrite app_nil_r.
  - destruct (nth_error (sessions w) i) as [[token session]|] eqn:Hnth.
    + rewrite (skipn_nth_error _ _ _ _ Hnth). cbn [filter].
      unfold expired_entry at 1, expired. cbn [snd].
      destruct (IH (S i) (S pc)
                  (if (Session.seconds_alive session (clock w)
                       >? SessionServer.microseconds
                            (SessionServer.session_ttl self))%Z
                   then acc ++ [token] else acc) Hsize ltac:(lia))
        as [pc' ->].
      exists pc'. f_equal. f_equal. f_equal.
      destruct (_ >? _)%Z; [|reflexivity].
      unfold keys. cbn [map fst]. now rewrite <- app_assoc.
    + apply nth_error_None in Hnth. lia.
Qed.

(** Alone, every collected token is removed, and a line is printed for
    each. *)
Lemma remove_expired_still (toks : list str) (pc : nat) (w : World) :
  NoDup toks -> incl toks (keys (sessions w)) ->
  exists pc',
    SessionServer.remove_expired env toks pc w
    = (Ok tt,
       mkWorld (fold_left (fun d t => remove d t) toks (sessions w))
               (sockets w) (clock w) (entropy w) (drawn w)
               (stdout w ++ map deleted_line toks),
       pc').
Proof.
  revert pc w. induction toks as [|token toks IH]; intros pc w Hnd Hincl;
    cbn [SessionServer.remove_expired].
  - exists pc. cbn [fold_left map]. rewrite app_nil_r. now destruct w.
  - rewrite (env_still pc w). unfold pop. cbn [sessions print].
    destruct (get_key (sessions w) token (Hincl token (or_introl eq_refl)))
      as [s ->].
    edestruct (IH (S pc)
                 (set_sessions
                    (print w (lit "Deleted session with token=" ++ token))
                    (remove (sessions w) token))) as [pc' E].
    + now inversion Hnd.
    + intros t Ht. cbn [sessions set_sessions].
      rewrite keys_remove. apply filter_In. split.
      * apply Hincl. now right.
      * apply negb_true_iff, str_eqb_neq. intros <-.
        inversion Hnd. contradiction.
    + exists pc'. unfold print in *. rewrite E.
      cbn [sessions set_sessions sockets clock entropy drawn stdout
           fold_left map].
      now rewrite <- app_assoc.
Qed.

(** One round of the cleanup thread that runs alone. *)
Lemma sweep_still (pc : nat) (w : World) :
  store_ok w ->
  exists pc',
    SessionServer.sweep env self pc w
    = (SessionServer.Looping,
       mkWorld (filter (live_entry self (clock w)) (sessions w))
               (sockets w) (clock w + 5000000)%Z (entropy w) (drawn w)
               (stdout w
                ++ map deleted_line
                       (keys (filter (expired_entry self (clock w))
                                     (sessions w)))),
       pc').
Proof.
  intros Hok. unfold SessionServer.sweep.
  destruct (scan_still (length (sessions w)) (length (sessions w)) 0 pc [] w
              eq_refl eq_refl) as [pc1 ->].
  cbn [app skipn].
  destruct (remove_expired_still
              (keys (filter (expired_entry self (clock w)) (sessions w)))
              pc1 w (NoDup_keys_filter _ _ _ Hok) (incl_keys_filter _ _ _))
    as [pc2 ->].
  unfold SessionServer.sleep. rewrite env_still. exists (S pc2).
  unfold set_clock, SessionServer.microseconds.
  cbn [sessions sockets clock entropy drawn stdout].
  rewrite fold_remove, (filter_by_selected_keys _ _ _ Hok).
  reflexivity.
Qed.

Lemma expired_later (now later : Z) (s : Session.t) :
  (now <= later)%Z -> expired self now s = true -> expired self later s = true.
Proof.
  unfold expired, Session.seconds_alive. intros Hle H.
  apply Z.gtb_lt in H. apply Z.gtb_lt. lia.
Qed.

Lemma filter_live_twice (now later : Z) (d : dict Session.t) :
  (now <= later)%Z ->
  filter (live_entry self later) (filter (live_entry self now) d)
  = filter (live_entry self later) d.
Proof.
  intros Hle. rewrite filter_filter_and. apply filter_ext. intros kv.
  unfold live_entry.
  destruct (expired self now (snd kv)) eqn:E; [|reflexivity].
  now rewrite (expired_later _ _ _ Hle E).
Qed.

End lone_cleanup_facts.

Section lone_cleanup.

Variable self : SessionServer.t.
Variable env : SessionServer.schedule.



End lone_cleanup.

Section lone_cleanup_witnesses.



End lone_cleanup_witnesses.

(* ================================================================== *)
(** * More about the dispatcher *)
(* ================================================================== *)

Section dispatcher_properties.

Variable self : CommunicationProtocolServer.t.
Variables (fd : nat) (a : address).

(** X19. Registering a method and looking it up: after
    [handle_method self name f] the method [name] is handled by [f],
    also when it was registered before; every other method is handled
    as before, a request without a [Method] header finds no function,
    and the session store is the same. *)
Theorem handle_method_then_lookup (name : str)
        (f : CommunicationProtocolServer.method_function) :
  CommunicationProtocolServer.lookup_method
    (CommunicationProtocolServer.handle_method self name f) (Some name)
  = Ok f /\
  (forall other, other <> name ->
     CommunicationProtocolServer.lookup_method
       (CommunicationProtocolServer.handle_method self name f) (Some other)
     = CommunicationProtocolServer.lookup_method self (Some other)) /\
  CommunicationProtocolServer.lookup_method
    (CommunicationProtocolServer.handle_method self name f) None
  = Raise KeyError /\
  CommunicationProtocolServer.base
    (CommunicationProtocolServer.handle_method self name f)
  = CommunicationProtocolServer.base self.
Proof.
  unfold CommunicationProtocolServer.lookup_method,
    CommunicationProtocolServer.handle_method, getitem.
  cbn [CommunicationProtocolServer.method_handlers
       CommunicationProtocolServer.base].
  split; [now rewrite get_setitem_same|].
  split; [|split; reflexivity].
  intros other Hne. now rewrite get_setitem_other.
Qed.

(** X20. A request for a method nobody registered, or without a
    [Method] header: with a non-empty [Session] header,
    [method_handler] raises [KeyError] and the process is as before;
    nothing was sent and no session was closed, whatever the [Session]
    header asked for. *)
Theorem method_handler_unknown_method (req : CommunicationProtocol.t)
        (w : World) (c : N) (rest : str) :
  get_header_value req (lit "Session") = Some (c :: rest) ->
  (forall name, get_header_value req (lit "Method") = Some name ->
     get (CommunicationProtocolServer.method_handlers self) name = None) ->
  CommunicationProtocolServer.method_handler self fd a req w
  = Some (Raise KeyError, w).
Proof.
  intros Hsession Hmethod.
  unfold CommunicationProtocolServer.method_handler.
  rewrite Hsession.
  cbn [CommunicationProtocolServer.first_character index nth_error lift].
  unfold bindM at 1, lift. cbv beta iota.
  unfold bindM at 1. cbv beta iota.
  unfold CommunicationProtocolServer.lookup_method, getitem.
  destruct (get_header_value req (lit "Method")) as [name|];
    [|reflexivity].
  now rewrite (Hmethod name eq_refl).
Qed.

(** X21. A request that names a session, or none with ["-"]: when the
    [Session] header does not start with ['~'], the method function
    gets the session the store holds for the header value ([None] for
    ["-"] and for a token the store does not know), the frame of the
    response is sent on the socket, and the session map is as the
    method function left it. *)
Theorem method_handler_keeps_session (req req2 res2 : CommunicationProtocol.t)
        (w w2 : World) (c : N) (rest : str) (frame : bytes)
        (f : CommunicationProtocolServer.method_function) :
  get_header_value req (lit "Session") = Some (c :: rest) ->
  c <> tilde ->
  CommunicationProtocolServer.lookup_method self
    (get_header_value req (lit "Method")) = Ok f ->
  f req (fresh_response (c :: rest))
    (if str_eqb (c :: rest) (lit "-") then None
     else SessionServer.get_session (CommunicationProtocolServer.base self)
                                    (c :: rest) w) w
  = Some (Ok (req2, res2), w2) ->
  get_header_value req2 (lit "Session") = Some (c :: rest) ->
  to_bytes res2 = Ok frame ->
  socket.closed (sockets w2 fd) = false ->
  CommunicationProtocolServer.method_handler self fd a req w
  = Some (Ok (req2, res2), sent w2 fd frame) /\
  sessions (sent w2 fd frame) = sessions w2 /\
  socket.written (sockets (sent w2 fd frame) fd)
  = socket.written (sockets w2 fd) ++ [frame].
Proof.
  intros Hsession Hc Hmethod Hf Hkeep Hframe Hopen.
  apply N.eqb_neq in Hc.
  rewrite (method_handler_dispatch self fd a req w c rest f Hsession Hmethod).
  rewrite Hc. unfold bindM at 1.
  replace (if negb (str_eqb (c :: rest) (lit "-"))
           then SessionServer.get_session (CommunicationProtocolServer.base self)
                                          (c :: rest) w
           else None)
    with (if str_eqb (c :: rest) (lit "-") then None
          else SessionServer.get_session (CommunicationProtocolServer.base self)
                                         (c :: rest) w)
    by (now destruct (str_eqb (c :: rest) (lit "-"))).
  rewrite Hf.
  rewrite (send_response_spec self fd _ req2 res2 w2 frame c rest
             Hframe Hopen Hkeep).
  rewrite Hc. split; [reflexivity|]. split; [reflexivity|].
  unfold sent, set_socket. cbn [sockets]. now rewrite Nat.eqb_refl.
Qed.

(** X22. A request that ends its session, ["~" + token]: the response
    is sent first; then the session of the token is removed and
    [method_handler] returns, or, when the store has no session for the
    token, [KeyError] is raised, after the response went out. *)
Theorem method_handler_closes_after_sending
        (req req2 res2 : CommunicationProtocol.t)
        (w w2 : World) (token : str) (frame : bytes)
        (f : CommunicationProtocolServer.method_function) :
  get_header_value req (lit "Session") = Some (tilde :: token) ->
  CommunicationProtocolServer.lookup_method self
    (get_header_value req (lit "Method")) = Ok f ->
  f req (fresh_response token)
    (if str_eqb token (lit "-") then None
     else SessionServer.get_session (CommunicationProtocolServer.base self)
                                    token w) w
  = Some (Ok (req2, res2), w2) ->
  get_header_value req2 (lit "Session") = Some (tilde :: token) ->
  to_bytes res2 = Ok frame ->
  socket.closed (sockets w2 fd) = false ->
  CommunicationProtocolServer.method_handler self fd a req w
  = match SessionServer.get_session (CommunicationProtocolServer.base self)
                                    token w2 with
    | Some _ =>
        Some (Ok (req2, res2),
              set_sessions (sent w2 fd frame) (remove (sessions w2) token))
    | None => Some (Raise KeyError, sent w2 fd frame)
    end.
Proof.
  intros Hsession Hmethod Hf Hkeep Hframe Hopen.
  rewrite (method_handler_dispatch self fd a req w tilde token f
             Hsession Hmethod).
  rewrite N.eqb_refl. unfold bindM at 1.
  replace (if negb (str_eqb token (lit "-"))
           then SessionServer.get_session (CommunicationProtocolServer.base self)
                                          token w
           else None)
    with (if str_eqb token (lit "-") then None
          else SessionServer.get_session (CommunicationProtocolServer.base self)
                                         token w)
    by (now destruct (str_eqb token (lit "-"))).
  rewrite Hf.
  rewrite (send_response_spec self fd _ req2 res2 w2 frame tilde token
             Hframe Hopen Hkeep).
  rewrite N.eqb_refl. unfold bindM.
  destruct (SessionServer.get_session (CommunicationProtocolServer.base self)
              token w2) as [s|] eqn:G.
  - rewrite (close_session_present _ token (sent w2 fd frame) s) by exact G.
    reflexivity.
  - rewrite (close_session_absent _ token (sent w2 fd frame)) by exact G.
    reflexivity.
Qed.

(** X23. When the response does not go out, no session is closed: if
    the method function raises, if the response it filled cannot be
    framed, or if the socket is closed, [method_handler] raises in the
    state the method function left, also for a ["~" + token]
    request. *)
Theorem method_handler_no_response_no_close
        (req : CommunicationProtocol.t) (w w2 : World) (c : N) (rest : str)
        (f : CommunicationProtocolServer.method_function)
        (r : result (CommunicationProtocol.t * CommunicationProtocol.t)) :
  get_header_value req (lit "Session") = Some (c :: rest) ->
  CommunicationProtocolServer.lookup_method self
    (get_header_value req (lit "Method")) = Ok f ->
  let session_token := if (c =? tilde)%N then rest else c :: rest in
  f req (fresh_response session_token)
    (if str_eqb session_token (lit "-") then None
     else SessionServer.get_session (CommunicationProtocolServer.base self)
                                    session_token w) w
  = Some (r, w2) ->
  match r with
  | Raise e =>
      CommunicationProtocolServer.method_handler self fd a req w
      = Some (Raise e, w2)
  | Ok (req2, res2) =>
      match to_bytes res2 with
      | Raise e =>
          CommunicationProtocolServer.method_handler self fd a req w
          = Some (Raise e, w2)
      | Ok frame =>
          socket.closed (sockets w2 fd) = true ->
          CommunicationProtocolServer.method_handler self fd a req w
          = Some (Raise OSError, w2)
      end
  end.
Proof.
  intros Hsession Hmethod session_token Hf.
  assert (E : CommunicationProtocolServer.method_handler self fd a req w
              = match r with
                | Raise e => Some (Raise e, w2)
                | Ok (req2, res2) =>
                    CommunicationProtocolServer.send_response self fd
                      session_token req2 res2 w2
                end).
  { rewrite (method_handler_dispatch self fd a req w c rest f Hsession Hmethod).
    fold session_token. unfold bindM at 1.
    replace (if negb (str_eqb session_token (lit "-"))
             then SessionServer.get_session
                    (CommunicationProtocolServer.base self) session_token w
             else None)
      with (if str_eqb session_token (lit "-") then None
            else SessionServer.get_session
                   (CommunicationProtocolServer.base self) session_token w)
      by (now destruct (str_eqb session_token (lit "-"))).
    rewrite Hf. now destruct r as [[req2 res2]|e]. }
  rewrite E. clear E. destruct r as [[req2 res2]|e]; [|reflexivity].
  unfold CommunicationProtocolServer.send_response.
  unfold bindM at 1, lift.
  destruct (to_bytes res2) as [frame|e]; [|reflexivity].
  intros Hclosed. unfold bindM at 1, sock.send. now rewrite Hclosed.
Qed.

(** X24. What the three handlers of the server do together, on the
    bytes of a message: a message [from_bytes] refuses ends the
    pipeline with its exception and the process unchanged; a request
    whose [Session] header is not ["*"] goes to [method_handler] as it
    was read; for ["*"], [create_session] runs first and
    [method_handler] gets the request with the new token in its
    [Session] header. *)
Theorem handlers_parse_open_dispatch (fuel : nat) (message : bytes)
        (w : World) :
  Server.run_handlers (CommunicationProtocolServer.handlers fuel self) fd a
                      (Bytes message) w
  = match from_bytes message with
    | Raise e => Some (Raise e, w)
    | Ok req =>
        if match get_header_value req (lit "Session") with
           | Some v => str_eqb v (lit "*")
           | None => false
           end
        then
          bindM (SessionServer.create_session fuel
                   (CommunicationProtocolServer.base self))
            (fun token =>
               bindM (CommunicationProtocolServer.method_handler self fd a
                        (set_header_value req (lit "Session") token))
                     as_value) w
        else
          bindM (CommunicationProtocolServer.method_handler self fd a req)
                as_value w
    end.
Proof.
  unfold CommunicationProtocolServer.handlers.
  cbn [Server.run_handlers].
  unfold bindM at 1. unfold CommunicationProtocolServer.parse_stage at 1.
  unfold CommunicationProtocolServer.parse_message, bindM at 1, lift.
  destruct (from_bytes message) as [req|e]; [|reflexivity].
  unfold ret at 1.
  unfold bindM at 1. unfold CommunicationProtocolServer.session_stage at 1.
  unfold CommunicationProtocolServer.session_generator.
  assert (Hlast : forall req' w',
             bindM (CommunicationProtocolServer.method_stage self fd a
                      (Message req')) (fun r => ret r) w'
             = bindM (CommunicationProtocolServer.method_handler self fd a req')
                     as_value w').
  { intros req' w'. unfold CommunicationProtocolServer.method_stage, bindM.
    destruct (CommunicationProtocolServer.method_handler self fd a req' w')
      as [[[[req2 res2]|e] w2]|]; reflexivity. }
  destruct (get_header_value req (lit "Session")) as [v|].
  - destruct (str_eqb v (lit "*")).
    + unfold bindM at 1 2 4.
      destruct (SessionServer.create_session fuel
                  (CommunicationProtocolServer.base self) w)
        as [[[token|e] w1]|]; try reflexivity.
      unfold ret at 1 2. apply Hlast.
    + unfold bindM at 1, ret at 1 2. apply Hlast.
  - unfold bindM at 1, ret at 1 2. apply Hlast.
Qed.

End dispatcher_properties.

Section dispatcher_witnesses.

Lemma method_handler_unknown_method_witness :
  get_header_value
    (Build (lit "req") [(lit "Method", lit "nope"); (lit "Session", lit "~abcdefgh")]
           None) (lit "Session") = Some (lit "~abcdefgh") /\
  CommunicationProtocolServer.method_handler ping_server 0 peer
    (Build (lit "req") [(lit "Method", lit "nope"); (lit "Session", lit "~abcdefgh")]
           None) one_session
  = Some (Raise KeyError, one_session).
Proof.
  split; [reflexivity|].
  apply (method_handler_unknown_method ping_server 0 peer _ one_session
           126%N (lit "abcdefgh")); [reflexivity|].
  intros name H. injection H as <-. reflexivity.
Defined.

Lemma method_handler_keeps_session_witness :
  exists res2 w3,
    CommunicationProtocolServer.method_handler ping_server 0 peer
      (ping_with (lit "abcdefgh")) one_session = Some (Ok (ping_with (lit "abcdefgh"), res2), w3) /\
    sessions w3 = sessions one_session /\
    length (socket.written (sockets w3 0)) = 1.
Proof.
  do 2 eexists.
  edestruct (method_handler_keeps_session ping_server 0 peer
               (ping_with (lit "abcdefgh")) (ping_with (lit "abcdefgh"))
               (snd (match pong (ping_with (lit "abcdefgh"))
                             (fresh_response (lit "abcdefgh")) None one_session
                     with Some (Ok p, _) => p
                     | _ => (ping, ping) end))
               one_session one_session 97%N (lit "bcdefgh"))
    as (E & Hs & Hw);
    [reflexivity|discriminate|reflexivity|vm_compute; reflexivity
    |reflexivity|vm_compute; reflexivity|reflexivity|].
  split; [exact E|]. split; [exact Hs|]. rewrite Hw. reflexivity.
Defined.

Lemma method_handler_closes_after_sending_witness :
  exists w3,
    CommunicationProtocolServer.method_handler ping_server 0 peer
      (ping_with (lit "~nosuchtk")) one_session = Some (Raise KeyError, w3) /\
    length (socket.written (sockets w3 0)) = 1 /\
    sessions w3 = sessions one_session.
Proof.
  eexists. split.
  - eapply (method_handler_closes_after_sending ping_server 0 peer
              (ping_with (lit "~nosuchtk")) (ping_with (lit "~nosuchtk"))
              (snd (match pong (ping_with (lit "~nosuchtk"))
                            (fresh_response (lit "nosuchtk")) None one_session
                    with Some (Ok p, _) => p
                    | _ => (ping, ping) end))
              one_session one_session (lit "nosuchtk"));
      [reflexivity|reflexivity|vm_compute; reflexivity
      |reflexivity|vm_compute; reflexivity|reflexivity].
  - split; reflexivity.
Defined.

Lemma method_handler_no_response_no_close_witness :
  CommunicationProtocolServer.method_handler failing_server 0 peer
    (Build (lit "req") [(lit "Method", lit "fail"); (lit "Session", lit "~abcdefgh")]
           None) one_session
  = Some (Raise OSError, one_session) /\
  CommunicationProtocolServer.method_handler ping_server 0 peer
    (ping_with (lit "~abcdefgh")) hung_up
  = Some (Raise OSError, hung_up).
Proof.
  split.
  - apply (method_handler_no_response_no_close failing_server 0 peer
             (Build (lit "req")
                    [(lit "Method", lit "fail"); (lit "Session", lit "~abcdefgh")]
                    None)
             one_session one_session 126%N (lit "abcdefgh") failing
             (Raise OSError)); reflexivity.
  - refine (method_handler_no_response_no_close ping_server 0 peer
              (ping_with (lit "~abcdefgh")) hung_up hung_up 126%N
              (lit "abcdefgh") pong
              (match pong (ping_with (lit "~abcdefgh"))
                          (fresh_response (lit "abcdefgh"))
                          (Some (Session.__init__ 0)) hung_up with
               | Some (r, _) => r
               | None => Raise OSError
               end)
              eq_refl eq_refl eq_refl eq_refl).
Defined.

End dispatcher_witnesses.

(* ================================================================== *)
(** * The framed read *)
(* ================================================================== *)

Section framed_text.

Lemma bytes_eqb_eq (x y : bytes) : FramedRead.bytes_eqb x y = true <-> x = y.
Proof.
  revert y. induction x as [|b x IH]; intros [|c y]; cbn; try easy.
  rewrite andb_true_iff, IH. split.
  - intros [Hb ->]. apply byte_dec_bl in Hb. now subst.
  - intros [= -> ->]. split; [now apply byte_dec_lb|reflexivity].
Qed.

Lemma decode_ascii (s : str) :
  ascii_text s -> decode (map byte_of_N s) = Ok s.
Proof.
  induction 1 as [|c s Hc _ IH]; [reflexivity|].
  cbn [map decode]. cbv zeta.
  rewrite to_N_byte_of_N by lia.
  destruct (N.ltb_spec c 0x80); [|lia].
  now rewrite IH.
Qed.

Lemma wire_header_text (ps : list str) :
  wire ps = map byte_of_N (header_text ps).
Proof.
  unfold wire, header_text. induction ps as [|p ps IH]; [reflexivity|].
  cbn [flat_map]. now rewrite IH, !map_app.
Qed.

Lemma ascii_header_text (ps : list str) :
  Forall ascii_text ps -> ascii_text (header_text ps).
Proof.
  unfold header_text. induction 1 as [|p ps Hp _ IH]; [constructor|].
  cbn [flat_map]. apply Forall_app. split; [|exact IH].
  apply Forall_app. split; [exact Hp|]. repeat constructor.
Qed.

Lemma split_header_text (ps : list str) :
  Forall (fun p => ~ In colon p) ps ->
  split colon (header_text ps) = ps ++ [[]].
Proof.
  unfold header_text. induction 1 as [|p ps Hp _ IH]; [reflexivity|].
  cbn [flat_map app]. rewrite <- app_assoc. cbn [app].
  now rewrite split_at_sep, IH.
Qed.

Lemma strip_prefix_app (p r : str) : FramedRead.strip_prefix p (p ++ r) = Some r.
Proof.
  induction p as [|c p IH]; [now destruct r|].
  cbn. now rewrite N.eqb_refl.
Qed.

Lemma strip_prefix_Some (p s r : str) :
  FramedRead.strip_prefix p s = Some r -> s = p ++ r.
Proof.
  revert s. induction p as [|c p IH]; intros s.
  - destruct s; cbn; intros [= <-]; reflexivity.
  - destruct s as [|d s]; [discriminate|]. cbn.
    destruct (N.eqb_spec c d) as [->|_]; [|discriminate].
    intros H. now rewrite (IH s H).
Qed.

Lemma app_sep_unique (sep : N) (k k' v v' : str) :
  ~ In sep k -> ~ In sep k' -> k ++ sep :: v = k' ++ sep :: v' -> k = k'.
Proof.
  revert k'. induction k as [|c k IH]; intros [|c' k'] Hk Hk'; cbn.
  - reflexivity.
  - intros [= <- _]. exfalso. apply Hk'. now left.
  - intros [= -> _]. exfalso. apply Hk. now left.
  - intros [= -> E]. f_equal. apply (IH k'); [|  |exact E].
    + intros H. apply Hk. now right.
    + intros H. apply Hk'. now right.
Qed.

Lemma content_length_no_equals : ~ In equals (lit "Content-Length").
Proof.
  intros H. vm_compute in H.
  repeat (destruct H as [H|H]; [discriminate H|]). exact H.
Qed.

(** The pattern on a parameter: only [Content-Length] followed by a
    digit matches. *)
Lemma regular_expression_match_param (k v : str) :
  ~ In equals k ->
  FramedRead.regular_expression_match (param_of (k, v))
  = str_eqb (lit "Content-Length") k
    && match v with c :: _ => FramedRead.is_digit c | [] => false end.
Proof.
  intros Hk. unfold FramedRead.regular_expression_match, param_of.
  cbn [fst snd]. change (lit "=" ++ v) with (equals :: v).
  destruct (str_eqb (lit "Content-Length") k) eqn:E.
  - apply str_eqb_eq in E as <-.
    change (lit "Content-Length=") with (lit "Content-Length" ++ [equals]).
    replace (lit "Content-Length" ++ equals :: v)
      with ((lit "Content-Length" ++ [equals]) ++ v)
      by (now rewrite <- app_assoc).
    rewrite strip_prefix_app. reflexivity.
  - apply str_eqb_neq in E.
    destruct (FramedRead.strip_prefix (lit "Content-Length=") (k ++ equals :: v))
      as [r|] eqn:S; [|reflexivity].
    apply strip_prefix_Some in S.
    change (lit "Content-Length=" ++ r)
      with (lit "Content-Length" ++ equals :: r) in S.
    exfalso. apply E. symmetry.
    exact (app_sep_unique equals _ _ _ _ Hk content_length_no_equals S).
Qed.

(** What the pattern keeps of the parameters of a dictionary. *)
Lemma filter_content_length (hs : dict str) :
  NoDup (keys hs) ->
  Forall (fun kv => ~ In equals (fst kv)) hs ->
  filter FramedRead.regular_expression_match (map param_of hs)
  = content_length_params hs.
Proof.
  unfold content_length_params.
  induction hs as [|[k v] hs IH]; [reflexivity|].
  intros Hnd Hhs. unfold keys in Hnd. cbn [map fst] in Hnd.
  inversion Hnd as [|? ? Hnotin Hnd']; subst.
  inversion Hhs as [|? ? Hk Hhs']; subst. cbn [fst] in Hk.
  cbn [map filter get]. rewrite (regular_expression_match_param k v Hk).
  specialize (IH Hnd' Hhs').
  destruct (str_eqb (lit "Content-Length") k) eqn:E; cbn [andb].
  - apply str_eqb_eq in E. subst k.
    rewrite (get_not_key hs _ Hnotin) in IH. rewrite IH.
    destruct v as [|c r]; [reflexivity|].
    now destruct (FramedRead.is_digit c).
  - exact IH.
Qed.

Lemma digit_not_equals (s : str) :
  Forall (fun c => FramedRead.is_digit c = true) s -> ~ In equals s.
Proof.
  intros H Hin. apply (proj1 (Forall_forall _ _) H) in Hin.
  discriminate Hin.
Qed.

Lemma int_of_digits_reads_decimals : reads_decimals int_of_digits.
Proof.
  intros s (Hne & Hd & _). unfold int_of_digits.
  destruct s as [|c s]; [contradiction|].
  replace (forallb FramedRead.is_digit (c :: s)) with true; [reflexivity|].
  symmetry. apply forallb_forall. now apply Forall_forall.
Qed.

End framed_text.

Section framed_read_facts.

Variable heap : Z.
Variable int : str -> option Z.
Variables (fd : nat) (a : address).

Lemma took_open (w : World) (k : nat) :
  socket.closed (sockets (took w fd k) fd) = false.
Proof. unfold took, set_socket. cbn [sockets]. now rewrite Nat.eqb_refl. Qed.

Lemma unread_took (w : World) (k : nat) :
  socket.unread (sockets (took w fd k) fd)
  = skipn k (socket.unread (sockets w fd)).
Proof. unfold took, set_socket. cbn [sockets]. now rewrite Nat.eqb_refl. Qed.

Lemma recv_open (n : Z) (w : World) :
  socket.closed (sockets w fd) = false -> allocatable heap n ->
  FramedRead.recv heap fd n w
  = Some (FramedRead.Value
            (firstn (Z.to_nat n) (socket.unread (sockets w fd))),
          took w fd (Z.to_nat n)).
Proof.
  intros Hopen (H0 & Hheap & Hmax). unfold FramedRead.recv.
  destruct (Z.gtb_spec n FramedRead.ssize_max); [lia|].
  destruct (Z.ltb_spec n 0); [lia|].
  destruct (Z.gtb_spec n heap); [lia|].
  unfold FramedRead.of_M, sock.recv. now rewrite Hopen.
Qed.

(** On an open socket the loop of the refusal never ends. *)
Lemma read_on_open (fuel : nat) (req_res data : bytes) (w : World) :
  (1 <= heap)%Z -> socket.closed (sockets w fd) = false ->
  FramedRead.read_on heap fuel fd req_res data w = None.
Proof.
  intros Hheap. revert req_res data w.
  induction fuel as [|fuel IH]; intros req_res data w Hopen;
    cbn [FramedRead.read_on FramedRead.bytes_ne_str]; [reflexivity|].
  unfold FramedRead.bindF.
  rewrite recv_open;
    [|exact Hopen|unfold allocatable, FramedRead.ssize_max; lia].
  apply IH. apply took_open.
Qed.

(** The run of [receive_message] up to the headers, on a frame that
    has arrived. *)
Lemma receive_message_headers (fuel : nat) (w : World)
      (tag len4 hdrs after : bytes) (s1 s2 : byte) (text : str) :
  socket.closed (sockets w fd) = false ->
  socket.unread (sockets w fd) = tag ++ s1 :: len4 ++ s2 :: hdrs ++ after ->
  tag = bytes_lit "req" \/ tag = bytes_lit "res" ->
  length len4 = 4 ->
  (Z.of_N (int_from_bytes_little len4) - 9 = Z.of_nat (length hdrs))%Z ->
  (6 <= heap)%Z -> (Z.of_nat (length hdrs) <= heap)%Z ->
  (Z.of_nat (length hdrs) <= FramedRead.ssize_max)%Z ->
  decode hdrs = Ok text ->
  let w3 := took (took (took w fd 3) fd 6) fd (length hdrs) in
  socket.unread (sockets w3 fd) = after /\
  FramedRead.receive_message heap int fuel fd a w
  = match FramedRead.pop_last (split colon text) with
    | Raise e => Some (FramedRead.Failure (FramedRead.Builtin e), w3)
    | Ok headers_list =>
        match index (filter FramedRead.regular_expression_match headers_list) 0
        with
        | Raise e => Some (FramedRead.Failure (FramedRead.Builtin e), w3)
        | Ok h =>
            match index (split equals h) 1 with
            | Raise e => Some (FramedRead.Failure (FramedRead.Builtin e), w3)
            | Ok v =>
                match int v with
                | None => Some (FramedRead.Failure FramedRead.ValueError, w3)
                | Some n =>
                    FramedRead.bindF (FramedRead.recv heap fd n)
                      (fun body =>
                         FramedRead.retF
                           (tag ++ [byte_of_N colon] ++ len4
                            ++ [byte_of_N colon] ++ hdrs ++ body)) w3
                end
            end
        end
    end.
Proof.
  intros Hopen Hunread Htag Hlen Hfield Hsix Hheap Hmax Hdecode w3.
  assert (Htag3 : length tag = 3) by (destruct Htag as [-> | ->]; reflexivity).
  destruct len4 as [|l0 [|l1 [|l2 [|l3 [|]]]]]; try discriminate Hlen.
  assert (U1 : socket.unread (sockets (took w fd 3) fd)
               = s1 :: [l0; l1; l2; l3] ++ s2 :: hdrs ++ after).
  { rewrite unread_took, Hunread, <- Htag3. apply skipn_app_exact. }
  assert (U2 : socket.unread (sockets (took (took w fd 3) fd 6) fd)
               = hdrs ++ after).
  { rewrite unread_took, U1. reflexivity. }
  assert (U3 : socket.unread (sockets w3 fd) = after).
  { unfold w3. rewrite unread_took, U2. apply skipn_app_exact. }
  split; [exact U3|].
  unfold FramedRead.receive_message.
  unfold FramedRead.bindF at 1.
  rewrite recv_open;
    [|exact Hopen|unfold allocatable, FramedRead.ssize_max; lia].
  change (Z.to_nat 3) with 3.
  rewrite Hunread, <- Htag3, firstn_app_exact, Htag3.
  unfold FramedRead.bindF at 1.
  change (FramedRead.of_result (encode (lit "req")))
    with (@FramedRead.retF bytes (bytes_lit "req")).
  unfold FramedRead.retF at 1. unfold FramedRead.bindF at 1.
  change (FramedRead.of_result (encode (lit "res")))
    with (@FramedRead.retF bytes (bytes_lit "res")).
  unfold FramedRead.retF at 1.
  replace (negb (FramedRead.bytes_eqb tag (bytes_lit "req"))
           && negb (FramedRead.bytes_eqb tag (bytes_lit "res")))
    with false by (destruct Htag as [-> | ->]; reflexivity).
  unfold FramedRead.bindF at 1.
  rewrite recv_open;
    [|apply took_open|unfold allocatable, FramedRead.ssize_max; lia].
  change (Z.to_nat 6) with 6. rewrite U1.
  cbn [app firstn]. unfold slice at 1. cbn [skipn firstn Nat.sub].
  unfold slice at 1. cbn [skipn firstn Nat.sub].
  rewrite Hfield.
  unfold FramedRead.bindF at 1.
  rewrite recv_open;
    [|apply took_open|unfold allocatable; lia].
  rewrite Nat2Z.id, U2, firstn_app_exact. fold w3.
  unfold FramedRead.bindF at 1, FramedRead.of_result at 1, FramedRead.of_M, lift.
  rewrite Hdecode.
  unfold FramedRead.bindF at 1, FramedRead.of_result at 1, FramedRead.of_M, lift.
  destruct (FramedRead.pop_last (split colon text)) as [headers_list|e];
    [|reflexivity].
  unfold FramedRead.bindF at 1, FramedRead.of_result at 1, FramedRead.of_M, lift.
  destruct (index (filter FramedRead.regular_expression_match headers_list) 0)
    as [h|e]; [|reflexivity].
  unfold FramedRead.bindF at 1, FramedRead.of_result at 1, FramedRead.of_M, lift.
  destruct (index (split equals h) 1) as [v|e]; [|reflexivity].
  destruct (int v) as [n|]; [|reflexivity].
  unfold FramedRead.bindF.
  destruct (FramedRead.recv heap fd n w3) as [[[body|e] w4]|]; reflexivity.
Qed.

End framed_read_facts.

Section framed_read_on_frames.

Variable heap : Z.
Variable int : str -> option Z.
Variables (fd : nat) (a : address).

Lemma pop_last_snoc A (l : list A) (x : A) :
  FramedRead.pop_last (l ++ [x]) = Ok l.
Proof.
  unfold FramedRead.pop_last. rewrite removelast_last.
  now destruct l.
Qed.

(** The run of [receive_message] up to the headers, on the frame of a
    message followed by [rest]. *)
Lemma receive_message_on_frame (fuel : nat) (w : World)
      (m : CommunicationProtocol.t) (frame rest : bytes) :
  is_direction (req_res m) ->
  NoDup (keys (headers m)) ->
  Forall (fun kv => plain (fst kv) /\ colon_free (snd kv)) (headers m) ->
  fits_uint32 (header_length_of (headers m)) ->
  to_bytes m = Ok frame ->
  socket.closed (sockets w fd) = false ->
  socket.unread (sockets w fd) = frame ++ rest ->
  (Z.of_nat (header_length_of (headers m)) <= heap)%Z ->
  exists len4 w3,
    int_to_bytes_little 4 (N.of_nat (header_length_of (headers m))) = Ok len4 /\
    socket.unread (sockets w3 fd) = body_bytes (body m) ++ rest /\
    socket.closed (sockets w3 fd) = false /\
    sessions w3 = sessions w /\
    FramedRead.receive_message heap int fuel fd a w
    = match index (content_length_params (headers m)) 0 with
      | Raise e => Some (FramedRead.Failure (FramedRead.Builtin e), w3)
      | Ok h =>
          match index (split equals h) 1 with
          | Raise e => Some (FramedRead.Failure (FramedRead.Builtin e), w3)
          | Ok v =>
              match int v with
              | None => Some (FramedRead.Failure FramedRead.ValueError, w3)
              | Some n =>
                  FramedRead.bindF (FramedRead.recv heap fd n)
                    (fun body =>
                       FramedRead.retF
                         (frame_of (req_res m) len4
                                   (map param_of (headers m)) body)) w3
              end
          end
      end.
Proof.
  intros Hdir Hnd Hhs Hfit Hframe Hopen Hunread Hheap.
  assert (Hasc : Forall (fun kv => ascii_text (fst kv) /\ ascii_text (snd kv))
                        (headers m)).
  { revert Hhs. apply Forall_impl. intros kv [[Hk _] [Hv _]]. now split. }
  assert (Hcf : Forall colon_free (map param_of (headers m))).
  { apply colon_free_params. revert Hhs. apply Forall_impl.
    intros kv [[Hk [Hc _]] Hv]. split; [now split|exact Hv]. }
  assert (Hne : Forall (fun kv => ~ In equals (fst kv)) (headers m)).
  { revert Hhs. apply Forall_impl. intros kv [[_ [_ Hk]] _]. exact Hk. }
  destruct (to_bytes_ascii m Hdir Hnd Hasc Hfit)
    as (len4 & E4 & Hlen & Hval & E).
  rewrite E in Hframe. injection Hframe as <-.
  pose proof (header_length_of_params (headers m)) as HL.
  set (ps := map param_of (headers m)) in *.
  assert (Hmax : (Z.of_nat (length (wire ps)) <= FramedRead.ssize_max)%Z).
  { rewrite length_wire. unfold fits_uint32 in Hfit.
    unfold FramedRead.ssize_max. lia. }
  destruct (receive_message_headers heap int fd a fuel w
              (map byte_of_N (req_res m)) len4 (wire ps)
              (body_bytes (body m) ++ rest)
              (byte_of_N colon) (byte_of_N colon) (header_text ps))
    as [U3 R].
  - exact Hopen.
  - rewrite Hunread. unfold frame_of. rewrite <- !app_assoc. reflexivity.
  - destruct Hdir as [-> | ->]; [left|right]; reflexivity.
  - exact Hlen.
  - rewrite Hval, length_wire. lia.
  - lia.
  - rewrite length_wire. lia.
  - exact Hmax.
  - rewrite wire_header_text. apply decode_ascii, ascii_header_text.
    revert Hcf. apply Forall_impl. now intros p [Hp _].
  - exists len4. eexists. split; [exact E4|]. split; [exact U3|].
    split; [apply took_open|]. split; [reflexivity|].
    rewrite R. rewrite split_header_text
      by (revert Hcf; apply Forall_impl; now intros p [_ Hp]).
    rewrite pop_last_snoc. unfold ps.
    rewrite (filter_content_length _ Hnd Hne).
    destruct (index (content_length_params (headers m)) 0) as [h|e];
      [|reflexivity].
    destruct (index (split equals h) 1) as [v|e]; [|reflexivity].
    destruct (int v) as [n|]; [|reflexivity].
    unfold FramedRead.bindF.
    destruct (FramedRead.recv heap fd n _) as [[[body|e] w4]|]; try reflexivity.
    unfold FramedRead.retF, frame_of. rewrite <- !app_assoc. reflexivity.
Qed.

(** X25. A message that does not start with [req] or [res]: as long as
    the socket is open, [receive_message] never returns and never
    raises, the exception of its docstring included; the loop that
    reads the rest of the message tests [data != ""] on a [bytes]
    object, which holds for ever. *)
Theorem receive_message_bad_tag_never_returns (fuel : nat) (w : World) :
  (3 <= heap)%Z ->
  socket.closed (sockets w fd) = false ->
  firstn 3 (socket.unread (sockets w fd)) <> bytes_lit "req" ->
  firstn 3 (socket.unread (sockets w fd)) <> bytes_lit "res" ->
  FramedRead.receive_message heap int fuel fd a w = None.
Proof.
  intros Hheap Hopen Hreq Hres.
  unfold FramedRead.receive_message.
  unfold FramedRead.bindF at 1.
  rewrite recv_open;
    [|exact Hopen|unfold allocatable, FramedRead.ssize_max; lia].
  change (Z.to_nat 3) with 3.
  unfold FramedRead.bindF at 1.
  change (FramedRead.of_result (encode (lit "req")))
    with (@FramedRead.retF bytes (bytes_lit "req")).
  unfold FramedRead.retF at 1. unfold FramedRead.bindF at 1.
  change (FramedRead.of_result (encode (lit "res")))
    with (@FramedRead.retF bytes (bytes_lit "res")).
  unfold FramedRead.retF at 1.
  destruct (FramedRead.bytes_eqb (firstn 3 (socket.unread (sockets w fd)))
                                 (bytes_lit "req")) eqn:E1;
    [apply bytes_eqb_eq in E1; contradiction|].
  destruct (FramedRead.bytes_eqb (firstn 3 (socket.unread (sockets w fd)))
                                 (bytes_lit "res")) eqn:E2;
    [apply bytes_eqb_eq in E2; contradiction|].
  cbn [negb andb]. unfold FramedRead.bindF at 1.
  rewrite recv_open;
    [|apply took_open|unfold allocatable, FramedRead.ssize_max; lia].
  unfold FramedRead.bindF at 1.
  rewrite read_on_open; [reflexivity|lia|apply took_open].
Qed.

(** X26. Reading one frame. When the frame of a request or response
    with plain headers has arrived, followed by [rest], and its
    [Content-Length] header is a decimal number [n], [receive_message]
    returns the frame of the message with, as its body, the first [n]
    bytes the peer sent after the headers; what follows them stays
    unread and the sessions are untouched.  With [n] the length of the
    body this is the frame that was sent, and [rest] stays unread. *)
Theorem receive_message_reads_frame (fuel : nat) (w : World)
        (m : CommunicationProtocol.t) (frame rest : bytes) (v : str) :
  reads_decimals int ->
  is_direction (req_res m) ->
  NoDup (keys (headers m)) ->
  Forall (fun kv => plain (fst kv) /\ colon_free (snd kv)) (headers m) ->
  fits_uint32 (header_length_of (headers m)) ->
  get_header_value m (lit "Content-Length") = Some v ->
  decimal v ->
  to_bytes m = Ok frame ->
  socket.closed (sockets w fd) = false ->
  socket.unread (sockets w fd) = frame ++ rest ->
  (Z.of_nat (header_length_of (headers m)) <= heap)%Z ->
  allocatable heap (digits_value v) ->
  let n := Z.to_nat (digits_value v) in
  let sent_body := body_bytes (body m) ++ rest in
  exists received w',
    FramedRead.receive_message heap int fuel fd a w
    = Some (FramedRead.Value received, w') /\
    to_bytes (with_body m (Some (firstn n sent_body))) = Ok received /\
    socket.unread (sockets w' fd) = skipn n sent_body /\
    socket.closed (sockets w' fd) = false /\
    sessions w' = sessions w /\
    (n = length (body_bytes (body m)) ->
     received = frame /\ socket.unread (sockets w' fd) = rest).
Proof.
  intros Hint Hdir Hnd Hhs Hfit Hcl Hdec Hframe Hopen Hunread Hheap Halloc
         n sent_body.
  destruct (receive_message_on_frame fuel w m frame rest Hdir Hnd Hhs Hfit
              Hframe Hopen Hunread Hheap)
    as (len4 & w3 & E4 & U3 & Hopen3 & Hs3 & R).
  assert (Hasc : Forall (fun kv => ascii_text (fst kv) /\ ascii_text (snd kv))
                        (headers m)).
  { revert Hhs. apply Forall_impl. intros kv [[Hk _] [Hv _]]. now split. }
  destruct (to_bytes_ascii m Hdir Hnd Hasc Hfit) as (len4' & E4' & _ & _ & E).
  rewrite E4 in E4'. injection E4' as <-.
  rewrite E in Hframe. injection Hframe as <-.
  destruct (to_bytes_ascii (with_body m (Some (firstn n sent_body)))
              Hdir Hnd Hasc Hfit) as (len4' & E4' & _ & _ & E').
  cbn [with_body headers req_res body body_bytes] in E4', E'.
  rewrite E4 in E4'. injection E4' as <-.
  unfold get_header_value in Hcl. destruct Hdec as (Hne & Hdigits & Hlen).
  assert (Hparams : content_length_params (headers m)
                    = [param_of (lit "Content-Length", v)]).
  { unfold content_length_params. rewrite Hcl.
    destruct v as [|c r]; [contradiction|].
    inversion Hdigits as [|? ? Hc _]; subst. now rewrite Hc. }
  rewrite Hparams in R. cbn [index nth_error] in R.
  rewrite (split_param_of (lit "Content-Length", v)) in R
    by (cbn [fst snd];
        [exact content_length_no_equals || now apply digit_not_equals ..]).
  cbn [index nth_error fst snd] in R.
  rewrite (Hint v (conj Hne (conj Hdigits Hlen))) in R.
  unfold FramedRead.bindF in R.
  rewrite (recv_open heap fd _ w3 Hopen3 Halloc), U3 in R.
  fold n sent_body in R. unfold FramedRead.retF in R.
  do 2 eexists. split; [exact R|]. split; [exact E'|].
  split; [now rewrite unread_took, U3|].
  split; [apply took_open|]. split; [exact Hs3|].
  intros Hn. unfold sent_body. rewrite unread_took, U3, Hn.
  rewrite firstn_app_exact, skipn_app_exact. split; reflexivity.
Qed.

(** X27. No usable [Content-Length]: when the frame that has arrived
    has no [Content-Length] header, or one whose value does not start
    with an ASCII digit, [receive_message] raises [IndexError] once the
    header section is read; the body stays unread. *)
Theorem receive_message_without_content_length (fuel : nat) (w : World)
        (m : CommunicationProtocol.t) (frame rest : bytes) :
  is_direction (req_res m) ->
  NoDup (keys (headers m)) ->
  Forall (fun kv => plain (fst kv) /\ colon_free (snd kv)) (headers m) ->
  fits_uint32 (header_length_of (headers m)) ->
  match get_header_value m (lit "Content-Length") with
  | Some (c :: _) => FramedRead.is_digit c = false
  | _ => True
  end ->
  to_bytes m = Ok frame ->
  socket.closed (sockets w fd) = false ->
  socket.unread (sockets w fd) = frame ++ rest ->
  (Z.of_nat (header_length_of (headers m)) <= heap)%Z ->
  exists w',
    FramedRead.receive_message heap int fuel fd a w
    = Some (FramedRead.Failure (FramedRead.Builtin IndexError), w') /\
    socket.unread (sockets w' fd) = body_bytes (body m) ++ rest /\
    sessions w' = sessions w.
Proof.
  intros Hdir Hnd Hhs Hfit Hcl Hframe Hopen Hunread Hheap.
  destruct (receive_message_on_frame fuel w m frame rest Hdir Hnd Hhs Hfit
              Hframe Hopen Hunread Hheap)
    as (len4 & w3 & _ & U3 & _ & Hs3 & R).
  assert (Hparams : content_length_params (headers m) = []).
  { unfold content_length_params. unfold get_header_value in Hcl.
    destruct (get (headers m) (lit "Content-Length")) as [[|c r]|];
      try reflexivity.
    now rewrite Hcl. }
  rewrite Hparams in R. cbn [index nth_error] in R.
  exists w3. split; [exact R|]. split; [exact U3|exact Hs3].
Qed.

(** X28. A [Content-Length] that is no number: when the value of the
    header starts with a digit and [int] refuses it, up to its first
    ['='], [receive_message] raises [ValueError]; the body stays
    unread. *)
Theorem receive_message_bad_content_length (fuel : nat) (w : World)
        (m : CommunicationProtocol.t) (frame rest : bytes) (c : N) (r : str) :
  is_direction (req_res m) ->
  NoDup (keys (headers m)) ->
  Forall (fun kv => plain (fst kv) /\ colon_free (snd kv)) (headers m) ->
  fits_uint32 (header_length_of (headers m)) ->
  get_header_value m (lit "Content-Length") = Some (c :: r) ->
  FramedRead.is_digit c = true ->
  int (before_equals (c :: r)) = None ->
  to_bytes m = Ok frame ->
  socket.closed (sockets w fd) = false ->
  socket.unread (sockets w fd) = frame ++ rest ->
  (Z.of_nat (header_length_of (headers m)) <= heap)%Z ->
  exists w',
    FramedRead.receive_message heap int fuel fd a w
    = Some (FramedRead.Failure FramedRead.ValueError, w') /\
    socket.unread (sockets w' fd) = body_bytes (body m) ++ rest /\
    sessions w' = sessions w.
Proof.
  intros Hdir Hnd Hhs Hfit Hcl Hc Hint Hframe Hopen Hunread Hheap.
  destruct (receive_message_on_frame fuel w m frame rest Hdir Hnd Hhs Hfit
              Hframe Hopen Hunread Hheap)
    as (len4 & w3 & _ & U3 & _ & Hs3 & R).
  unfold content_length_params in R. unfold get_header_value in Hcl.
  rewrite Hcl, Hc in R. cbn [index nth_error] in R.
  destruct (split_param_of_any (lit "Content-Length", c :: r)
              content_length_no_equals) as [t Hsplit].
  rewrite Hsplit in R. cbn [index nth_error fst snd] in R.
  rewrite Hint in R.
  exists w3. split; [exact R|]. split; [exact U3|exact Hs3].
Qed.

(** X29. A header length below 9: when the four bytes after the tag
    and its separator announce less than 9, [receive_message] asks
    [recv] for a negative number of bytes and raises [ValueError]; the
    tag and the six bytes after it were read, nothing else.  A message
    of three bytes, [req] or [res] alone, is such a message. *)
Theorem receive_message_short_header_length (fuel : nat) (w : World) :
  (6 <= heap)%Z ->
  socket.closed (sockets w fd) = false ->
  firstn 3 (socket.unread (sockets w fd)) = bytes_lit "req"
  \/ firstn 3 (socket.unread (sockets w fd)) = bytes_lit "res" ->
  (int_from_bytes_little
     (slice (firstn 6 (skipn 3 (socket.unread (sockets w fd)))) 1 5) < 9)%N ->
  FramedRead.receive_message heap int fuel fd a w
  = Some (FramedRead.Failure FramedRead.ValueError, took (took w fd 3) fd 6).
Proof.
  intros Hheap Hopen Htag Hshort.
  unfold FramedRead.receive_message.
  unfold FramedRead.bindF at 1.
  rewrite recv_open;
    [|exact Hopen|unfold allocatable, FramedRead.ssize_max; lia].
  change (Z.to_nat 3) with 3.
  unfold FramedRead.bindF at 1.
  change (FramedRead.of_result (encode (lit "req")))
    with (@FramedRead.retF bytes (bytes_lit "req")).
  unfold FramedRead.retF at 1. unfold FramedRead.bindF at 1.
  change (FramedRead.of_result (encode (lit "res")))
    with (@FramedRead.retF bytes (bytes_lit "res")).
  unfold FramedRead.retF at 1.
  replace (negb (FramedRead.bytes_eqb
                   (firstn 3 (socket.unread (sockets w fd))) (bytes_lit "req"))
           && negb (FramedRead.bytes_eqb
                      (firstn 3 (socket.unread (sockets w fd)))
                      (bytes_lit "res")))
    with false by (destruct Htag as [-> | ->]; reflexivity).
  unfold FramedRead.bindF at 1.
  rewrite recv_open;
    [|apply took_open|unfold allocatable, FramedRead.ssize_max; lia].
  change (Z.to_nat 6) with 6. rewrite unread_took.
  unfold FramedRead.bindF at 1, FramedRead.recv at 1.
  set (field := int_from_bytes_little _) in *.
  destruct (Z.gtb_spec (Z.of_N field - 9) FramedRead.ssize_max);
    [unfold FramedRead.ssize_max in *; lia|].
  destruct (Z.ltb_spec (Z.of_N field - 9) 0); [reflexivity|lia].
Qed.

(** X30. Reading, then parsing. When the frame of a request or response
    with plain headers has arrived and its [Content-Length] header is
    the length of its body in decimal, what [receive_message] returns
    is a message [from_bytes] accepts: it has the direction, the
    headers, values cut at a first ['='], and the body of the message
    that was framed, and what the peer sent after the frame is still
    unread. *)
Theorem receive_message_then_from_bytes (fuel : nat) (w : World)
        (m : CommunicationProtocol.t) (frame rest : bytes) (v : str) :
  reads_decimals int ->
  is_direction (req_res m) ->
  NoDup (keys (headers m)) ->
  Forall (fun kv => plain (fst kv) /\ colon_free (snd kv)) (headers m) ->
  fits_uint32 (header_length_of (headers m)) ->
  get_header_value m (lit "Content-Length") = Some v ->
  decimal v ->
  digits_value v = Z.of_nat (length (body_bytes (body m))) ->
  to_bytes m = Ok frame ->
  socket.closed (sockets w fd) = false ->
  socket.unread (sockets w fd) = frame ++ rest ->
  (Z.of_nat (header_length_of (headers m)) <= heap)%Z ->
  allocatable heap (digits_value v) ->
  exists received w',
    FramedRead.receive_message heap int fuel fd a w
    = Some (FramedRead.Value received, w') /\
    from_bytes received
    = Ok (Build (req_res m) (headers_read (headers m))
                (Some (body_bytes (body m)))) /\
    socket.unread (sockets w' fd) = rest.
Proof.
  intros Hint Hdir Hnd Hhs Hfit Hcl Hdec Hn Hframe Hopen Hunread Hheap Halloc.
  destruct (receive_message_on_frame fuel w m frame rest Hdir Hnd Hhs Hfit
              Hframe Hopen Hunread Hheap)
    as (len4 & w3 & E4 & U3 & Hopen3 & Hs3 & R).
  assert (Hcf : Forall (fun kv => colon_free (fst kv) /\ colon_free (snd kv))
                       (headers m)).
  { revert Hhs. apply Forall_impl. intros kv [[Hk [Hc _]] Hv].
    split; [now split|exact Hv]. }
  assert (Hne : Forall (fun kv => ~ In equals (fst kv)) (headers m)).
  { revert Hhs. apply Forall_impl. intros kv [[_ [_ Hk]] _]. exact Hk. }
  destruct (int_to_bytes_little_spec 4
              (N.of_nat (header_length_of (headers m))) Hfit)
    as (len4' & E4' & Hlen & Hval).
  rewrite E4 in E4'. injection E4' as <-.
  unfold get_header_value in Hcl. destruct Hdec as (Hnonempty & Hdigits & Hlong).
  assert (Hparams : content_length_params (headers m)
                    = [param_of (lit "Content-Length", v)]).
  { unfold content_length_params. rewrite Hcl.
    destruct v as [|c r]; [contradiction|].
    inversion Hdigits as [|? ? Hc _]; subst. now rewrite Hc. }
  rewrite Hparams in R. cbn [index nth_error] in R.
  rewrite (split_param_of (lit "Content-Length", v)) in R
    by (cbn [fst snd];
        [exact content_length_no_equals || now apply digit_not_equals ..]).
  cbn [index nth_error fst snd] in R.
  rewrite (Hint v (conj Hnonempty (conj Hdigits Hlong))) in R.
  unfold FramedRead.bindF in R.
  rewrite (recv_open heap fd _ w3 Hopen3 Halloc), U3 in R.
  rewrite Hn, Nat2Z.id, firstn_app_exact in R. unfold FramedRead.retF in R.
  do 2 eexists. split; [exact R|]. split.
  - rewrite from_bytes_frame;
      [|assumption|assumption
       |rewrite Hval; f_equal;
        pose proof (header_length_of_params (headers m)); lia
       |now apply colon_free_params].
    unfold params_list_to_dict.
    rewrite (params_list_to_dict_loop_fold _ _ Hne).
    rewrite fold_setitem_fresh by exact Hnd.
    reflexivity.
  - rewrite unread_took, U3. apply skipn_app_exact.
Qed.

End framed_read_on_frames.

Section framed_read_witnesses.

Ltac evident :=
  repeat constructor; cbn; try lia; try discriminate; intuition discriminate.

Lemma receive_message_bad_tag_never_returns_witness :
  FramedRead.receive_message mebibyte int_of_digits 100 0 peer
    (arrive world0 0 (bytes_lit "xyz:hello"))
  = None.
Proof.
  apply (receive_message_bad_tag_never_returns mebibyte int_of_digits 0 peer
           100 (arrive world0 0 (bytes_lit "xyz:hello")));
    [unfold mebibyte; lia|reflexivity|discriminate|discriminate].
Defined.

Lemma receive_message_reads_frame_witness :
  to_bytes ping_kept = Ok ping_kept_frame /\
  exists w',
    FramedRead.receive_message mebibyte int_of_digits 0 0 peer
      (arrive world0 0 (ping_kept_frame ++ bytes_lit "next"))
    = Some (FramedRead.Value ping_kept_frame, w') /\
    socket.unread (sockets w' 0) = bytes_lit "next".
Proof.
  assert (Hframe : to_bytes ping_kept = Ok ping_kept_frame) by reflexivity.
  split; [exact Hframe|].
  destruct (receive_message_reads_frame mebibyte int_of_digits 0 peer 0
              (arrive world0 0 (ping_kept_frame ++ bytes_lit "next"))
              ping_kept ping_kept_frame (bytes_lit "next") (lit "2"))
    as (received & w' & R & _ & _ & _ & _ & Hexact).
  - exact int_of_digits_reads_decimals.
  - left. reflexivity.
  - evident.
  - evident.
  - unfold fits_uint32. cbn. lia.
  - reflexivity.
  - split; [discriminate|]. split; [repeat constructor|cbn; lia].
  - exact Hframe.
  - reflexivity.
  - reflexivity.
  - unfold mebibyte. cbn. lia.
  - unfold allocatable, FramedRead.ssize_max, mebibyte. cbn. lia.
  - destruct (Hexact eq_refl) as [-> U]. exists w'. split; assumption.
Defined.

Lemma receive_message_then_from_bytes_witness :
  to_bytes ping_kept = Ok ping_kept_frame /\
  exists received w',
    FramedRead.receive_message mebibyte int_of_digits 0 0 peer
      (arrive world0 0 (ping_kept_frame ++ bytes_lit "next"))
    = Some (FramedRead.Value received, w') /\
    from_bytes received = Ok ping_kept.
Proof.
  assert (Hframe : to_bytes ping_kept = Ok ping_kept_frame) by reflexivity.
  split; [exact Hframe|].
  destruct (receive_message_then_from_bytes mebibyte int_of_digits 0 peer 0
              (arrive world0 0 (ping_kept_frame ++ bytes_lit "next"))
              ping_kept ping_kept_frame (bytes_lit "next") (lit "2"))
    as (received & w' & R & P & _).
  - exact int_of_digits_reads_decimals.
  - left. reflexivity.
  - evident.
  - evident.
  - unfold fits_uint32. cbn. lia.
  - reflexivity.
  - split; [discriminate|]. split; [repeat constructor|cbn; lia].
  - reflexivity.
  - exact Hframe.
  - reflexivity.
  - reflexivity.
  - unfold mebibyte. cbn. lia.
  - unfold allocatable, FramedRead.ssize_max, mebibyte. cbn. lia.
  - exists received, w'. split; [exact R|exact P].
Defined.

Lemma receive_message_without_content_length_witness :
  to_bytes ping_unsized = Ok ping_unsized_frame /\
  exists w',
    FramedRead.receive_message mebibyte int_of_digits 0 0 peer
      (arrive world0 0 ping_unsized_frame)
    = Some (FramedRead.Failure (FramedRead.Builtin IndexError), w') /\
    socket.unread (sockets w' 0) = bytes_lit "hi".
Proof.
  assert (Hframe : to_bytes ping_unsized = Ok ping_unsized_frame)
    by reflexivity.
  split; [exact Hframe|].
  destruct (receive_message_without_content_length mebibyte int_of_digits
              0 peer 0 (arrive world0 0 ping_unsized_frame)
              ping_unsized ping_unsized_frame [])
    as (w' & R & U & _).
  - left. reflexivity.
  - evident.
  - evident.
  - unfold fits_uint32. cbn. lia.
  - exact I.
  - exact Hframe.
  - reflexivity.
  - vm_compute. reflexivity.
  - unfold mebibyte. cbn. lia.
  - exists w'. split; assumption.
Defined.

Lemma receive_message_bad_content_length_witness :
  to_bytes ping_misnumbered = Ok ping_misnumbered_frame /\
  exists w',
    FramedRead.receive_message mebibyte int_of_digits 0 0 peer
      (arrive world0 0 ping_misnumbered_frame)
    = Some (FramedRead.Failure FramedRead.ValueError, w') /\
    socket.unread (sockets w' 0) = bytes_lit "hi".
Proof.
  assert (Hframe : to_bytes ping_misnumbered = Ok ping_misnumbered_frame)
    by reflexivity.
  split; [exact Hframe|].
  destruct (receive_message_bad_content_length mebibyte int_of_digits
              0 peer 0 (arrive world0 0 ping_misnumbered_frame)
              ping_misnumbered ping_misnumbered_frame [] 50%N (lit "x"))
    as (w' & R & U & _).
  - left. reflexivity.
  - evident.
  - evident.
  - unfold fits_uint32. cbn. lia.
  - reflexivity.
  - reflexivity.
  - reflexivity.
  - exact Hframe.
  - reflexivity.
  - vm_compute. reflexivity.
  - unfold mebibyte. cbn. lia.
  - exists w'. split; assumption.
Defined.

Lemma receive_message_short_header_length_witness :
  from_bytes (bytes_lit "res") = Ok (Build (lit "res") [] (Some [])) /\
  exists w',
    FramedRead.receive_message mebibyte int_of_digits 0 0 peer
      (arrive world0 0 (bytes_lit "res"))
    = Some (FramedRead.Failure FramedRead.ValueError, w').
Proof.
  split; [reflexivity|]. eexists.
  apply (receive_message_short_header_length mebibyte int_of_digits 0 peer 0
           (arrive world0 0 (bytes_lit "res")));
    [unfold mebibyte; lia|reflexivity|right; reflexivity|reflexivity].
Defined.

End framed_read_witnesses.
